(** * The semantic core of the ispc front end: expr.cpp

    A shallow embedding of the type conversion engine, the constant
    folder, the assignment checker and the overload resolver of
    [expr.cpp], with the properties of the design document stated and
    proved over it. *)

From Stdlib Require Import ZArith List Bool String Lia.
From Stdlib Require Import Floats.SpecFloat.
Import ListNotations.

Local Open Scope string_scope.
Local Open Scope list_scope.
Local Open Scope Z_scope.

Set Implicit Arguments.
Set Warnings "-register-all".

(* ================================================================== *)
(** * The type system (type.h / type.cpp) *)
(* ================================================================== *)

(** [AtomicType::BasicType], in the order of the enumeration. *)
Inductive BasicType : Set :=
| TYPE_VOID | TYPE_BOOL
| TYPE_INT8 | TYPE_UINT8 | TYPE_INT16 | TYPE_UINT16
| TYPE_INT32 | TYPE_UINT32 | TYPE_FLOAT
| TYPE_INT64 | TYPE_UINT64 | TYPE_DOUBLE.

Definition BasicType_eqb (a b : BasicType) : bool :=
  match a, b with
  | TYPE_VOID, TYPE_VOID | TYPE_BOOL, TYPE_BOOL
  | TYPE_INT8, TYPE_INT8 | TYPE_UINT8, TYPE_UINT8
  | TYPE_INT16, TYPE_INT16 | TYPE_UINT16, TYPE_UINT16
  | TYPE_INT32, TYPE_INT32 | TYPE_UINT32, TYPE_UINT32
  | TYPE_FLOAT, TYPE_FLOAT | TYPE_INT64, TYPE_INT64
  | TYPE_UINT64, TYPE_UINT64 | TYPE_DOUBLE, TYPE_DOUBLE => true
  | _, _ => false
  end.

(** Handle of a parameter's default-value expression; the resolver only
    asks whether one is present. *)
Definition DefaultExpr := nat.

(** Modelled from the spec: class [Type] and its subclasses are declared
    in type.h, which is not part of the sources at hand.  The categories
    and their attributes are those of the data model: atomic, enum,
    pointer, reference, array, short vector, struct and function types;
    variability and constness are carried where the data model puts them
    (a pointer's flags are those of the pointer itself, not of the
    pointee; an array or vector takes them from its element type). *)
Inductive Ty : Set :=
| AtomicType (basicType : BasicType) (isUniform isConst : bool)
| EnumType (name : string) (isUniform isConst : bool)
| PointerType (baseType : Ty) (isUniform isConst : bool)
| ReferenceType (targetType : Ty)
| ArrayType (child : Ty) (numElements : nat)
| VectorType (base : Ty) (numElements : nat)
| StructType (name : string) (elements : list (string * Ty))
             (isUniform isConst : bool)
| FunctionType (returnType : Ty) (paramTypes : list (option Ty))
               (paramDefaults : list (option DefaultExpr)) (isTask : bool).

(** The predefined atomic types ([AtomicType::UniformInt32] and so on).
    The source compares against them by address; atomic types are
    unique per (basic type, variability, constness), so the comparison
    is structural here. *)
Module Atomic.
Definition Void := AtomicType TYPE_VOID true false.
Definition UniformBool := AtomicType TYPE_BOOL true false.
Definition VaryingBool := AtomicType TYPE_BOOL false false.
Definition UniformInt8 := AtomicType TYPE_INT8 true false.
Definition UniformUInt8 := AtomicType TYPE_UINT8 true false.
Definition UniformInt16 := AtomicType TYPE_INT16 true false.
Definition UniformUInt16 := AtomicType TYPE_UINT16 true false.
Definition UniformInt32 := AtomicType TYPE_INT32 true false.
Definition VaryingInt32 := AtomicType TYPE_INT32 false false.
Definition UniformUInt32 := AtomicType TYPE_UINT32 true false.
Definition VaryingUInt32 := AtomicType TYPE_UINT32 false false.
Definition UniformFloat := AtomicType TYPE_FLOAT true false.
Definition VaryingFloat := AtomicType TYPE_FLOAT false false.
Definition UniformInt64 := AtomicType TYPE_INT64 true false.
Definition VaryingInt64 := AtomicType TYPE_INT64 false false.
Definition UniformUInt64 := AtomicType TYPE_UINT64 true false.
Definition UniformDouble := AtomicType TYPE_DOUBLE true false.
Definition VaryingDouble := AtomicType TYPE_DOUBLE false false.
Definition UniformConstBool := AtomicType TYPE_BOOL true true.
Definition VaryingConstBool := AtomicType TYPE_BOOL false true.
Definition UniformConstInt32 := AtomicType TYPE_INT32 true true.
Definition VaryingConstInt32 := AtomicType TYPE_INT32 false true.
Definition UniformConstUInt32 := AtomicType TYPE_UINT32 true true.
Definition VaryingConstUInt32 := AtomicType TYPE_UINT32 false true.
Definition UniformConstFloat := AtomicType TYPE_FLOAT true true.
Definition VaryingConstFloat := AtomicType TYPE_FLOAT false true.
End Atomic.

(** [PointerType::Void], the type of the null pointer literal. *)
Definition PointerType_Void : Ty := PointerType Atomic.Void true true.

(** ** Shape and attribute queries *)

Fixpoint IsUniformType (t : Ty) : bool :=
  match t with
  | AtomicType _ u _ => u
  | EnumType _ u _ => u
  | PointerType _ u _ => u
  | ReferenceType _ => true
  | ArrayType c _ => IsUniformType c
  | VectorType b _ => IsUniformType b
  | StructType _ _ u _ => u
  | FunctionType _ _ _ _ => true
  end.

Definition IsVaryingType (t : Ty) : bool := negb (IsUniformType t).

Fixpoint IsConstType (t : Ty) : bool :=
  match t with
  | AtomicType _ _ c => c
  | EnumType _ _ c => c
  | PointerType _ _ c => c
  | ReferenceType r => IsConstType r
  | ArrayType c _ => IsConstType c
  | VectorType b _ => IsConstType b
  | StructType _ _ _ c => c
  | FunctionType _ _ _ _ => false
  end.

Fixpoint IsBoolType (t : Ty) : bool :=
  match t with
  | AtomicType bt _ _ => BasicType_eqb bt TYPE_BOOL
  | ReferenceType r => IsBoolType r
  | VectorType b _ => IsBoolType b
  | _ => false
  end.

Definition BasicType_isInt (bt : BasicType) : bool :=
  match bt with
  | TYPE_INT8 | TYPE_UINT8 | TYPE_INT16 | TYPE_UINT16
  | TYPE_INT32 | TYPE_UINT32 | TYPE_INT64 | TYPE_UINT64 => true
  | _ => false
  end.

Fixpoint IsIntType (t : Ty) : bool :=
  match t with
  | AtomicType bt _ _ => BasicType_isInt bt
  | EnumType _ _ _ => true
  | ReferenceType r => IsIntType r
  | VectorType b _ => IsIntType b
  | _ => false
  end.

Definition isAtomicType (t : Ty) : bool :=
  match t with AtomicType _ _ _ => true | _ => false end.
Definition isEnumType (t : Ty) : bool :=
  match t with EnumType _ _ _ => true | _ => false end.
Definition isPointerType (t : Ty) : bool :=
  match t with PointerType _ _ _ => true | _ => false end.
Definition isReferenceType (t : Ty) : bool :=
  match t with ReferenceType _ => true | _ => false end.
Definition isArrayType (t : Ty) : bool :=
  match t with ArrayType _ _ => true | _ => false end.
Definition isVectorType (t : Ty) : bool :=
  match t with VectorType _ _ => true | _ => false end.
Definition isStructType (t : Ty) : bool :=
  match t with StructType _ _ _ _ => true | _ => false end.
Definition isFunctionType (t : Ty) : bool :=
  match t with FunctionType _ _ _ _ => true | _ => false end.

(** ** The variability and constness morphisms *)

Fixpoint GetAsConstType (t : Ty) : Ty :=
  match t with
  | AtomicType bt u _ =>
      match bt with TYPE_VOID => t | _ => AtomicType bt u true end
  | EnumType n u _ => EnumType n u true
  | PointerType b u _ => PointerType b u true
  | ReferenceType r => ReferenceType (GetAsConstType r)
  | ArrayType c n => ArrayType (GetAsConstType c) n
  | VectorType b n => VectorType (GetAsConstType b) n
  | StructType n els u _ => StructType n els u true
  | FunctionType _ _ _ _ => t
  end.

Fixpoint GetAsNonConstType (t : Ty) : Ty :=
  match t with
  | AtomicType bt u _ =>
      match bt with TYPE_VOID => t | _ => AtomicType bt u false end
  | EnumType n u _ => EnumType n u false
  | PointerType b u _ => PointerType b u false
  | ReferenceType r => ReferenceType (GetAsNonConstType r)
  | ArrayType c n => ArrayType (GetAsNonConstType c) n
  | VectorType b n => VectorType (GetAsNonConstType b) n
  | StructType n els u _ => StructType n els u false
  | FunctionType _ _ _ _ => t
  end.

Fixpoint GetAsUniformType (t : Ty) : Ty :=
  match t with
  | AtomicType bt _ c =>
      match bt with TYPE_VOID => t | _ => AtomicType bt true c end
  | EnumType n _ c => EnumType n true c
  | PointerType b _ c => PointerType b true c
  | ReferenceType r => ReferenceType (GetAsUniformType r)
  | ArrayType c n => ArrayType (GetAsUniformType c) n
  | VectorType b n => VectorType (GetAsUniformType b) n
  | StructType n els _ c => StructType n els true c
  | FunctionType _ _ _ _ => t
  end.

Fixpoint GetAsVaryingType (t : Ty) : Ty :=
  match t with
  | AtomicType bt _ c =>
      match bt with TYPE_VOID => t | _ => AtomicType bt false c end
  | EnumType n _ c => EnumType n false c
  | PointerType b _ c => PointerType b false c
  | ReferenceType r => ReferenceType (GetAsVaryingType r)
  | ArrayType c n => ArrayType (GetAsVaryingType c) n
  | VectorType b n => VectorType (GetAsVaryingType b) n
  | StructType n els _ c => StructType n els false c
  | FunctionType _ _ _ _ => t
  end.

(** ** Component accessors *)

Definition GetReferenceTarget (t : Ty) : Ty :=
  match t with ReferenceType r => r | _ => t end.

Fixpoint GetBaseType (t : Ty) : Ty :=
  match t with
  | PointerType b _ _ => b
  | ReferenceType r => GetBaseType r
  | ArrayType c _ => GetBaseType c
  | VectorType b _ => b
  | _ => t
  end.

(** [ArrayType::GetElementType] and [VectorType::GetElementType]. *)
Definition GetElementType (t : Ty) : Ty :=
  match t with
  | ArrayType c _ => c
  | VectorType b _ => b
  | _ => t
  end.

Definition GetElementCount (t : Ty) : nat :=
  match t with
  | ArrayType _ n => n
  | VectorType _ n => n
  | StructType _ els _ _ => List.length els
  | _ => 0%nat
  end.

(** [StructType::GetElementType(i)]: a member of a varying struct is
    varying, a member of a const struct is const. *)
Definition StructType_memberType (u c : bool) (t : Ty) : Ty :=
  let t1 := if u then t else GetAsVaryingType t in
  if c then GetAsConstType t1 else t1.

(** ** Structural equality, [Type::Equal] *)

Definition option_eqb {A} (eqb : A -> A -> bool) (a b : option A) : bool :=
  match a, b with
  | None, None => true
  | Some x, Some y => eqb x y
  | _, _ => false
  end.

Fixpoint list_eqb {A} (eqb : A -> A -> bool) (l l' : list A) : bool :=
  match l, l' with
  | [], [] => true
  | x :: r, y :: r' => eqb x y && list_eqb eqb r r'
  | _, _ => false
  end.

Fixpoint Equal (a b : Ty) {struct a} : bool :=
  match a, b with
  | AtomicType bt u c, AtomicType bt' u' c' =>
      BasicType_eqb bt bt' && Bool.eqb u u' && Bool.eqb c c'
  | EnumType n u c, EnumType n' u' c' =>
      String.eqb n n' && Bool.eqb u u' && Bool.eqb c c'
  | PointerType x u c, PointerType x' u' c' =>
      Equal x x' && Bool.eqb u u' && Bool.eqb c c'
  | ReferenceType x, ReferenceType x' => Equal x x'
  | ArrayType x n, ArrayType x' n' => Equal x x' && Nat.eqb n n'
  | VectorType x n, VectorType x' n' => Equal x x' && Nat.eqb n n'
  | StructType n els u c, StructType n' els' u' c' =>
      String.eqb n n'
      && (fix members (l l' : list (string * Ty)) : bool :=
            match l, l' with
            | [], [] => true
            | (m, t) :: r, (m', t') :: r' =>
                String.eqb m m' && Equal t t' && members r r'
            | _, _ => false
            end) els els'
      && Bool.eqb u u' && Bool.eqb c c'
  | FunctionType r ps ds k, FunctionType r' ps' ds' k' =>
      Equal r r'
      && (fix params (l l' : list (option Ty)) : bool :=
            match l, l' with
            | [], [] => true
            | None :: q, None :: q' => params q q'
            | Some t :: q, Some t' :: q' => Equal t t' && params q q'
            | _, _ => false
            end) ps ps'
      && list_eqb (option_eqb Nat.eqb) ds ds'
      && Bool.eqb k k'
  | _, _ => false
  end.

Definition EqualIgnoringConst (a b : Ty) : bool :=
  Equal (GetAsNonConstType a) (GetAsNonConstType b).

(** [PointerType::IsVoidPointer]. *)
Definition IsVoidPointer (t : Ty) : bool :=
  match t with
  | PointerType b _ _ => Equal (GetAsNonConstType b) Atomic.Void
  | _ => false
  end.

(* ================================================================== *)
(** * Diagnostics and the result of a pass *)
(* ================================================================== *)

Definition SourcePos := nat.

(** The diagnostics of the functions embedded below.  The formatted
    text is not part of the model: a message is kept as the format it
    comes from together with the values printed into it. *)
Inductive Message : Set :=
| CantConvertFromVoid (to : Ty) (what : option string)
| CantConvertToVoid (from : Ty) (what : option string)
| CantConvertArrayToPointer (from to : Ty) (what : option string)
| CantConvertVaryingToUniform (from to : Ty) (what : option string)
| CantConvertPointerToNonPointer (from to : Ty) (what : option string)
| CantConvertIncompatiblePointers (from to : Ty) (what : option string)
| CantConvertIncompatibleReferences (from to : Ty) (what : option string)
| CantConvertArrayType (from to : Ty) (what : option string)
| CantConvertVectorSizes (from to : Ty) (what : option string)
| CantConvertStructTypes (from to : Ty) (what : option string)
| CantConvertEnumTypes (from to : Ty) (what : option string)
| ConversionOnlyFromAtomic (from to : Ty) (what : option string)
| ConversionOnlyToAtomic (from to : Ty) (what : option string)
| AmbiguousUseOfOverloaded (name : string)
| MultipleOverloadsMatched (name : string)
| CandidateFunction
| PassedTypes (argTypes : list (option Ty))
| UnableToFindMatchingOverload (name : string) (exactMatchOnly : bool)
| RcpNotFound
| CantAssignFunctionPointer (lhs : Ty)
| UnableToFindOverloadForAssignment
| LeftHandSideCantBeAssigned
| IllegalPointerArithmetic (t : Ty)
| AssignOpIllegalWithPointers (op : string)
| IllegalToAssignToArray (t : Ty)
| CantAssignToConst (t : Ty)
| IllegalAssignDueToElement (structType : Ty) (element : string) (t : Ty)
| IllegalAssignDueToNestedElement (structType initialType : Ty)
                                  (element : string) (t : Ty).

Inductive Diag : Set :=
| Error (pos : SourcePos) (m : Message)
| Warning (pos : SourcePos) (m : Message)
| PerformanceWarning (pos : SourcePos) (m : Message).

(** How a call ends: with a value, in [Assert]/[FATAL] (the compiler
    aborts), or in an operation whose result C++ leaves undefined.
    [OutOfFuel] is not a behaviour of the program: it marks a recursion
    of the model that was cut by its bound. *)
Inductive Outcome (A : Type) : Type :=
| Ok (a : A)
| Fatal
| Undefined
| OutOfFuel.
Arguments Fatal {A}.
Arguments Undefined {A}.
Arguments OutOfFuel {A}.

(** A computation that reports to the diagnostic sink. *)
Definition M (A : Type) : Type := (Outcome A * list Diag)%type.

Definition ret {A} (a : A) : M A := (Ok a, []).

Definition bind {A B} (m : M A) (k : A -> M B) : M B :=
  match m with
  | (Ok a, d) => let (o, d') := k a in (o, d ++ d')
  | (Fatal, d) => (Fatal, d)
  | (Undefined, d) => (Undefined, d)
  | (OutOfFuel, d) => (OutOfFuel, d)
  end.

Declare Scope m_scope.
Delimit Scope m_scope with M.
Notation "x <- c1 ;; c2" := (bind c1 (fun x => c2))
  (at level 61, c1 at next level, right associativity) : m_scope.
Notation "c1 ;; c2" := (bind c1 (fun _ => c2))
  (at level 61, right associativity) : m_scope.
Local Open Scope m_scope.

Definition emit (d : Diag) : M unit := (Ok tt, [d]).
Definition fatal {A} : M A := (Fatal, []).
Definition undefined {A} : M A := (Undefined, []).
Definition out_of_fuel {A} : M A := (OutOfFuel, []).
Definition Assert (b : bool) : M unit := if b then ret tt else fatal.

(** [if (!failureOk) Error(pos, ...)]. *)
Definition error_unless (failureOk : bool) (pos : SourcePos) (m : Message)
  : M unit :=
  if failureOk then ret tt else emit (Error pos m).

Definition outcome {A} (m : M A) : Outcome A := fst m.
Definition diagnostics {A} (m : M A) : list Diag := snd m.

(* ================================================================== *)
(** * Symbols and expressions *)
(* ================================================================== *)

(** Modelled from the spec: [Symbol] is declared in sym.h, which is not
    part of the sources at hand.  A symbol binds a name, a source
    position and a type; the storage class and the storage handle play
    no part in the passes embedded here. *)
Record Symbol : Set := mkSymbol {
  sym_name : string;
  sym_pos : SourcePos;
  sym_type : Ty
}.

(** The fields of a [FunctionSymbolExpr]. *)
Record FunctionSymbol : Set := mkFunctionSymbol {
  fse_name : string;
  candidateFunctions : list Symbol;
  matchingFunc : option Symbol;
  triedToResolve : bool;
  fse_pos : SourcePos
}.

Module UnaryOp.
Inductive Op : Set :=
| PreInc | PreDec | PostInc | PostDec | Negate | LogicalNot | BitNot.
End UnaryOp.

Module BinaryOp.
Inductive Op : Set :=
| Add | Sub | Mul | Div | Mod | Shl | Shr
| Lt | Gt | Le | Ge | Equal | NotEqual
| BitAnd | BitXor | BitOr | LogicalAnd | LogicalOr | Comma.
End BinaryOp.

Module AssignOp.
Inductive Op : Set :=
| Assign | MulAssign | DivAssign | ModAssign | AddAssign | SubAssign
| ShlAssign | ShrAssign | AndAssign | XorAssign | OrAssign.
End AssignOp.

(** The lanes of a [ConstExpr].  The source keeps one array per basic
    type in a union and reads the one named by the expression's type;
    here the lanes carry their kind.  Integer lanes hold the value as
    the integer type of the expression represents it. *)
Inductive ConstVals : Set :=
| BoolVals (v : list bool)
| IntVals (v : list Z)
| FloatVals (v : list spec_float)
| DoubleVals (v : list spec_float).

(** The expression nodes whose methods are embedded.  A field that the
    source tests against [NULL] is an [option].  [OpaqueExpr] stands for
    the node kinds that are not embedded (index, member, select,
    address-of, sizeof, sync): all that is used of them is the type and
    the base symbol they report. *)
Inductive Expr : Set :=
| ConstExpr (type : Ty) (vals : ConstVals) (pos : SourcePos)
| SymbolExpr (symbol : option Symbol) (pos : SourcePos)
| NullPointerExpr (pos : SourcePos)
| UnaryExpr (op : UnaryOp.Op) (expr : option Expr) (pos : SourcePos)
| BinaryExpr (op : BinaryOp.Op) (arg0 arg1 : option Expr) (pos : SourcePos)
| AssignExpr (op : AssignOp.Op) (lvalue rvalue : option Expr)
             (pos : SourcePos)
| TypeCastExpr (type : option Ty) (expr : option Expr)
               (preserveUniformity : bool) (pos : SourcePos)
| ReferenceExpr (expr : option Expr) (pos : SourcePos)
| DereferenceExpr (expr : option Expr) (pos : SourcePos)
| FunctionSymbolExpr (fse : FunctionSymbol)
| FunctionCallExpr (func : option Expr) (args : option Expr)
                   (isLaunch : bool) (launchCountExpr : option Expr)
                   (pos : SourcePos)
| ExprList (exprs : list (option Expr)) (pos : SourcePos)
| OpaqueExpr (type : option Ty) (baseSymbol : option Symbol)
             (pos : SourcePos).

Definition Expr_pos (e : Expr) : SourcePos :=
  match e with
  | ConstExpr _ _ p | SymbolExpr _ p | NullPointerExpr p
  | UnaryExpr _ _ p | BinaryExpr _ _ _ p | AssignExpr _ _ _ p
  | TypeCastExpr _ _ _ p | ReferenceExpr _ p | DereferenceExpr _ p
  | FunctionCallExpr _ _ _ _ p
  | ExprList _ p | OpaqueExpr _ _ p => p
  | FunctionSymbolExpr fse => fse_pos fse
  end.

Definition isConstExpr (e : Expr) : bool :=
  match e with ConstExpr _ _ _ => true | _ => false end.
Definition isNullPointerExpr (e : Expr) : bool :=
  match e with NullPointerExpr _ => true | _ => false end.

(** [lOpString(BinaryExpr::Op)]. *)
Definition lOpString (op : BinaryOp.Op) : string :=
  match op with
  | BinaryOp.Add => "+" | BinaryOp.Sub => "-" | BinaryOp.Mul => "*"
  | BinaryOp.Div => "/" | BinaryOp.Mod => "%"
  | BinaryOp.Shl => "<<" | BinaryOp.Shr => ">>"
  | BinaryOp.Lt => "<" | BinaryOp.Gt => ">"
  | BinaryOp.Le => "<=" | BinaryOp.Ge => ">="
  | BinaryOp.Equal => "==" | BinaryOp.NotEqual => "!="
  | BinaryOp.BitAnd => "&" | BinaryOp.BitXor => "^" | BinaryOp.BitOr => "|"
  | BinaryOp.LogicalAnd => "&&" | BinaryOp.LogicalOr => "||"
  | BinaryOp.Comma => ","
  end.


(** [lMatchingBoolType]: the boolean type of the same shape. *)
Definition lMatchingBoolType (type : Ty) : M Ty :=
  let uniformTest := IsUniformType type in
  let boolBase := if uniformTest then Atomic.UniformBool
                  else Atomic.VaryingBool in
  match type with
  | VectorType _ n => ret (VectorType boolBase n)
  | _ =>
      Assert (isAtomicType type || isPointerType type) ;;
      ret boolBase
  end.

(* ================================================================== *)
(** * Lane values and their C++ conversions *)
(* ================================================================== *)

(** [float] is IEEE binary32 and [double] binary64, as [spec_float]s. *)
Module Float32.
Definition prec := 24.
Definition emax := 128.
Definition ofZ (z : Z) : spec_float := binary_normalize prec emax z 0 false.
Definition one : spec_float := ofZ 1.
Definition add := SFadd prec emax.
Definition sub := SFsub prec emax.
Definition mul := SFmul prec emax.
Definition div := SFdiv prec emax.
End Float32.

Module Float64.
Definition prec := 53.
Definition emax := 1024.
Definition ofZ (z : Z) : spec_float := binary_normalize prec emax z 0 false.
Definition add := SFadd prec emax.
Definition sub := SFsub prec emax.
Definition mul := SFmul prec emax.
Definition div := SFdiv prec emax.
End Float64.

(** Rounding of a floating-point value into the format [prec], [emax]
    (the casts [(float)d] and [(double)f]). *)
Definition SFround (prec emax : Z) (f : spec_float) : spec_float :=
  match f with
  | S754_finite s m e =>
      binary_normalize prec emax (if s then Z.neg m else Z.pos m) e s
  | _ => f
  end.

(** [f != 0] on a floating-point value. *)
Definition SFnonzero (f : spec_float) : bool :=
  negb (SFeqb f (S754_zero false)).

(** The integer part of a floating-point value (rounding toward zero);
    none for an infinity or a NaN. *)
Definition SFtrunc (f : spec_float) : option Z :=
  match f with
  | S754_zero _ => Some 0
  | S754_finite s m e =>
      let a := if Z.leb 0 e then Z.pos m * 2 ^ e
               else Z.pos m / 2 ^ (- e) in
      Some (if s then - a else a)
  | _ => None
  end.

Definition int_bits (bt : BasicType) : Z :=
  match bt with
  | TYPE_INT8 | TYPE_UINT8 => 8
  | TYPE_INT16 | TYPE_UINT16 => 16
  | TYPE_INT32 | TYPE_UINT32 => 32
  | _ => 64
  end.

Definition int_signed (bt : BasicType) : bool :=
  match bt with
  | TYPE_INT8 | TYPE_INT16 | TYPE_INT32 | TYPE_INT64 => true
  | _ => false
  end.

Definition int_min (bt : BasicType) : Z :=
  if int_signed bt then - 2 ^ (int_bits bt - 1) else 0.
Definition int_max (bt : BasicType) : Z :=
  if int_signed bt then 2 ^ (int_bits bt - 1) - 1 else 2 ^ int_bits bt - 1.

(** Conversion of an integer to the integer type [bt]: the value is
    reduced modulo [2^bits] into the range of the type. *)
Definition wrap (bt : BasicType) (z : Z) : Z :=
  let w := 2 ^ int_bits bt in
  if int_signed bt then (z + w / 2) mod w - w / 2 else z mod w.

(** A floating-point value cast to the integer type [bt]; C++ leaves
    the cast undefined when the truncated value does not fit. *)
Definition float_to_int (bt : BasicType) (f : spec_float) : M Z :=
  match SFtrunc f with
  | Some z =>
      if Z.leb (int_min bt) z && Z.leb z (int_max bt) then ret z
      else undefined
  | None => undefined
  end.

Fixpoint mapM {A B} (f : A -> M B) (l : list A) : M (list B) :=
  match l with
  | [] => ret []
  | x :: r => y <- f x ;; ys <- mapM f r ;; ret (y :: ys)
  end.

Record Target : Set := mkTarget {
  vectorWidth : nat;
  is32Bit : bool
}.

Record Opt : Set := mkOpt {
  fastMath : bool;
  force32BitAddressing : bool
}.

(** The process-wide records [g->target] and [g->opt]. *)
Record Globals : Set := mkGlobals {
  target : Target;
  opt : Opt
}.

(* ================================================================== *)
(** * Expression methods *)
(* ================================================================== *)

Section Core.

(** The global records, and [Type::MoreGeneralType] (type.cpp), which
    the expression methods call and whose definition is not part of the
    sources at hand: it is a parameter of the development. *)
Variable g : Globals.
Variable MoreGeneralType :
  Ty -> Ty -> SourcePos -> string -> M (option Ty).

(** ** ConstExpr *)

(** [ConstExpr::getBasicType]. *)
Definition getBasicType (type : Ty) : M BasicType :=
  match type with
  | AtomicType bt _ _ => ret bt
  | _ => Assert (isEnumType type) ;; ret TYPE_UINT32
  end.

(** [ConstExpr::Count]. *)
Definition Count (type : Ty) : nat :=
  if IsVaryingType type then vectorWidth (target g) else 1%nat.

(** The [As...] family: the lanes of the union member named by the
    basic type, converted one by one ([lConvert], with [forceVarying]
    false as in every call below).  Reading a member other than the one
    the lanes were stored in has no defined result. *)
Definition convertLanes {X} (fb : bool -> M X) (fi : BasicType -> Z -> M X)
    (ff fd : spec_float -> M X) (type : Ty) (vals : ConstVals)
  : M (list X) :=
  bt <- getBasicType type ;;
  let n := Count type in
  match bt, vals with
  | TYPE_VOID, _ => fatal
  | TYPE_BOOL, BoolVals v => mapM fb (firstn n v)
  | TYPE_FLOAT, FloatVals v => mapM ff (firstn n v)
  | TYPE_DOUBLE, DoubleVals v => mapM fd (firstn n v)
  | TYPE_BOOL, _ | TYPE_FLOAT, _ | TYPE_DOUBLE, _ => undefined
  | _, IntVals v => mapM (fi bt) (firstn n v)
  | _, _ => undefined
  end.

Definition AsInt (to : BasicType) : Ty -> ConstVals -> M (list Z) :=
  convertLanes (fun b => ret (if b then 1 else 0))
               (fun _ z => ret (wrap to z))
               (float_to_int to) (float_to_int to).

Definition AsInt32 := AsInt TYPE_INT32.
Definition AsUInt32 := AsInt TYPE_UINT32.
Definition AsUInt64 := AsInt TYPE_UINT64.

Definition AsBool : Ty -> ConstVals -> M (list bool) :=
  convertLanes (fun b => ret b)
               (fun _ z => ret (negb (Z.eqb z 0)))
               (fun f => ret (SFnonzero f)) (fun f => ret (SFnonzero f)).

Definition AsFloat : Ty -> ConstVals -> M (list spec_float) :=
  convertLanes (fun b => ret (Float32.ofZ (if b then 1 else 0)))
               (fun _ z => ret (Float32.ofZ z))
               (fun f => ret f)
               (fun d => ret (SFround Float32.prec Float32.emax d)).

Definition AsDouble : Ty -> ConstVals -> M (list spec_float) :=
  convertLanes (fun b => ret (Float64.ofZ (if b then 1 else 0)))
               (fun _ z => ret (Float64.ofZ z))
               (fun f => ret (SFround Float64.prec Float64.emax f))
               (fun d => ret d).

(** The array constructors [ConstExpr(type, T *, pos)]: the type is made
    const and checked against the element type of the array. *)
Definition ConstExpr_bools (t : Ty) (v : list bool) (p : SourcePos)
  : M Expr :=
  let type := GetAsConstType t in
  Assert (Equal type Atomic.UniformConstBool
          || Equal type Atomic.VaryingConstBool) ;;
  ret (ConstExpr type (BoolVals (firstn (Count type) v)) p).

Definition ConstExpr_int32s (t : Ty) (v : list Z) (p : SourcePos)
  : M Expr :=
  let type := GetAsConstType t in
  Assert (Equal type Atomic.UniformConstInt32
          || Equal type Atomic.VaryingConstInt32) ;;
  ret (ConstExpr type (IntVals (firstn (Count type) v)) p).

Definition ConstExpr_uint32s (t : Ty) (v : list Z) (p : SourcePos)
  : M Expr :=
  let type := GetAsConstType t in
  Assert (Equal type Atomic.UniformConstUInt32
          || Equal type Atomic.VaryingConstUInt32
          || isEnumType type) ;;
  ret (ConstExpr type (IntVals (firstn (Count type) v)) p).

Definition ConstExpr_floats (t : Ty) (v : list spec_float) (p : SourcePos)
  : M Expr :=
  let type := GetAsConstType t in
  Assert (Equal type Atomic.UniformConstFloat
          || Equal type Atomic.VaryingConstFloat) ;;
  ret (ConstExpr type (FloatVals (firstn (Count type) v)) p).

Definition ConstExpr_doubles (t : Ty) (v : list spec_float) (p : SourcePos)
  : M Expr :=
  let type := GetAsConstType t in
  Assert (Equal type (AtomicType TYPE_DOUBLE true true)
          || Equal type (AtomicType TYPE_DOUBLE false true)) ;;
  ret (ConstExpr type (DoubleVals (firstn (Count type) v)) p).

(** [ConstExpr(ConstExpr *old, double *v)]: the values are cast back to
    the basic type of the old expression. *)
Definition ConstExpr_fromDoubles (type : Ty) (p : SourcePos)
    (v : list spec_float) : M Expr :=
  basicType <- getBasicType type ;;
  let v := firstn (Count type) v in
  let viaInt (mid : BasicType) :=
    l <- mapM (fun d => z <- float_to_int mid d ;; ret (wrap basicType z)) v ;;
    ret (ConstExpr type (IntVals l) p) in
  match basicType with
  | TYPE_BOOL => ret (ConstExpr type (BoolVals (map SFnonzero v)) p)
  | TYPE_INT8 | TYPE_INT16 | TYPE_INT32 => viaInt TYPE_INT32
  | TYPE_UINT8 | TYPE_UINT16 | TYPE_UINT32 => viaInt TYPE_UINT32
  | TYPE_FLOAT =>
      ret (ConstExpr type
             (FloatVals (map (SFround Float32.prec Float32.emax) v)) p)
  | TYPE_DOUBLE => ret (ConstExpr type (DoubleVals v) p)
  | TYPE_INT64 | TYPE_UINT64 | TYPE_VOID => fatal
  end.

(** ** GetType and GetBaseSymbol *)

(** [lGetFunctionType], on the type its argument reports. *)
Definition lGetFunctionType (type : option Ty) : option Ty :=
  match type with
  | None => None
  | Some t =>
      if isFunctionType t then Some t
      else if isPointerType t then
        (if isFunctionType (GetBaseType t) then Some (GetBaseType t)
         else None)
      else None
  end.

Definition GetReturnType (ft : Ty) : option Ty :=
  match ft with FunctionType r _ _ _ => Some r | _ => None end.

Fixpoint GetType (e : Expr) : M (option Ty) :=
  match e with
  | ConstExpr type _ _ => ret (Some type)
  | SymbolExpr symbol _ => ret (option_map sym_type symbol)
  | NullPointerExpr _ => ret (Some PointerType_Void)
  | UnaryExpr op expr _ =>
      match expr with
      | None => ret None
      | Some x =>
          type <- GetType x ;;
          match type with
          | None => ret None
          | Some type =>
              match op with
              | UnaryOp.LogicalNot =>
                  t <- lMatchingBoolType type ;; ret (Some t)
              | _ => ret (Some type)
              end
          end
      end
  | BinaryExpr op arg0 arg1 pos =>
      match arg0, arg1 with
      | Some a0, Some a1 =>
          type0 <- GetType a0 ;;
          type1 <- GetType a1 ;;
          match type0, type1 with
          | Some type0, Some type1 =>
              Assert (match op with
                      | BinaryOp.Add => negb (isPointerType type1)
                      | _ => true
                      end) ;;
              match op with
              | BinaryOp.Comma => GetType a1
              | _ =>
                  let general :=
                    exprType <- MoreGeneralType type0 type1 pos
                                                (lOpString op) ;;
                    match exprType with
                    | None => fatal
                    | Some exprType =>
                        match op with
                        | BinaryOp.Add | BinaryOp.Sub | BinaryOp.Mul
                        | BinaryOp.Div | BinaryOp.Mod =>
                            ret (Some exprType)
                        | BinaryOp.Lt | BinaryOp.Gt | BinaryOp.Le
                        | BinaryOp.Ge | BinaryOp.Equal | BinaryOp.NotEqual
                        | BinaryOp.LogicalAnd | BinaryOp.LogicalOr =>
                            t <- lMatchingBoolType exprType ;; ret (Some t)
                        | BinaryOp.Shl | BinaryOp.Shr =>
                            ret (Some (if IsVaryingType type1
                                       then GetAsVaryingType type0
                                       else type0))
                        | BinaryOp.BitAnd | BinaryOp.BitXor
                        | BinaryOp.BitOr => ret (Some exprType)
                        | BinaryOp.Comma => fatal
                        end
                    end in
                  if isPointerType type0 then
                    match op with
                    | BinaryOp.Add => ret (Some type0)
                    | BinaryOp.Sub =>
                        if isPointerType type1 then
                          let diffType :=
                            if is32Bit (target g)
                               || force32BitAddressing (opt g)
                            then Atomic.UniformInt32
                            else Atomic.UniformInt64 in
                          ret (Some (if IsVaryingType type0
                                        || IsVaryingType type1
                                     then GetAsVaryingType diffType
                                     else diffType))
                        else ret (Some type0)
                    | BinaryOp.Lt | BinaryOp.Gt | BinaryOp.Le
                    | BinaryOp.Ge | BinaryOp.Equal | BinaryOp.NotEqual =>
                        general
                    | _ => fatal
                    end
                  else general
              end
          | _, _ => ret None
          end
      | _, _ => ret None
      end
  | AssignExpr _ lvalue _ _ =>
      match lvalue with
      | Some l => GetType l
      | None => ret None
      end
  | TypeCastExpr type _ _ _ => ret type
  | ReferenceExpr expr _ =>
      match expr with
      | None => ret None
      | Some x =>
          type <- GetType x ;;
          ret (option_map ReferenceType type)
      end
  | DereferenceExpr expr _ =>
      match expr with
      | None => ret None
      | Some x =>
          exprType <- GetType x ;;
          match exprType with
          | None => ret None
          | Some exprType =>
              if isReferenceType exprType
              then ret (Some (GetReferenceTarget exprType))
              else
                Assert (isPointerType exprType) ;;
                ret (Some (if IsUniformType exprType
                           then GetBaseType exprType
                           else GetAsVaryingType (GetBaseType exprType)))
          end
      end
  | FunctionSymbolExpr fse =>
      match triedToResolve fse, matchingFunc fse with
      | false, None =>
          emit (Error (fse_pos fse) (AmbiguousUseOfOverloaded (fse_name fse))) ;;
          ret None
      | _, Some f => ret (Some (PointerType (sym_type f) true true))
      | _, None => ret None
      end
  | FunctionCallExpr func _ _ _ _ =>
      match func with
      | None => ret None
      | Some f =>
          type <- GetType f ;;
          ret (match lGetFunctionType type with
               | Some ft => GetReturnType ft
               | None => None
               end)
      end
  | ExprList _ _ => fatal
  | OpaqueExpr type _ _ => ret type
  end.


(** ** The implicit conversion engine *)

(** [lIsAllIntZeros]. *)
Definition lIsAllIntZeros (expr : Expr) : M bool :=
  type <- GetType expr ;;
  match type with
  | None => ret false
  | Some type =>
      if negb (IsIntType type) then ret false
      else
        match expr with
        | ConstExpr cty vals _ =>
            lanes <- AsUInt64 cty vals ;;
            ret (forallb (Z.eqb 0) lanes)
        | _ => ret false
        end
  end.

(** The label [typecast_ok]: the expression, when there is one, is
    wrapped in a [TypeCastExpr] to the destination type. *)
Definition typecast_ok (toType : Ty) (expr : option Expr) (pos : SourcePos)
  : M (bool * option Expr) :=
  ret (true,
       option_map (fun e => TypeCastExpr (Some toType) (Some e) false pos)
                  expr).

(** [lDoTypeConv].  [expr] is the expression to rewrite, absent in the
    dry-run mode of [CanConvertTypes]; the result is the returned flag
    and the expression left in [*expr].  The recursion of the source
    (through references, and from a zero constant to the null pointer)
    is bounded by [fuel]. *)
Fixpoint lDoTypeConv (fuel : nat) (fromType toType : option Ty)
    (expr : option Expr) (failureOk : bool) (errorMsgBase : option string)
    (pos : SourcePos) {struct fuel} : M (bool * option Expr) :=
  match fuel with
  | O => out_of_fuel
  | S fuel' =>
  Assert (failureOk || match errorMsgBase with Some _ => true | None => false end) ;;
  match toType, fromType with
  | None, _ | _, None => ret (false, expr)
  | Some toType, Some fromType =>
  let fail (m : Message) : M (bool * option Expr) :=
    error_unless failureOk pos m ;; ret (false, expr) in
  if Equal toType fromType then ret (true, expr)
  else if Equal fromType Atomic.Void then
    fail (CantConvertFromVoid toType errorMsgBase)
  else if Equal toType Atomic.Void then
    fail (CantConvertToVoid fromType errorMsgBase)
  else if isArrayType fromType && isPointerType toType then
    let eltType := GetElementType fromType in
    let eltType := if IsConstType (GetBaseType toType)
                   then GetAsConstType eltType else eltType in
    if Equal toType (PointerType eltType (IsUniformType toType)
                                 (IsConstType toType))
    then typecast_ok toType expr pos
    else fail (CantConvertArrayToPointer fromType toType errorMsgBase)
  else if IsUniformType toType && IsVaryingType fromType then
    fail (CantConvertVaryingToUniform fromType toType errorMsgBase)
  else if isPointerType fromType then
    if isAtomicType toType && IsBoolType toType then
      typecast_ok toType expr pos
    else if isArrayType toType
            && Equal (GetBaseType fromType) (GetElementType toType) then
      typecast_ok toType expr pos
    else if negb (isPointerType toType) then
      fail (CantConvertPointerToNonPointer fromType toType errorMsgBase)
    else if IsVoidPointer toType then typecast_ok toType expr pos
    else if IsVoidPointer fromType
            && match expr with
               | Some e => isNullPointerExpr e
               | None => false
               end then
      typecast_ok toType expr pos
    else if negb (Equal (GetBaseType fromType) (GetBaseType toType))
            && negb (Equal (GetAsConstType (GetBaseType fromType))
                           (GetBaseType toType)) then
      fail (CantConvertIncompatiblePointers fromType toType errorMsgBase)
    else if IsVaryingType toType && IsUniformType fromType then
      typecast_ok toType expr pos
    else ret (true, expr)
  else
    zero <- (if isPointerType toType && isAtomicType fromType
                && IsIntType fromType
             then match expr with
                  | Some e => lIsAllIntZeros e
                  | None => ret false
                  end
             else ret false) ;;
    if zero : bool then
      r <- lDoTypeConv fuel' (Some PointerType_Void) (Some toType)
             (Some (NullPointerExpr pos)) failureOk errorMsgBase pos ;;
      if fst r then ret (true, snd r) else ret (false, expr)
    else if Equal toType (GetAsConstType fromType) then
      typecast_ok toType expr pos
    else if isReferenceType fromType then
      if isReferenceType toType then
        if Equal (GetReferenceTarget toType)
                 (GetAsConstType (GetReferenceTarget fromType)) then
          typecast_ok toType expr pos
        else
          let atFrom := GetReferenceTarget fromType in
          let atTo := GetReferenceTarget toType in
          if isArrayType atFrom && isArrayType atTo
             && Equal (GetElementType atFrom) (GetElementType atTo)
          then typecast_ok toType expr pos
          else fail (CantConvertIncompatibleReferences fromType toType
                                                       errorMsgBase)
      else
        match expr with
        | Some e =>
            let drExpr := DereferenceExpr (Some e) pos in
            t <- GetType drExpr ;;
            r <- lDoTypeConv fuel' t (Some toType) (Some drExpr)
                   failureOk errorMsgBase pos ;;
            if fst r then ret (true, snd r) else ret (false, expr)
        | None =>
            lDoTypeConv fuel' (Some (GetReferenceTarget fromType))
              (Some toType) None failureOk errorMsgBase pos
        end
    else if isReferenceType toType then
      match expr with
      | Some e =>
          let rExpr := ReferenceExpr (Some e) pos in
          t <- GetType rExpr ;;
          r <- lDoTypeConv fuel' t (Some toType) (Some rExpr)
                 failureOk errorMsgBase pos ;;
          if fst r then ret (true, snd r) else ret (false, expr)
      | None =>
          lDoTypeConv fuel' (Some (ReferenceType fromType)) (Some toType)
            None failureOk errorMsgBase pos
      end
    else if Equal toType (GetAsNonConstType fromType) then
      typecast_ok toType expr pos
    else
      let toArray := isArrayType toType in
      let fromArray := isArrayType fromType in
      let toVector := isVectorType toType in
      let fromVector := isVectorType fromType in
      let origFrom := fromType in
      let origTo := toType in
      let fromType := GetReferenceTarget fromType in
      let toType := GetReferenceTarget toType in
      let fail (m : Message) : M (bool * option Expr) :=
        error_unless failureOk pos m ;; ret (false, expr) in
      if toArray && fromArray then
        if Equal (GetElementType origTo) (GetElementType origFrom) then
          Assert (negb (Nat.eqb (GetElementCount origTo)
                                (GetElementCount origFrom))) ;;
          typecast_ok toType expr pos
        else if Equal (GetElementType origTo)
                      (GetAsConstType (GetElementType origFrom)) then
          typecast_ok toType expr pos
        else fail (CantConvertArrayType fromType toType errorMsgBase)
      else if toVector && fromVector then
        if negb (Nat.eqb (GetElementCount origFrom) (GetElementCount origTo))
        then fail (CantConvertVectorSizes fromType toType errorMsgBase)
        else typecast_ok toType expr pos
      else if isStructType origTo && isStructType origFrom then
        if negb (Equal (GetAsConstType (GetAsUniformType origTo))
                       (GetAsConstType (GetAsUniformType origFrom)))
        then fail (CantConvertStructTypes origFrom origTo errorMsgBase)
        else typecast_ok toType expr pos
      else if isEnumType origTo && isEnumType origFrom then
        if negb (EqualIgnoringConst (GetAsUniformType origTo)
                                    (GetAsUniformType origFrom))
        then fail (CantConvertEnumTypes origFrom origTo errorMsgBase)
        else typecast_ok toType expr pos
      else if isEnumType origFrom then
        Assert (isAtomicType origTo || toVector) ;;
        typecast_ok toType expr pos
      else if negb (isAtomicType origFrom) then
        fail (ConversionOnlyFromAtomic fromType toType errorMsgBase)
      else if toVector then typecast_ok toType expr pos
      else if negb (isAtomicType origTo) then
        fail (ConversionOnlyToAtomic fromType toType errorMsgBase)
      else typecast_ok toType expr pos
  end
  end.

Fixpoint refDepth (t : Ty) : nat :=
  match t with
  | ReferenceType r => S (refDepth r)
  | _ => 0%nat
  end.

(** A bound on the depth of the recursion of [lDoTypeConv] from a
    source type: one call per reference layer, one for the type under
    them, one for a zero constant turned into the null pointer. *)
Definition conv_fuel (fromType : option Ty) : nat :=
  match fromType with
  | Some t => (refDepth t + 3)%nat
  | None => 1%nat
  end.

(** [CanConvertTypes]; [errorMsgBase] and [pos] default to [NULL] and
    [SourcePos()]. *)
Definition CanConvertTypes (fromType toType : option Ty)
    (errorMsgBase : option string) (pos : SourcePos) : M bool :=
  r <- lDoTypeConv (conv_fuel fromType) fromType toType None
         (match errorMsgBase with None => true | Some _ => false end)
         errorMsgBase pos ;;
  ret (fst r).

(** [TypeConvertExpr]. *)
Definition TypeConvertExpr (expr : option Expr) (toType : option Ty)
    (errorMsgBase : option string) : M (option Expr) :=
  match expr with
  | None => ret None
  | Some e =>
      fromType <- GetType e ;;
      r <- lDoTypeConv (conv_fuel fromType) fromType toType (Some e) false
             errorMsgBase (Expr_pos e) ;;
      if fst r then ret (snd r) else ret None
  end.

(* ------------------------------------------------------------------ *)
(** ** Overload resolution *)

(** [lExactMatch]. *)
Definition lExactMatch (callType funcArgType : Ty) : M Z :=
  let callType := if negb (isReferenceType callType)
                  then GetAsNonConstType callType else callType in
  let callType := if isReferenceType funcArgType
                     && negb (isReferenceType callType)
                  then ReferenceType callType else callType in
  ret (if Equal callType funcArgType then 0 else -1).

(** [lMatchIgnoringReferences]. *)
Definition lMatchIgnoringReferences (callType funcArgType : Ty) : M Z :=
  prev <- lExactMatch callType funcArgType ;;
  if negb (Z.eqb prev (-1)) then ret prev
  else
    let callType := GetReferenceTarget callType in
    let callType := if IsConstType funcArgType
                    then GetAsConstType callType else callType in
    ret (if Equal callType (GetReferenceTarget funcArgType) then 1 else -1).

(** The table of [lMatchWithTypeWidening], keyed on the basic types of
    the caller's argument and of the function's parameter. *)
Definition widening (callBasic funcBasic : BasicType) : M Z :=
  let callee (b : BasicType) := BasicType_eqb funcBasic b in
  match callBasic with
  | TYPE_BOOL => ret 1
  | TYPE_INT8 | TYPE_UINT8 =>
      ret (if negb (callee TYPE_BOOL) then 1 else -1)
  | TYPE_INT16 | TYPE_UINT16 =>
      ret (if negb (callee TYPE_BOOL) && negb (callee TYPE_INT8)
              && negb (callee TYPE_UINT8) then 1 else -1)
  | TYPE_INT32 | TYPE_UINT32 =>
      ret (if callee TYPE_INT32 || callee TYPE_UINT32 || callee TYPE_INT64
              || callee TYPE_UINT64 then 1 else -1)
  | TYPE_FLOAT => ret (if callee TYPE_DOUBLE then 1 else -1)
  | TYPE_INT64 | TYPE_UINT64 =>
      ret (if callee TYPE_INT64 || callee TYPE_UINT64 then 1 else -1)
  | TYPE_DOUBLE => ret (-1)
  | TYPE_VOID => fatal
  end.

(** [lMatchWithTypeWidening]. *)
Definition lMatchWithTypeWidening (callType funcArgType : Ty) : M Z :=
  prev <- lMatchIgnoringReferences callType funcArgType ;;
  if negb (Z.eqb prev (-1)) then ret prev
  else
    match callType, funcArgType with
    | AtomicType callBasic callUniform _, AtomicType funcBasic funcUniform _ =>
        if negb (Bool.eqb callUniform funcUniform) then ret (-1)
        else widening callBasic funcBasic
    | _, _ => ret (-1)
    end.

(** [lMatchIgnoringUniform]. *)
Definition lMatchIgnoringUniform (callType funcArgType : Ty) : M Z :=
  prev <- lMatchWithTypeWidening callType funcArgType ;;
  if negb (Z.eqb prev (-1)) then ret prev
  else
    let callType := if negb (isReferenceType callType)
                    then GetAsNonConstType callType else callType in
    ret (if IsUniformType callType && IsVaryingType funcArgType
            && Equal (GetAsVaryingType callType) funcArgType
         then 1 else -1).

(** [lMatchWithTypeConvSameVariability]. *)
Definition lMatchWithTypeConvSameVariability (callType funcArgType : Ty)
  : M Z :=
  prev <- lMatchIgnoringUniform callType funcArgType ;;
  if negb (Z.eqb prev (-1)) then ret prev
  else
    can <- CanConvertTypes (Some callType) (Some funcArgType) None 0%nat ;;
    ret (if can && Bool.eqb (IsUniformType callType)
                            (IsUniformType funcArgType)
         then 1 else -1).

(** [lMatchWithTypeConv]. *)
Definition lMatchWithTypeConv (callType funcArgType : Ty) : M Z :=
  prev <- lMatchWithTypeConvSameVariability callType funcArgType ;;
  if negb (Z.eqb prev (-1)) then ret prev
  else
    can <- CanConvertTypes (Some callType) (Some funcArgType) None 0%nat ;;
    ret (if can then 0 else -1).

(** [lPrintOverloadCandidates]. *)
Definition lPrintOverloadCandidates (pos : SourcePos) (funcs : list Symbol)
    (argTypes : list (option Ty)) : M unit :=
  (Ok tt,
   map (fun f => Error (sym_pos f) CandidateFunction) funcs
   ++ [Error pos (PassedTypes argTypes)]).

Definition minCostOf (first : Z) (matches : list (Z * Symbol)) : Z :=
  fold_left (fun m c => Z.min m (fst c)) matches first.

(** [lGetBestMatch]: the match of lowest cost, if it is the only one of
    that cost. *)
Definition lGetBestMatch (matches : list (Z * Symbol)) : M (option Symbol) :=
  match matches with
  | [] => fatal
  | first :: rest =>
      let minCost := minCostOf (fst first) rest in
      let scan :=
        fix scan (l : list (Z * Symbol)) (match_ : option Symbol)
          : option Symbol :=
          match l with
          | [] => match_
          | c :: r =>
              if Z.eqb (fst c) minCost then
                match match_ with
                | Some _ => None
                | None => scan r (Some (snd c))
                end
              else scan r match_
          end in
      ret (scan matches None)
  end.

(** The outcome of the loop over the caller's arguments, for one
    candidate: the whole attempt is given up ([return false]), the loop
    was left early ([break]), or it ran to the end with a cost. *)
Inductive ArgLoop : Set :=
| GiveUp
| Broke
| Matched (cost : Z).

Definition GetParameterType (ft : Ty) (i : nat) : option Ty :=
  match ft with
  | FunctionType _ ps _ _ => nth i ps None
  | _ => None
  end.

Definition GetParameterDefault (ft : Ty) (i : nat) : option DefaultExpr :=
  match ft with
  | FunctionType _ _ ds _ => nth i ds None
  | _ => None
  end.

Definition GetNumParameters (ft : Ty) : nat :=
  match ft with
  | FunctionType _ ps _ _ => List.length ps
  | _ => 0%nat
  end.

Section TryResolve.

Variable matchFunc : Ty -> Ty -> M Z.
Variable argCouldBeNULL : option (list bool).

(** The loop over the caller's arguments from index [i] on. *)
Fixpoint argLoop (ft : Ty) (callTypes : list (option Ty)) (i : nat)
    (cost : Z) : M ArgLoop :=
  match callTypes with
  | [] => ret (Matched cost)
  | callType :: rest =>
      match callType, GetParameterType ft i with
      | Some callType, Some paramType =>
          if isFunctionType callType then ret GiveUp
          else
            argCost <- matchFunc callType paramType ;;
            if Z.eqb argCost (-1) then
              if match argCouldBeNULL with
                 | Some flags => nth i flags false
                 | None => false
                 end && isPointerType paramType
              then argLoop ft rest (S i) (cost + 0)
              else ret Broke
            else argLoop ft rest (S i) (cost + argCost)
      | _, _ => ret GiveUp
      end
  end.

(** The loop over the candidate functions; [None] is the early
    [return false]. *)
Fixpoint candidateLoop (candidates : list Symbol)
    (callTypes : list (option Ty)) (matches : list (Z * Symbol))
  : M (option (list (Z * Symbol))) :=
  match candidates with
  | [] => ret (Some matches)
  | candidateFunction :: rest =>
      let ft := sym_type candidateFunction in
      Assert (isFunctionType ft) ;;
      if Nat.ltb (GetNumParameters ft) (List.length callTypes) then
        candidateLoop rest callTypes matches
      else
        r <- argLoop ft callTypes 0%nat 0 ;;
        match r with
        | GiveUp => ret None
        | Broke => candidateLoop rest callTypes matches
        | Matched cost =>
            let i := List.length callTypes in
            if Nat.eqb i (GetNumParameters ft) then
              candidateLoop rest callTypes
                            (matches ++ [(cost, candidateFunction)])
            else if Nat.ltb i (GetNumParameters ft)
                    && match GetParameterDefault ft i with
                       | Some _ => true
                       | None => false
                       end then
              candidateLoop rest callTypes
                            (matches ++ [(cost, candidateFunction)])
            else candidateLoop rest callTypes matches
        end
  end.

(** [FunctionSymbolExpr::tryResolve]: the flag returned and the
    expression's fields after the call. *)
Definition tryResolve (this : FunctionSymbol) (argPos : SourcePos)
    (callTypes : list (option Ty)) : M (bool * FunctionSymbol) :=
  match candidateFunctions this with
  | [] => undefined
  | front :: _ =>
      let funName := sym_name front in
      r <- candidateLoop (candidateFunctions this) callTypes [] ;;
      match r with
      | None => ret (false, this)
      | Some [] => ret (false, this)
      | Some ((first :: rest) as matches) =>
          best <- lGetBestMatch matches ;;
          let this := mkFunctionSymbol (fse_name this)
                        (candidateFunctions this) best
                        (triedToResolve this) (fse_pos this) in
          match best with
          | Some _ => ret (true, this)
          | None =>
              emit (Error (fse_pos this) (MultipleOverloadsMatched funName)) ;;
              let minCost := minCostOf (fst first) rest in
              let bestMatches :=
                map snd (filter (fun c => Z.eqb (fst c) minCost) matches) in
              lPrintOverloadCandidates argPos bestMatches callTypes ;;
              ret (true, this)
          end
      end
  end.

End TryResolve.

(** The predicates of [ResolveOverloads] in the order they are tried. *)
Definition rankedPredicates : list (Ty -> Ty -> M Z) :=
  [lExactMatch; lMatchIgnoringReferences; lMatchWithTypeWidening;
   lMatchIgnoringUniform; lMatchWithTypeConvSameVariability;
   lMatchWithTypeConv].

(** Trying a list of predicates one after the other, stopping at the
    first for which [tryResolve] answers true. *)
Fixpoint tryTiers (tiers : list (Ty -> Ty -> M Z))
    (argCouldBeNULL : option (list bool)) (this : FunctionSymbol)
    (argPos : SourcePos) (argTypes : list (option Ty))
  : M (bool * FunctionSymbol) :=
  match tiers with
  | [] => ret (false, this)
  | matchFunc :: rest =>
      r <- tryResolve matchFunc argCouldBeNULL this argPos argTypes ;;
      if fst r then ret (true, snd r)
      else tryTiers rest argCouldBeNULL (snd r) argPos argTypes
  end.

(** The report of [ResolveOverloads] when no predicate produced a
    match. *)
Definition reportNoMatch (this : FunctionSymbol) (argPos : SourcePos)
    (argTypes : list (option Ty)) (exactMatchOnly : bool) : list Diag :=
  match candidateFunctions this with
  | [] => []
  | front :: _ =>
      Error (fse_pos this)
            (UnableToFindMatchingOverload (sym_name front) exactMatchOnly)
      :: map (fun f => Error (sym_pos f) CandidateFunction)
             (candidateFunctions this)
      ++ [Error argPos (PassedTypes argTypes)]
  end.

(** [FunctionSymbolExpr::ResolveOverloads]. *)
Definition ResolveOverloads (this : FunctionSymbol) (argPos : SourcePos)
    (argTypes : list (option Ty)) (argCouldBeNULL : option (list bool))
  : M (bool * FunctionSymbol) :=
  let this := mkFunctionSymbol (fse_name this) (candidateFunctions this)
                (matchingFunc this) true (fse_pos this) in
  let exactMatchOnly := String.eqb (substring 0 2 (fse_name this)) "__" in
  let attempt (matchFunc : Ty -> Ty -> M Z) (this : FunctionSymbol) :=
    tryResolve matchFunc argCouldBeNULL this argPos argTypes in
  let failure (this : FunctionSymbol) : M (bool * FunctionSymbol) :=
    match candidateFunctions this with
    | [] => undefined
    | front :: _ =>
        emit (Error (fse_pos this)
                (UnableToFindMatchingOverload (sym_name front)
                                              exactMatchOnly)) ;;
        lPrintOverloadCandidates argPos (candidateFunctions this) argTypes ;;
        ret (false, this)
    end in
  r <- attempt lExactMatch this ;;
  if fst r then ret (true, snd r) else
  if negb exactMatchOnly then
    r <- attempt lMatchIgnoringReferences (snd r) ;;
    if fst r then ret (true, snd r) else
    r <- attempt lMatchWithTypeWidening (snd r) ;;
    if fst r then ret (true, snd r) else
    r <- attempt lMatchIgnoringUniform (snd r) ;;
    if fst r then ret (true, snd r) else
    r <- attempt lMatchWithTypeConvSameVariability (snd r) ;;
    if fst r then ret (true, snd r) else
    r <- attempt lMatchWithTypeConv (snd r) ;;
    if fst r then ret (true, snd r) else
    failure (snd r)
  else failure (snd r).

(* ------------------------------------------------------------------ *)
(** ** Constant folding *)

(** [Type::Equal] accepts null arguments and answers false on them. *)
Definition Equal_opt (a : option Ty) (b : Ty) : bool :=
  match a with
  | Some a => Equal a b
  | None => false
  end.

(** [UnaryExpr::Optimize]. *)
Definition UnaryExpr_Optimize (op : UnaryOp.Op) (expr : option Expr)
    (pos : SourcePos) : M (option Expr) :=
  let this := UnaryExpr op expr pos in
  match expr with
  | Some (ConstExpr type vals cpos) =>
      let isEnumType := isEnumType type in
      let baseType := GetAsUniformType (GetAsNonConstType type) in
      if Equal baseType Atomic.UniformInt8
         || Equal baseType Atomic.UniformUInt8
         || Equal baseType Atomic.UniformInt16
         || Equal baseType Atomic.UniformUInt16
         || Equal baseType Atomic.UniformInt64
         || Equal baseType Atomic.UniformUInt64
      then ret (Some this)
      else
        match op with
        | UnaryOp.PreInc | UnaryOp.PreDec
        | UnaryOp.PostInc | UnaryOp.PostDec => ret (Some this)
        | UnaryOp.Negate =>
            v <- AsDouble type vals ;;
            e <- ConstExpr_fromDoubles type cpos (map SFopp v) ;;
            ret (Some e)
        | UnaryOp.BitNot =>
            if Equal type Atomic.UniformInt32
               || Equal type Atomic.VaryingInt32
               || Equal type Atomic.UniformConstInt32
               || Equal type Atomic.VaryingConstInt32
            then
              v <- AsInt32 type vals ;;
              e <- ConstExpr_int32s type (map Z.lnot v) pos ;;
              ret (Some e)
            else if Equal type Atomic.UniformUInt32
                    || Equal type Atomic.VaryingUInt32
                    || Equal type Atomic.UniformConstUInt32
                    || Equal type Atomic.VaryingConstUInt32
                    || isEnumType
            then
              v <- AsUInt32 type vals ;;
              e <- ConstExpr_uint32s type
                     (map (fun x => wrap TYPE_UINT32 (Z.lnot x)) v) pos ;;
              ret (Some e)
            else fatal
        | UnaryOp.LogicalNot =>
            Assert (Equal type Atomic.UniformBool
                    || Equal type Atomic.VaryingBool
                    || Equal type Atomic.UniformConstBool
                    || Equal type Atomic.VaryingConstBool) ;;
            v <- AsBool type vals ;;
            e <- ConstExpr_bools type (map negb v) pos ;;
            ret (Some e)
        end
  | _ => ret (Some this)
  end.

(** The C++ operators of the [FOLD_OP] tables, per element type.  An
    integer operation wraps into the type; a division or remainder by
    zero, the quotient [INT32_MIN / -1] and a shift by a count outside
    the width have no defined result. *)
Definition int_div (bt : BasicType) (a b : Z) : M Z :=
  if Z.eqb b 0 then undefined
  else if int_signed bt && Z.eqb a (int_min bt) && Z.eqb b (-1)
  then undefined
  else ret (Z.quot a b).

Definition int_mod (bt : BasicType) (a b : Z) : M Z :=
  if Z.eqb b 0 then undefined
  else if int_signed bt && Z.eqb a (int_min bt) && Z.eqb b (-1)
  then undefined
  else ret (Z.rem a b).

Definition int_shift (bt : BasicType) (f : Z -> Z -> Z) (a b : Z) : M Z :=
  if Z.leb 0 b && Z.ltb b (int_bits bt) then ret (wrap bt (f a b))
  else undefined.

(** The table of [lConstFoldBinArithOp<T>] for an integer [T]. *)
Definition arith_int (bt : BasicType) (op : BinaryOp.Op)
  : option (Z -> Z -> M Z) :=
  match op with
  | BinaryOp.Add => Some (fun a b => ret (wrap bt (a + b)))
  | BinaryOp.Sub => Some (fun a b => ret (wrap bt (a - b)))
  | BinaryOp.Mul => Some (fun a b => ret (wrap bt (a * b)))
  | BinaryOp.Div => Some (int_div bt)
  | _ => None
  end.

(** The table of [lConstFoldBinIntOp<T>]. *)
Definition intop_int (bt : BasicType) (op : BinaryOp.Op)
  : option (Z -> Z -> M Z) :=
  match op with
  | BinaryOp.Mod => Some (int_mod bt)
  | BinaryOp.Shl => Some (int_shift bt Z.shiftl)
  | BinaryOp.Shr => Some (int_shift bt Z.shiftr)
  | BinaryOp.BitAnd => Some (fun a b => ret (Z.land a b))
  | BinaryOp.BitXor => Some (fun a b => ret (Z.lxor a b))
  | BinaryOp.BitOr => Some (fun a b => ret (Z.lor a b))
  | _ => None
  end.

(** The table of [lConstFoldBinLogicalOp<T>], from the order and the
    truth test of [T]. *)
Definition logical_of {T} (ltb leb eqb : T -> T -> bool) (nonzero : T -> bool)
    (op : BinaryOp.Op) : option (T -> T -> M bool) :=
  match op with
  | BinaryOp.Lt => Some (fun a b => ret (ltb a b))
  | BinaryOp.Gt => Some (fun a b => ret (ltb b a))
  | BinaryOp.Le => Some (fun a b => ret (leb a b))
  | BinaryOp.Ge => Some (fun a b => ret (leb b a))
  | BinaryOp.Equal => Some (fun a b => ret (eqb a b))
  | BinaryOp.NotEqual => Some (fun a b => ret (negb (eqb a b)))
  | BinaryOp.LogicalAnd => Some (fun a b => ret (nonzero a && nonzero b))
  | BinaryOp.LogicalOr => Some (fun a b => ret (nonzero a || nonzero b))
  | _ => None
  end.

Definition logical_int : BinaryOp.Op -> option (Z -> Z -> M bool) :=
  logical_of Z.ltb Z.leb Z.eqb (fun z => negb (Z.eqb z 0)).

Definition logical_float
  : BinaryOp.Op -> option (spec_float -> spec_float -> M bool) :=
  logical_of SFltb SFleb SFeqb SFnonzero.

Definition bool_ltb (a b : bool) : bool := negb a && b.
Definition bool_leb (a b : bool) : bool := negb a || b.

Definition logical_bool : BinaryOp.Op -> option (bool -> bool -> M bool) :=
  logical_of bool_ltb bool_leb Bool.eqb (fun b => b).

(** The table of [lConstFoldBinArithOp<T>] for a floating-point [T]. *)
Definition arith_float (add sub mul div : spec_float -> spec_float -> spec_float)
    (op : BinaryOp.Op) : option (spec_float -> spec_float -> M spec_float) :=
  match op with
  | BinaryOp.Add => Some (fun a b => ret (add a b))
  | BinaryOp.Sub => Some (fun a b => ret (sub a b))
  | BinaryOp.Mul => Some (fun a b => ret (mul a b))
  | BinaryOp.Div => Some (fun a b => ret (div a b))
  | _ => None
  end.

(** The table of [lConstFoldBoolBinOp]. *)
Definition boolop (op : BinaryOp.Op) : option (bool -> bool -> M bool) :=
  match op with
  | BinaryOp.BitAnd => Some (fun a b => ret (a && b))
  | BinaryOp.BitXor => Some (fun a b => ret (xorb a b))
  | BinaryOp.BitOr => Some (fun a b => ret (a || b))
  | _ => logical_bool op
  end.

(** The loop of [FOLD_OP]: [result[i] = v0[i] op v1[i]] for the first
    [count] lanes. *)
Definition foldLanes {T R} (f : T -> T -> M R) (count : nat)
    (v0 v1 : list T) : M (list R) :=
  mapM (fun p => f (fst p) (snd p)) (firstn count (combine v0 v1)).

(** The common shape of the four folding templates: look the operator
    up in the table (no entry: return [NULL]), fold the lanes, build the
    constant of type [rtype] at the position of the first operand. *)
Definition lConstFold {T R} (table : BinaryOp.Op -> option (T -> T -> M R))
    (construct : Ty -> list R -> SourcePos -> M Expr) (rtype : Ty)
    (op : BinaryOp.Op) (v0 v1 : list T) (carg0type : Ty)
    (carg0pos : SourcePos) : M (option Expr) :=
  match table op with
  | None => ret None
  | Some f =>
      result <- foldLanes f (Count carg0type) v0 v1 ;;
      e <- construct rtype result carg0pos ;;
      ret (Some e)
  end.

(** [lConstFoldBinArithOp<int32_t>] and [<uint32_t>]. *)
Definition lConstFoldBinArithOp_int (bt : BasicType)
    (construct : Ty -> list Z -> SourcePos -> M Expr)
    (op : BinaryOp.Op) (v0 v1 : list Z) (ty : Ty) (p : SourcePos) :=
  lConstFold (arith_int bt) construct ty op v0 v1 ty p.

(** [lConstFoldBinIntOp<int32_t>] and [<uint32_t>]. *)
Definition lConstFoldBinIntOp (bt : BasicType)
    (construct : Ty -> list Z -> SourcePos -> M Expr)
    (op : BinaryOp.Op) (v0 v1 : list Z) (ty : Ty) (p : SourcePos) :=
  lConstFold (intop_int bt) construct ty op v0 v1 ty p.

(** [lConstFoldBinArithOp<float>] and [<double>]. *)
Definition lConstFoldBinArithOp_float
    (add sub mul div : spec_float -> spec_float -> spec_float)
    (construct : Ty -> list spec_float -> SourcePos -> M Expr)
    (op : BinaryOp.Op) (v0 v1 : list spec_float) (ty : Ty) (p : SourcePos) :=
  lConstFold (arith_float add sub mul div) construct ty op v0 v1 ty p.

(** [lConstFoldBinLogicalOp<T>]: the result is a bool of the
    variability of the first operand. *)
Definition lConstFoldBinLogicalOp {T}
    (table : BinaryOp.Op -> option (T -> T -> M bool))
    (op : BinaryOp.Op) (v0 v1 : list T) (ty : Ty) (p : SourcePos) :=
  lConstFold table ConstExpr_bools
    (if IsUniformType ty then Atomic.UniformBool else Atomic.VaryingBool)
    op v0 v1 ty p.

(** [lConstFoldBoolBinOp]. *)
Definition lConstFoldBoolBinOp (op : BinaryOp.Op) (v0 v1 : list bool)
    (ty : Ty) (p : SourcePos) :=
  lConstFold boolop ConstExpr_bools ty op v0 v1 ty p.

(** [ret = f(); if (ret != NULL) return ret; else ...]. *)
Definition orElse (first : M (option Expr)) (next : M (option Expr))
  : M (option Expr) :=
  r <- first ;;
  match r with
  | Some e => ret (Some e)
  | None => next
  end.

(** The drivers [::TypeCheck] and [::Optimize] (ast.cpp) and the lookup
    of a function name in the symbol table (sym.cpp) are not part of
    the sources at hand: they are parameters. *)
Variable TypeCheck : Expr -> M (option Expr).
Variable Optimize : Expr -> M (option Expr).
Variable LookupFunction : string -> list Symbol.

Definition isFloatType4 (t : option Ty) : bool :=
  Equal_opt t Atomic.UniformFloat || Equal_opt t Atomic.VaryingFloat
  || Equal_opt t Atomic.UniformConstFloat
  || Equal_opt t Atomic.VaryingConstFloat.

(** The constructor [FunctionSymbolExpr(name, candidates, pos)]. *)
Definition new_FunctionSymbolExpr (n : string) (candidates : list Symbol)
    (p : SourcePos) : FunctionSymbol :=
  mkFunctionSymbol n candidates
    (match candidates with [c] => Some c | _ => None end) false p.

(** The constant folding proper of [BinaryExpr::Optimize], once both
    operands are known to be constants. *)
Definition BinaryExpr_fold (op : BinaryOp.Op) (arg0 arg1 : Expr)
    (type0 : Ty) (vals0 : ConstVals) (pos0 : SourcePos)
    (type1 : Ty) (vals1 : ConstVals) (pos : SourcePos) : M (option Expr) :=
  let this := BinaryExpr op (Some arg0) (Some arg1) pos in
  Assert (EqualIgnoringConst type0 type1) ;;
  let type := GetAsNonConstType type0 in
  if Equal type Atomic.UniformFloat || Equal type Atomic.VaryingFloat then
    v0 <- AsFloat type0 vals0 ;;
    v1 <- AsFloat type1 vals1 ;;
    orElse (lConstFoldBinArithOp_float Float32.add Float32.sub Float32.mul
              Float32.div ConstExpr_floats op v0 v1 type0 pos0)
      (orElse (lConstFoldBinLogicalOp logical_float op v0 v1 type0 pos0)
         (ret (Some this)))
  else if Equal type Atomic.UniformDouble
          || Equal type Atomic.VaryingDouble then
    v0 <- AsDouble type0 vals0 ;;
    v1 <- AsDouble type1 vals1 ;;
    orElse (lConstFoldBinArithOp_float Float64.add Float64.sub Float64.mul
              Float64.div ConstExpr_doubles op v0 v1 type0 pos0)
      (orElse (lConstFoldBinLogicalOp logical_float op v0 v1 type0 pos0)
         (ret (Some this)))
  else if Equal type Atomic.UniformInt32
          || Equal type Atomic.VaryingInt32 then
    v0 <- AsInt32 type0 vals0 ;;
    v1 <- AsInt32 type1 vals1 ;;
    orElse (lConstFoldBinArithOp_int TYPE_INT32 ConstExpr_int32s op v0 v1
              type0 pos0)
      (orElse (lConstFoldBinIntOp TYPE_INT32 ConstExpr_int32s op v0 v1
                 type0 pos0)
         (orElse (lConstFoldBinLogicalOp logical_int op v0 v1 type0 pos0)
            (ret (Some this))))
  else if Equal type Atomic.UniformUInt32
          || Equal type Atomic.VaryingUInt32 || isEnumType type then
    v0 <- AsUInt32 type0 vals0 ;;
    v1 <- AsUInt32 type1 vals1 ;;
    orElse (lConstFoldBinArithOp_int TYPE_UINT32 ConstExpr_uint32s op v0 v1
              type0 pos0)
      (orElse (lConstFoldBinIntOp TYPE_UINT32 ConstExpr_uint32s op v0 v1
                 type0 pos0)
         (orElse (lConstFoldBinLogicalOp logical_int op v0 v1 type0 pos0)
            (ret (Some this))))
  else if Equal type Atomic.UniformBool
          || Equal type Atomic.VaryingBool then
    v0 <- AsBool type0 vals0 ;;
    v1 <- AsBool type1 vals1 ;;
    orElse (lConstFoldBoolBinOp op v0 v1 type0 pos0)
      (orElse (lConstFoldBinLogicalOp logical_bool op v0 v1 type0 pos0)
         (ret (Some this)))
  else ret (Some this).

(** The part of [BinaryExpr::Optimize] after the fast-math rewrites. *)
Definition BinaryExpr_Optimize_fold (op : BinaryOp.Op) (arg0 arg1 : Expr)
    (pos : SourcePos) : M (option Expr) :=
  match arg0, arg1 with
  | ConstExpr type0 vals0 pos0, ConstExpr type1 vals1 _ =>
      BinaryExpr_fold op arg0 arg1 type0 vals0 pos0 type1 vals1 pos
  | _, _ => ret (Some (BinaryExpr op (Some arg0) (Some arg1) pos))
  end.

(** [x / y -> x * rcp(y)], the second fast-math rewrite; [None] when
    the rewrite does not apply and the function goes on. *)
Definition BinaryExpr_Optimize_rcp (arg0 arg1 : Expr) (pos : SourcePos)
  : M (option (option Expr)) :=
  type1 <- GetType arg1 ;;
  if isFloatType4 type1 then
    let rcpFuns := LookupFunction "rcp" in
    if Nat.ltb 0 (List.length rcpFuns) then
      Assert (Nat.eqb (List.length rcpFuns) 2) ;;
      let rcpSymExpr :=
        FunctionSymbolExpr (new_FunctionSymbolExpr "rcp" rcpFuns pos) in
      let args := ExprList [Some arg1] (Expr_pos arg1) in
      let rcpCall := FunctionCallExpr (Some rcpSymExpr) (Some args) false
                                      None (Expr_pos arg1) in
      rcpCall <- TypeCheck rcpCall ;;
      match rcpCall with
      | None => ret (Some None)
      | Some rcpCall =>
          rcpCall <- Optimize rcpCall ;;
          match rcpCall with
          | None => ret (Some None)
          | Some rcpCall =>
              let e := BinaryExpr BinaryOp.Mul (Some arg0) (Some rcpCall)
                                  pos in
              e <- TypeCheck e ;;
              match e with
              | None => ret (Some None)
              | Some e => r <- Optimize e ;; ret (Some r)
              end
          end
      end
    else
      emit (Warning pos RcpNotFound) ;; ret None
  else ret None.

(** [x / const -> x * (1/const)], the first fast-math rewrite. *)
Definition BinaryExpr_Optimize_inv (arg0 arg1 : Expr) (pos : SourcePos)
  : M (option (option Expr)) :=
  match arg1 with
  | ConstExpr type1 vals1 pos1 =>
      if isFloatType4 (Some type1) then
        inv <- AsFloat type1 vals1 ;;
        einv <- ConstExpr_floats type1 (map (Float32.div Float32.one) inv)
                                 pos1 ;;
        let e := BinaryExpr BinaryOp.Mul (Some arg0) (Some einv) pos in
        e <- TypeCheck e ;;
        match e with
        | None => ret (Some None)
        | Some e => r <- Optimize e ;; ret (Some r)
        end
      else ret None
  | _ => ret None
  end.

Definition isDiv (op : BinaryOp.Op) : bool :=
  match op with BinaryOp.Div => true | _ => false end.

(** [BinaryExpr::Optimize]. *)
Definition BinaryExpr_Optimize (op : BinaryOp.Op) (arg0 arg1 : option Expr)
    (pos : SourcePos) : M (option Expr) :=
  match arg0, arg1 with
  | Some a0, Some a1 =>
      if fastMath (opt g) && isDiv op then
        r <- BinaryExpr_Optimize_inv a0 a1 pos ;;
        match r with
        | Some result => ret result
        | None =>
            r <- BinaryExpr_Optimize_rcp a0 a1 pos ;;
            match r with
            | Some result => ret result
            | None => BinaryExpr_Optimize_fold op a0 a1 pos
            end
        end
      else BinaryExpr_Optimize_fold op a0 a1 pos
  | _, _ => ret None
  end.
(* ------------------------------------------------------------------ *)
(** ** Assignment *)





End Core.

(* ================================================================== *)
(** * The overload resolver in the words of the design document *)
(* ================================================================== *)

(** The definitions of this module follow section 4.5 of the design
    document, not the code: per-argument costs, their sum over the
    candidates of compatible arity, and the choice of the unique
    candidate of minimum cost.  They are compared with [tryResolve]
    below. *)
Module Spec.

(** Arity compatibility: the caller passes no more arguments than the
    function has formals, and the first formal that is not provided
    has a default. *)
Definition arity_compatible (ft : Ty) (n : nat) : bool :=
  Nat.leb n (GetNumParameters ft)
  && (Nat.eqb n (GetNumParameters ft)
      || match GetParameterDefault ft n with
         | Some _ => true
         | None => false
         end).

(** The cost of one argument: that of the predicate, or 0 for a
    null-capable argument against a pointer formal that the predicate
    does not match. *)
Definition arg_cost (cost : Ty -> Ty -> Z) (couldBeNULL : bool)
    (callType paramType : Ty) : option Z :=
  let c := cost callType paramType in
  if Z.eqb c (-1) then
    if couldBeNULL && isPointerType paramType then Some 0 else None
  else Some c.

Definition could_be_null (argCouldBeNULL : option (list bool)) (i : nat)
  : bool :=
  match argCouldBeNULL with
  | Some flags => nth i flags false
  | None => false
  end.

(** The sum of the costs of the arguments from index [i] on. *)
Fixpoint total_cost (cost : Ty -> Ty -> Z)
    (argCouldBeNULL : option (list bool)) (ft : Ty) (i : nat)
    (callTypes : list Ty) : option Z :=
  match callTypes with
  | [] => Some 0
  | callType :: rest =>
      match GetParameterType ft i with
      | None => None
      | Some paramType =>
          match arg_cost cost (could_be_null argCouldBeNULL i)
                         callType paramType,
                total_cost cost argCouldBeNULL ft (S i) rest with
          | Some c, Some cs => Some (c + cs)
          | _, _ => None
          end
      end
  end.

(** The candidates that qualify, each with its cost, in the order of
    the candidate list. *)
Definition qualifying (cost : Ty -> Ty -> Z)
    (argCouldBeNULL : option (list bool)) (callTypes : list Ty)
    (candidates : list Symbol) : list (Z * Symbol) :=
  flat_map
    (fun s =>
       if arity_compatible (sym_type s) (List.length callTypes) then
         match total_cost cost argCouldBeNULL (sym_type s) 0 callTypes with
         | Some c => [(c, s)]
         | None => []
         end
       else [])
    candidates.

Inductive TierResult : Set :=
| NoCandidate
| Bound (s : Symbol)
| Ambiguous (tied : list Symbol).

Definition minimum (first : Z) (rest : list (Z * Symbol)) : Z :=
  fold_right (fun c m => Z.min (fst c) m) first rest.

(** One tier: no candidate qualifies, or the unique candidate of
    minimum cost is bound, or several tie at the minimum. *)
Definition tier (cost : Ty -> Ty -> Z)
    (argCouldBeNULL : option (list bool)) (callTypes : list Ty)
    (candidates : list Symbol) : TierResult :=
  match qualifying cost argCouldBeNULL callTypes candidates with
  | [] => NoCandidate
  | (first :: rest) as q =>
      let lowest := minimum (fst first) rest in
      match filter (fun c => Z.eqb (fst c) lowest) q with
      | [only] => Bound (snd only)
      | tied => Ambiguous (map snd tied)
      end
  end.

(** A candidate list the resolver can work on: not empty, made of
    functions whose parameter types are all known. *)
Definition wf_candidate (s : Symbol) : bool :=
  match sym_type s with
  | FunctionType _ ps _ _ =>
      forallb (fun p => match p with Some _ => true | None => false end) ps
  | _ => false
  end.

Definition wf_candidates (candidates : list Symbol) : bool :=
  match candidates with
  | [] => false
  | _ => forallb wf_candidate candidates
  end.

Definition wf_callTypes (callTypes : list Ty) : bool :=
  forallb (fun t => negb (isFunctionType t)) callTypes.

End Spec.

(** The cost function of [lExactMatch]. *)
Definition exactCost (callType funcArgType : Ty) : Z :=
  let callType := if negb (isReferenceType callType)
                  then GetAsNonConstType callType else callType in
  let callType := if isReferenceType funcArgType
                     && negb (isReferenceType callType)
                  then ReferenceType callType else callType in
  if Equal callType funcArgType then 0 else -1.

(** The first statement of [ResolveOverloads], and its test on the
    name. *)
Definition markTried (this : FunctionSymbol) : FunctionSymbol :=
  mkFunctionSymbol (fse_name this) (candidateFunctions this)
                   (matchingFunc this) true (fse_pos this).

Definition exactMatchOnly (this : FunctionSymbol) : bool :=
  String.eqb (substring 0 2 (fse_name this)) "__".

(** The end of [ResolveOverloads], after the predicates were tried. *)
Definition afterTiers (exact : bool) (argPos : SourcePos)
    (argTypes : list (option Ty)) (r : bool * FunctionSymbol)
  : M (bool * FunctionSymbol) :=
  if fst r then ret (true, snd r)
  else match candidateFunctions (snd r) with
       | [] => undefined
       | _ :: _ =>
           (Ok (false, snd r), reportNoMatch (snd r) argPos argTypes exact)
       end.

(** The fields of [this] with the function bound by a tier. *)
Definition bindTo (this : FunctionSymbol) (m : option Symbol)
  : FunctionSymbol :=
  mkFunctionSymbol (fse_name this) (candidateFunctions this) m
                   (triedToResolve this) (fse_pos this).

(** The diagnostics of an ambiguous tier. *)
Definition reportAmbiguous (this : FunctionSymbol) (argPos : SourcePos)
    (argTypes : list (option Ty)) (tied : list Symbol) : list Diag :=
  Error (fse_pos this)
        (MultipleOverloadsMatched
           (match candidateFunctions this with
            | front :: _ => sym_name front
            | [] => ""
            end))
  :: map (fun f => Error (sym_pos f) CandidateFunction) tied
  ++ [Error argPos (PassedTypes argTypes)].

(** What a tier leaves behind: the flag returned, the binding, the
    diagnostics. *)
Definition tier_outcome (r : Spec.TierResult) (this : FunctionSymbol)
    (argPos : SourcePos) (argTypes : list (option Ty))
  : M (bool * FunctionSymbol) :=
  match r with
  | Spec.NoCandidate => (Ok (false, this), [])
  | Spec.Bound s => (Ok (true, bindTo this (Some s)), [])
  | Spec.Ambiguous tied =>
      (Ok (true, bindTo this None),
       reportAmbiguous this argPos argTypes tied)
  end.

(** The cost a predicate answers with, [-1] standing for no match. *)
Definition costOf (matchFunc : Ty -> Ty -> M Z) (callType paramType : Ty)
  : Z :=
  match fst (matchFunc callType paramType) with
  | Ok z => z
  | _ => -1
  end.

(** The known parameter types of a list of candidates. *)
Definition formals (candidates : list Symbol) : list Ty :=
  flat_map
    (fun s =>
       match sym_type s with
       | FunctionType _ ps _ _ =>
           flat_map (fun p => match p with Some t => [t] | None => [] end) ps
       | _ => []
       end)
    candidates.

(** On the argument types of the call and the parameter types of the
    candidates, the predicate answers with a cost: it does not abort
    and reports nothing. *)
Definition answers (matchFunc : Ty -> Ty -> M Z) (callTypes : list Ty)
    (candidates : list Symbol) : Prop :=
  forall a b, In a callTypes -> In b (formals candidates) ->
              matchFunc a b = ret (costOf matchFunc a b).

(** The resolver of the design document: the tiers are tried in order;
    a tier with a unique candidate of minimum cost binds it, a tier
    with a tie reports the ambiguity and stops, a tier without a
    qualifying candidate hands over to the next; when all tiers are
    exhausted, the failure is reported with the full candidate list. *)
Fixpoint spec_resolve (tiers : list (Ty -> Ty -> Z))
    (argCouldBeNULL : option (list bool)) (callTypes : list Ty)
    (this : FunctionSymbol) (argPos : SourcePos) (exact : bool)
  : M (bool * FunctionSymbol) :=
  match tiers with
  | [] =>
      (Ok (false, this), reportNoMatch this argPos (map Some callTypes) exact)
  | cost :: rest =>
      match Spec.tier cost argCouldBeNULL callTypes
                      (candidateFunctions this) with
      | Spec.NoCandidate =>
          spec_resolve rest argCouldBeNULL callTypes this argPos exact
      | Spec.Bound s => (Ok (true, bindTo this (Some s)), [])
      | Spec.Ambiguous tied =>
          (Ok (true, bindTo this None),
           reportAmbiguous this argPos (map Some callTypes) tied)
      end
  end.

(** The types whose uniform form converts implicitly to the varying
    form: non-void atomic types, enums, pointers, structs, and short
    vectors of an atomic or enum type. *)
Definition broadcastable (t : Ty) : bool :=
  match t with
  | AtomicType bt true _ => negb (BasicType_eqb bt TYPE_VOID)
  | EnumType _ true _ => true
  | PointerType _ true _ => true
  | StructType _ _ true _ => true
  | VectorType (AtomicType bt true _) _ => negb (BasicType_eqb bt TYPE_VOID)
  | VectorType (EnumType _ true _) _ => true
  | _ => false
  end.

Definition isSome {A} (o : option A) : bool :=
  match o with Some _ => true | None => false end.

(** The element type the folder reads the lanes of an integer constant
    at: int32, or uint32 for an unsigned constant and for an enum. *)
Definition intConstType (t : Ty) : option BasicType :=
  match t with
  | AtomicType TYPE_INT32 _ _ => Some TYPE_INT32
  | AtomicType TYPE_UINT32 _ _ => Some TYPE_UINT32
  | EnumType _ _ _ => Some TYPE_UINT32
  | _ => None
  end.

(** The precondition of the C++ operators [/] and [%] on the integer
    type [bt]: the divisor is not zero and, for a signed type, the pair
    is not the most negative value over -1. *)
Definition divisor_ok (bt : BasicType) (a b : Z) : bool :=
  negb (Z.eqb b 0)
  && negb (int_signed bt && Z.eqb a (int_min bt) && Z.eqb b (-1)).

(** The lanes of two integer constants as the folder pairs them. *)
Definition lanePairs (g : Globals) (bt : BasicType) (type0 type1 : Ty)
    (v0 v1 : list Z) : list (Z * Z) :=
  firstn (Count g type0)
         (combine (map (wrap bt) (firstn (Count g type0) v0))
                  (map (wrap bt) (firstn (Count g type1) v1))).

(** The lanes of two boolean constants as the folder pairs them. *)
Definition boolPairs (g : Globals) (type0 type1 : Ty) (v0 v1 : list bool)
  : list (bool * bool) :=
  firstn (Count g type0)
         (combine (firstn (Count g type0) v0) (firstn (Count g type1) v1)).

Definition quotOrRem (op : BinaryOp.Op) : Z -> Z -> Z :=
  match op with BinaryOp.Div => Z.quot | _ => Z.rem end.

(** [&&] and [||] on one lane, and the value of the first operand that
    decides the result by itself: false for [&&], true for [||]. *)
Definition logicalFold (op : BinaryOp.Op) : bool -> bool -> bool :=
  match op with BinaryOp.LogicalAnd => andb | _ => orb end.

Definition decides (op : BinaryOp.Op) (b : bool) : bool :=
  match op with BinaryOp.LogicalAnd => negb b | _ => b end.

(** [::Optimize(::TypeCheck(e))], a null result of the type check being
    handed on. *)
Definition checkedThenOptimized (TypeCheck Optimize : Expr -> M (option Expr))
    (e : Expr) : M (option Expr) :=
  r <- TypeCheck e ;;
  match r with
  | Some e' => Optimize e'
  | None => ret None
  end.

(** The call [rcp(y)] that the fast-math rewrite builds. *)
Definition rcpCallOf (rcpFuns : list Symbol) (y : Expr) (pos : SourcePos)
  : Expr :=
  FunctionCallExpr
    (Some (FunctionSymbolExpr (new_FunctionSymbolExpr "rcp" rcpFuns pos)))
    (Some (ExprList [Some y] (Expr_pos y))) false None (Expr_pos y).

(** [ReachedConstMember s owner name t]: the const members that
    [lCheckForConstStructMember] looks at.  The struct type [s] holds a
    member [name] of the struct [owner] whose type [t] is const, directly
    or inside members that are themselves of struct type, at any depth.
    A member of another type is not entered: a const member of a struct
    that sits in a member of array type is not reached.  Member types
    are taken as [StructType::GetElementType] reports them. *)
Inductive ReachedConstMember : Ty -> Ty -> string -> Ty -> Prop :=
| ReachedConstMember_here (n : string) (els : list (string * Ty)) (u c : bool)
    (name : string) (d : Ty) :
    In (name, d) els ->
    IsConstType (StructType_memberType u c d) = true ->
    ReachedConstMember (StructType n els u c) (StructType n els u c) name
                (StructType_memberType u c d)
| ReachedConstMember_inside (n : string) (els : list (string * Ty)) (u c : bool)
    (m : string) (d owner : Ty) (name : string) (t : Ty) :
    In (m, d) els ->
    ReachedConstMember (StructType_memberType u c d) owner name t ->
    ReachedConstMember (StructType n els u c) owner name t.

(** [ConstMember s owner name t]: the const members in the words of the
    description, "if any member (transitively) is const".  The type [s]
    holds a member [name] of the struct [owner] whose type [t] is const,
    at any depth: directly, inside a member of struct type, or inside
    the elements of a member of array type. *)
Inductive ConstMember : Ty -> Ty -> string -> Ty -> Prop :=
| ConstMember_here (n : string) (els : list (string * Ty)) (u c : bool)
    (name : string) (d : Ty) :
    In (name, d) els ->
    IsConstType (StructType_memberType u c d) = true ->
    ConstMember (StructType n els u c) (StructType n els u c) name
                (StructType_memberType u c d)
| ConstMember_inside (n : string) (els : list (string * Ty)) (u c : bool)
    (m : string) (d owner : Ty) (name : string) (t : Ty) :
    In (m, d) els ->
    ConstMember (StructType_memberType u c d) owner name t ->
    ConstMember (StructType n els u c) owner name t
| ConstMember_element (child : Ty) (k : nat) (owner : Ty) (name : string)
    (t : Ty) :
    ConstMember child owner name t ->
    ConstMember (ArrayType child k) owner name t.









(* ================================================================== *)
(** * Measures and relations used by the further properties *)
(* ================================================================== *)

(** The width in bits of a basic type, signed and unsigned alike.  It
    measures the size of a value, not the range it covers: int32, uint32
    and float are all 32 bits wide. *)
Definition bitWidth (bt : BasicType) : Z :=
  match bt with
  | TYPE_VOID => 0
  | TYPE_BOOL => 1
  | TYPE_INT8 | TYPE_UINT8 => 8
  | TYPE_INT16 | TYPE_UINT16 => 16
  | TYPE_INT32 | TYPE_UINT32 | TYPE_FLOAT => 32
  | TYPE_INT64 | TYPE_UINT64 | TYPE_DOUBLE => 64
  end.

(** The values the integer type [bt] represents. *)
Definition in_range (bt : BasicType) (z : Z) : Prop :=
  int_min bt <= z <= int_max bt.

(** The lanes of a constant of basic type [bt] that hold the truth
    values [l] as one and zero. *)
Definition lanesOfBools (bt : BasicType) (l : list bool) : ConstVals :=
  match bt with
  | TYPE_BOOL => BoolVals l
  | TYPE_FLOAT =>
      FloatVals (map (fun b : bool => Float32.ofZ (if b then 1 else 0)) l)
  | TYPE_DOUBLE =>
      DoubleVals (map (fun b : bool => Float64.ofZ (if b then 1 else 0)) l)
  | _ => IntVals (map (fun b : bool => if b then 1 else 0) l)
  end.

(** An atomic type of basic type void, whatever its flags. *)
Definition isVoidType (t : Ty) : bool :=
  match t with AtomicType TYPE_VOID _ _ => true | _ => false end.

(** Two pointer types of the same variability whose pointee types are
    equal, or equal once the first is made const. *)
Definition pointerCompatible (t to : Ty) : bool :=
  isPointerType t && isPointerType to
  && Bool.eqb (IsUniformType t) (IsUniformType to)
  && (Equal (GetBaseType t) (GetBaseType to)
      || Equal (GetAsConstType (GetBaseType t)) (GetBaseType to)).

(** What the null pointer literal at [pos] becomes when it is converted
    to the pointer type [toType]. *)
Definition nullPointerAs (toType : Ty) (pos : SourcePos) : Expr :=
  if Equal toType PointerType_Void then NullPointerExpr pos
  else TypeCastExpr (Some toType) (Some (NullPointerExpr pos)) false pos.

(** What a call of the conversion engine for the expression [e] and the
    destination [toType] leaves behind: on success no diagnostic and an
    expression of the destination type, or of a pointer type compatible
    with it; on failure the expression as it was and, unless the call is
    a dry run, one error at [pos]. *)
Definition conversionVerdict (g : Globals)
    (MoreGeneralType : Ty -> Ty -> SourcePos -> string -> M (option Ty))
    (toType : Ty) (e : Expr) (failureOk : bool) (pos : SourcePos)
    (ok : bool) (e' : option Expr) (d : list Diag) : Prop :=
  if ok then
    d = []
    /\ exists (x : Expr) (t : Ty),
         e' = Some x
         /\ GetType g MoreGeneralType x = ret (Some t)
         /\ (t = toType \/ pointerCompatible t toType = true)
  else
    e' = Some e
    /\ if failureOk then d = []
       else exists m : Message, d = [Error pos m].

(* ================================================================== *)
(** * Further expression methods *)
(* ================================================================== *)

Section Further.

Variable g : Globals.
Variable MoreGeneralType :
  Ty -> Ty -> SourcePos -> string -> M (option Ty).

(** ** Folding of type casts *)

(** The second loop of [lConvert]: with [forceVarying] a single lane is
    copied to the other lanes of the target vector. *)
Definition forceVaryingLanes {X} (forceVarying : bool) (count : nat)
    (to : list X) : list X :=
  if forceVarying && Nat.eqb count 1 then
    match to with
    | x :: _ => x :: repeat x (pred (vectorWidth (target g)))
    | [] => []
    end
  else to.

(** A member of the [As...] family called with its second argument. *)
Definition withForceVarying {X} (as_ : Ty -> ConstVals -> M (list X))
    (type : Ty) (vals : ConstVals) (forceVarying : bool) : M (list X) :=
  to <- as_ type vals ;;
  ret (forceVaryingLanes forceVarying (Count g type) to).

(** The array constructors of the integer types other than int32 and
    uint32. *)
Definition ConstExpr_ints (bt : BasicType) (t : Ty) (v : list Z)
    (p : SourcePos) : M Expr :=
  let type := GetAsConstType t in
  Assert (Equal type (AtomicType bt true true)
          || Equal type (AtomicType bt false true)) ;;
  ret (ConstExpr type (IntVals (firstn (Count g type) v)) p).

(** [TypeCastExpr::Optimize]. *)
Definition TypeCastExpr_Optimize (type : option Ty) (expr : option Expr)
    (preserveUniformity : bool) (pos : SourcePos) : M (option Expr) :=
  let this := TypeCastExpr type expr preserveUniformity pos in
  match expr with
  | Some (ConstExpr ctype vals _) =>
      match type with
      | None => ret (Some this)
      | Some toType =>
          if negb (isAtomicType toType) && negb (isEnumType toType)
          then ret (Some this)
          else
            let forceVarying := IsVaryingType toType in
            let basicType := match toType with
                             | AtomicType bt _ _ => bt
                             | _ => TYPE_UINT32
                             end in
            let ints (construct : Ty -> list Z -> SourcePos -> M Expr) :=
              v <- withForceVarying (AsInt g basicType) ctype vals
                                    forceVarying ;;
              e <- construct toType v pos ;;
              ret (Some e) in
            match basicType with
            | TYPE_BOOL =>
                v <- withForceVarying (AsBool g) ctype vals forceVarying ;;
                e <- ConstExpr_bools g toType v pos ;;
                ret (Some e)
            | TYPE_INT32 => ints (ConstExpr_int32s g)
            | TYPE_UINT32 => ints (ConstExpr_uint32s g)
            | TYPE_INT8 | TYPE_UINT8 | TYPE_INT16 | TYPE_UINT16
            | TYPE_INT64 | TYPE_UINT64 => ints (ConstExpr_ints basicType)
            | TYPE_FLOAT =>
                v <- withForceVarying (AsFloat g) ctype vals forceVarying ;;
                e <- ConstExpr_floats g toType v pos ;;
                ret (Some e)
            | TYPE_DOUBLE =>
                v <- withForceVarying (AsDouble g) ctype vals forceVarying ;;
                e <- ConstExpr_doubles g toType v pos ;;
                ret (Some e)
            | TYPE_VOID => fatal
            end
      end
  | _ => ret (Some this)
  end.

End Further.
(** A computation returns when its recursion bound was enough: it ends in
    a result, a fatal error or an undefined operation. *)
Definition returns {A} (m : M A) : Prop := outcome m <> OutOfFuel.

(** A function fits a call of [n] arguments when it has [n] parameters,
    or more of them and a default value for the first one not given. *)
Definition fitsCall (f : Symbol) (n : nat) : bool :=
  let ft := sym_type f in
  Nat.eqb n (GetNumParameters ft)
  || (Nat.ltb n (GetNumParameters ft)
      && match GetParameterDefault ft n with
         | Some _ => true
         | None => false
         end).

(** The type of an argument is known and is not a function type. *)
Definition knownArgument (t : option Ty) : bool :=
  match t with
  | Some ty => negb (isFunctionType ty)
  | None => false
  end.

(** What a call resolved with answer true leaves in the expression: the
    candidates and the position as they were, and either a function bound
    that is a candidate fitting the call, all of whose arguments are
    known, or no function and the ambiguity reported. *)
Definition boundTo (this : FunctionSymbol) (argTypes : list (option Ty))
    (this' : FunctionSymbol) (d : list Diag) : Prop :=
  candidateFunctions this' = candidateFunctions this
  /\ fse_pos this' = fse_pos this
  /\ match matchingFunc this' with
     | Some f =>
         In f (candidateFunctions this)
         /\ isFunctionType (sym_type f) = true
         /\ fitsCall f (List.length argTypes) = true
         /\ forallb knownArgument argTypes = true
     | None =>
         exists name,
           In (Error (fse_pos this) (MultipleOverloadsMatched name)) d
     end.

(* ------------------------------------------------------------------ *)
(** ** The type check of unary expressions *)

(** The messages of [UnaryExpr::TypeCheck] that no function above
    reports. *)
Inductive UnaryMessage : Set :=
| CanOnlyIncrementNumericAndPointer (t : Ty)
| IllegalToIncrement (t : Ty)
| NegateNotAllowed (t : Ty)
| BitNotOnlyForIntegers (t : Ty).

(** A diagnostic of the type check: one reported by a function it
    calls, or an error of its own. *)
Inductive CheckDiag : Set :=
| Reported (d : Diag)
| UnaryError (pos : SourcePos) (m : UnaryMessage).

(** A computation that reports diagnostics of the type check. *)
Definition MC (A : Type) : Type := (Outcome A * list CheckDiag)%type.

Definition retC {A} (a : A) : MC A := (Ok a, []).

Definition bindC {A B} (m : MC A) (k : A -> MC B) : MC B :=
  match m with
  | (Ok a, d) => let (o, d') := k a in (o, d ++ d')
  | (Fatal, d) => (Fatal, d)
  | (Undefined, d) => (Undefined, d)
  | (OutOfFuel, d) => (OutOfFuel, d)
  end.

Definition emitC (d : CheckDiag) : MC unit := (Ok tt, [d]).

(** A call of one of the functions above. *)
Definition lift {A} (m : M A) : MC A := (fst m, map Reported (snd m)).

(** The types a [ConstExpr] is built with: its constructors assert an
    atomic type other than void, or an enumeration. *)
Definition constantTyped (e : Expr) : bool :=
  match e with
  | ConstExpr type _ _ =>
      (isAtomicType type && negb (isVoidType type)) || isEnumType type
  | _ => true
  end.

Definition isIncrement (op : UnaryOp.Op) : bool :=
  match op with
  | UnaryOp.PreInc | UnaryOp.PreDec | UnaryOp.PostInc | UnaryOp.PostDec =>
      true
  | _ => false
  end.

Section Checks.

Variable g : Globals.
Variable MoreGeneralType :
  Ty -> Ty -> SourcePos -> string -> M (option Ty).

(** [Type::IsNumericType] (type.cpp) is not part of the sources at hand:
    it is a parameter. *)
Variable IsNumericType : Ty -> bool.

(** [UnaryExpr::TypeCheck]. *)
Definition UnaryExpr_TypeCheck (op : UnaryOp.Op) (expr : option Expr)
    (pos : SourcePos) : MC (option Expr) :=
  match expr with
  | None => retC None
  | Some e =>
      bindC (lift (GetType g MoreGeneralType e)) (fun type =>
      match type with
      | None => retC None
      | Some type =>
          if isIncrement op then
            if IsConstType type then
              bindC (emitC (Reported (Error pos (CantAssignToConst type))))
                    (fun _ => retC None)
            else if IsNumericType type then
              retC (Some (UnaryExpr op (Some e) pos))
            else if negb (isPointerType type) then
              bindC (emitC (UnaryError (Expr_pos e)
                              (CanOnlyIncrementNumericAndPointer type)))
                    (fun _ => retC None)
            else if IsVoidPointer type then
              bindC (emitC (UnaryError (Expr_pos e)
                              (IllegalToIncrement type)))
                    (fun _ => retC None)
            else retC (Some (UnaryExpr op (Some e) pos))
          else
            bindC (if isReferenceType type then
                     let drExpr := DereferenceExpr (Some e) pos in
                     bindC (lift (GetType g MoreGeneralType drExpr))
                           (fun t => retC (drExpr, t))
                   else retC (e, Some type)) (fun r =>
            let e := fst r in
            match snd r with
            | None => (Undefined, [])
            | Some type =>
                match op with
                | UnaryOp.Negate =>
                    if negb (IsNumericType type) then
                      bindC (emitC (UnaryError (Expr_pos e)
                                      (NegateNotAllowed type)))
                            (fun _ => retC None)
                    else retC (Some (UnaryExpr op (Some e) pos))
                | UnaryOp.LogicalNot =>
                    bindC (lift (lMatchingBoolType type)) (fun boolType =>
                    bindC (lift (TypeConvertExpr g MoreGeneralType (Some e)
                                   (Some boolType) (Some "logical not")))
                          (fun c =>
                    match c with
                    | None => retC None
                    | Some x => retC (Some (UnaryExpr op (Some x) pos))
                    end))
                | UnaryOp.BitNot =>
                    if negb (IsIntType type) then
                      bindC (emitC (UnaryError (Expr_pos e)
                                      (BitNotOnlyForIntegers type)))
                            (fun _ => retC None)
                    else retC (Some (UnaryExpr op (Some e) pos))
                | _ => retC (Some (UnaryExpr op (Some e) pos))
                end
            end)
      end)
  end.

End Checks.

(* ================================================================== *)
(** * Concrete inputs *)
(* ================================================================== *)

Module Example.

(** A 64-bit target of width 4, without and with fast-math. *)
Definition g64 : Globals :=
  mkGlobals (mkTarget 4%nat false) (mkOpt false false).
Definition g64fast : Globals :=
  mkGlobals (mkTarget 4%nat false) (mkOpt true false).

(** Stand-ins for the functions that are parameters of the
    development. *)
Definition noGeneralType : Ty -> Ty -> SourcePos -> string -> M (option Ty) :=
  fun _ _ _ _ => ret None.
Definition keep : Expr -> M (option Expr) := fun e => ret (Some e).

Definition varying (bt : BasicType) : Ty := AtomicType bt false false.
Definition uniform (bt : BasicType) : Ty := AtomicType bt true false.

(** A function of one parameter, [int name(param)]. *)
Definition unary (name : string) (pos : SourcePos) (param : Ty) : Symbol :=
  mkSymbol name pos
    (FunctionType (varying TYPE_INT32) [Some param] [None] false).

(** [int f(float); int f(int64);] *)
Definition f_float : Symbol := unary "f" 1%nat (varying TYPE_FLOAT).
Definition f_int64 : Symbol := unary "f" 2%nat (varying TYPE_INT64).
Definition f_int : Symbol := unary "f" 3%nat (varying TYPE_INT32).
Definition call_f : FunctionSymbol :=
  mkFunctionSymbol "f" [f_float; f_int64] None false 10%nat.
Definition call_f_int : FunctionSymbol :=
  mkFunctionSymbol "f" [f_float; f_int] None false 10%nat.

(** Two builtins that both match a single [int] argument exactly:
    [__clamp(int)] and [__clamp(int, int = ...)]. *)
Definition clamp1 : Symbol := unary "__clamp" 1%nat (varying TYPE_INT32).
Definition clamp2 : Symbol :=
  mkSymbol "__clamp" 2%nat
    (FunctionType (varying TYPE_INT32)
       [Some (varying TYPE_INT32); Some (varying TYPE_INT32)]
       [None; Some 7%nat] false).
Definition call_clamp : FunctionSymbol :=
  mkFunctionSymbol "__clamp" [clamp1; clamp2] None false 10%nat.


(** The two overloads of [rcp] of the standard library. *)
Definition rcp_varying : Symbol :=
  mkSymbol "rcp" 30%nat
    (FunctionType (varying TYPE_FLOAT) [Some (varying TYPE_FLOAT)] [None]
                  false).
Definition rcp_uniform : Symbol :=
  mkSymbol "rcp" 31%nat
    (FunctionType (uniform TYPE_FLOAT) [Some (uniform TYPE_FLOAT)] [None]
                  false).
Definition stdlib (name : string) : list Symbol :=
  if String.eqb name "rcp" then [rcp_varying; rcp_uniform] else [].
Definition only_one_rcp (name : string) : list Symbol :=
  if String.eqb name "rcp" then [rcp_varying] else [].
Definition no_stdlib (name : string) : list Symbol := [].

(** Variables [x] and [y] of type varying float, [b] of type uniform
    bool. *)
Definition x : Expr :=
  SymbolExpr (Some (mkSymbol "x" 40%nat (varying TYPE_FLOAT))) 41%nat.
Definition y : Expr :=
  SymbolExpr (Some (mkSymbol "y" 42%nat (varying TYPE_FLOAT))) 43%nat.
Definition b : Expr :=
  SymbolExpr (Some (mkSymbol "b" 44%nat (uniform TYPE_BOOL))) 45%nat.
Definition false_literal : Expr :=
  ConstExpr Atomic.UniformConstBool (BoolVals [false]) 46%nat.

(** The float literals [2.0] and [0.5], and [x / 2.0]'s divisor. *)
Definition two_f : spec_float := S754_finite false 8388608 (-22).
Definition half_f : spec_float := S754_finite false 8388608 (-24).
Definition two_literal : Expr :=
  ConstExpr Atomic.UniformConstFloat (FloatVals [two_f]) 47%nat.

(** The integer literals [7], [2] and [0]. *)
Definition int_literal (n : Z) : Expr :=
  ConstExpr Atomic.UniformConstInt32 (IntVals [n]) 48%nat.

(** [uniform int * uniform p; uniform int * varying q;] *)
Definition p : Expr :=
  SymbolExpr
    (Some (mkSymbol "p" 50%nat (PointerType (uniform TYPE_INT32) true false)))
    51%nat.
Definition q : Expr :=
  SymbolExpr
    (Some (mkSymbol "q" 52%nat
             (PointerType (uniform TYPE_INT32) false false)))
    53%nat.

(** [uniform const int c; varying int v;] *)
Definition c : Expr :=
  SymbolExpr (Some (mkSymbol "c" 54%nat Atomic.UniformConstInt32)) 55%nat.
Definition v : Expr :=
  SymbolExpr (Some (mkSymbol "v" 56%nat (varying TYPE_INT32))) 57%nat.

(** [struct S { const int k; int m; };
     struct Outer { float w; S inner; };] *)
Definition S_members : list (string * Ty) :=
  [("k", Atomic.UniformConstInt32); ("m", uniform TYPE_INT32)].
Definition S : Ty := StructType "S" S_members true false.
Definition Outer_members : list (string * Ty) :=
  [("w", uniform TYPE_FLOAT); ("inner", S)].
Definition Outer : Ty := StructType "Outer" Outer_members true false.

(** [uniform S s, s2; uniform Outer o, o2;] *)
Definition s : Expr := SymbolExpr (Some (mkSymbol "s" 58%nat S)) 59%nat.
Definition o : Expr := SymbolExpr (Some (mkSymbol "o" 62%nat Outer)) 63%nat.

(** [const uniform S cs;] *)
Definition const_S : Ty := StructType "S" S_members true true.
Definition cs : Expr :=
  SymbolExpr (Some (mkSymbol "cs" 71%nat const_S)) 72%nat.

(** [struct Table { S rows[2]; float w; }; uniform Table t, t2;] *)
Definition Table_members : list (string * Ty) :=
  [("rows", ArrayType S 2); ("w", uniform TYPE_FLOAT)].
Definition Table : Ty := StructType "Table" Table_members true false.
Definition t : Expr := SymbolExpr (Some (mkSymbol "t" 66%nat Table)) 67%nat.

(** [enum Colour { ... }; int h(uniform int * uniform);] and the name
    [h] in the call [h(colour)] for a [uniform Colour colour]. *)
Definition Colour : Ty := EnumType "Colour" true false.
Definition h_pointer : Symbol :=
  unary "h" 4%nat (PointerType (uniform TYPE_INT32) true false).
Definition call_h : FunctionSymbol :=
  mkFunctionSymbol "h" [h_pointer] None false 10%nat.

End Example.

(* ================================================================== *)
(** * Properties of the embedding *)
(* ================================================================== *)

Unset Implicit Arguments.

(** * Laws of the diagnostic monad *)

Lemma bind_ret_l {A B} (a : A) (k : A -> M B) : bind (ret a) k = k a.
Proof. unfold bind, ret. destruct (k a) as [o d]. reflexivity. Qed.

Lemma bind_ret_r {A} (m : M A) : bind m (fun a => ret a) = m.
Proof.
  destruct m as [[a| | |] d]; simpl; try reflexivity.
  now rewrite app_nil_r.
Qed.

Lemma bind_assoc {A B C} (m : M A) (k : A -> M B) (h : B -> M C) :
  bind (bind m k) h = bind m (fun a => bind (k a) h).
Proof.
  destruct m as [[a| | |] d]; simpl; try reflexivity.
  destruct (k a) as [[b| | |] d']; simpl; try reflexivity.
  destruct (h b) as [o d'']. now rewrite app_assoc.
Qed.

Lemma bind_Ok {A B} (a : A) (d : list Diag) (k : A -> M B) :
  bind (Ok a, d) k = (fst (k a), d ++ snd (k a)).
Proof. simpl. destruct (k a); reflexivity. Qed.

Lemma bind_Ok_inv {A B} (m : M A) (k : A -> M B) (b : B) (d : list Diag) :
  bind m k = (Ok b, d) ->
  exists a d1 d2, m = (Ok a, d1) /\ k a = (Ok b, d2) /\ d = d1 ++ d2.
Proof.
  destruct m as [[a| | |] d1]; cbn; intros H; try discriminate H.
  destruct (k a) as [o d2] eqn:Ek. inversion H; subst.
  now exists a, d1, d2.
Qed.

(** * The resolver against its description *)

Section Tier.

Variable matchFunc : Ty -> Ty -> M Z.
Variable argCouldBeNULL : option (list bool).

Lemma formals_nth s i p candidates :
  In s candidates -> GetParameterType (sym_type s) i = Some p ->
  In p (formals candidates).
Proof.
  intros Hs Hp. unfold formals. apply in_flat_map. exists s. split; [easy|].
  unfold GetParameterType in Hp. destruct (sym_type s); try discriminate.
  apply in_flat_map. exists (Some p). split; [|now left].
  rewrite <- Hp. apply nth_In.
  destruct (Nat.lt_ge_cases i (List.length paramTypes)) as [H|H]; [easy|].
  rewrite nth_overflow in Hp by assumption. discriminate.
Qed.

Lemma wf_candidate_nth s i :
  Spec.wf_candidate s = true -> (i < GetNumParameters (sym_type s))%nat ->
  exists p, GetParameterType (sym_type s) i = Some p.
Proof.
  unfold Spec.wf_candidate. destruct (sym_type s); try discriminate.
  simpl. intros H Hi. rewrite forallb_forall in H.
  destruct (nth i paramTypes None) eqn:E; [eauto|].
  assert (Hin : In (@None Ty) paramTypes) by (rewrite <- E; now apply nth_In).
  specialize (H _ Hin). discriminate.
Qed.

Lemma argLoop_total_cost candidates s callTypes :
  In s candidates ->
  Spec.wf_candidate s = true ->
  (forall a b, In a callTypes -> In b (formals candidates) ->
               matchFunc a b = ret (costOf matchFunc a b)) ->
  Spec.wf_callTypes callTypes = true ->
  forall i c0,
    (i + List.length callTypes <= GetNumParameters (sym_type s))%nat ->
    argLoop matchFunc argCouldBeNULL (sym_type s) (map Some callTypes) i c0
    = ret (match Spec.total_cost (costOf matchFunc) argCouldBeNULL (sym_type s) i
                                 callTypes with
           | Some c => Matched (c0 + c)
           | None => Broke
           end).
Proof.
  intros Hin Hft. induction callTypes as [|t r IH]; intros Hans Hwf i c0 Hi.
  - simpl. now rewrite Z.add_0_r.
  - simpl in Hwf. apply andb_true_iff in Hwf as [Ht Hr].
    apply negb_true_iff in Ht. simpl in Hi.
    destruct (wf_candidate_nth s i Hft) as [p Hp]; [lia|].
    assert (Hans' : forall a b, In a r -> In b (formals candidates) ->
                         matchFunc a b = ret ((costOf matchFunc) a b))
      by (intros a b Ha; apply Hans; now right).
    cbn [map argLoop Spec.total_cost]. rewrite Hp, Ht.
    rewrite (Hans t p) by (solve [now left | eapply formals_nth; eauto]).
    rewrite bind_ret_l.
    unfold Spec.arg_cost, Spec.could_be_null.
    destruct (Z.eqb ((costOf matchFunc) t p) (-1)) eqn:Ec.
    + destruct (_ && isPointerType p) eqn:En.
      * rewrite IH by (auto; lia).
        destruct (Spec.total_cost _ _ _ _ _); [|reflexivity].
        f_equal. f_equal. lia.
      * reflexivity.
    + rewrite IH by (auto; lia).
      destruct (Spec.total_cost _ _ _ _ _); [|reflexivity].
      f_equal. f_equal. lia.
Qed.

Lemma wf_candidate_function s :
  Spec.wf_candidate s = true -> isFunctionType (sym_type s) = true.
Proof.
  unfold Spec.wf_candidate. now destruct (sym_type s).
Qed.

Lemma candidateLoop_qualifying all callTypes :
  answers matchFunc callTypes all ->
  Spec.wf_callTypes callTypes = true ->
  forall candidates matches,
    incl candidates all ->
    forallb Spec.wf_candidate candidates = true ->
    candidateLoop matchFunc argCouldBeNULL candidates (map Some callTypes)
                  matches
    = ret (Some (matches
                 ++ Spec.qualifying (costOf matchFunc) argCouldBeNULL
                                    callTypes candidates)).
Proof.
  intros Hans Hct.
  induction candidates as [|s r IH]; intros matches Hincl Hwf.
  - simpl. now rewrite app_nil_r.
  - simpl in Hwf. apply andb_true_iff in Hwf as [Hs Hr].
    pose proof (wf_candidate_function s Hs) as Hf.
    assert (Hs_in : In s all) by (apply Hincl; now left).
    assert (Hr_in : incl r all) by (intros x Hx; apply Hincl; now right).
    cbn [candidateLoop]. rewrite Hf. cbn [Assert]. rewrite bind_ret_l.
    rewrite length_map.
    unfold Spec.qualifying. cbn [flat_map].
    fold (Spec.qualifying (costOf matchFunc) argCouldBeNULL callTypes r).
    unfold Spec.arity_compatible.
    destruct (Nat.ltb (GetNumParameters (sym_type s)) (List.length callTypes)) eqn:El.
    + apply Nat.ltb_lt in El.
      replace (Nat.leb (List.length callTypes) (GetNumParameters (sym_type s)))
        with false by (symmetry; apply Nat.leb_gt; lia).
      simpl. now apply IH.
    + apply Nat.ltb_ge in El.
      replace (Nat.leb (List.length callTypes) (GetNumParameters (sym_type s)))
        with true by (symmetry; apply Nat.leb_le; lia).
      rewrite (argLoop_total_cost all) by (auto; simpl; lia).
      rewrite bind_ret_l. cbn [andb].
      destruct (Spec.total_cost (costOf matchFunc) argCouldBeNULL (sym_type s) 0 callTypes)
        as [c|] eqn:Ec.
      * rewrite Z.add_0_l.
        destruct (Nat.eqb (List.length callTypes) (GetNumParameters (sym_type s))) eqn:Ee.
        -- cbn [orb]. rewrite IH by assumption. now rewrite <- app_assoc.
        -- cbn [orb].
           replace (Nat.ltb (List.length callTypes) (GetNumParameters (sym_type s)))
             with true
             by (symmetry; apply Nat.ltb_lt; apply Nat.eqb_neq in Ee; lia).
           cbn [andb].
           destruct (GetParameterDefault (sym_type s) (List.length callTypes)).
           ++ rewrite IH by assumption. now rewrite <- app_assoc.
           ++ now apply IH.
      * destruct (_ || _); now apply IH.
Qed.


Lemma minCostOf_minimum rest : forall first,
  minCostOf first rest = Spec.minimum first rest.
Proof.
  unfold minCostOf, Spec.minimum.
  induction rest as [|c r IH]; intros first; simpl; [reflexivity|].
  rewrite IH. clear IH. revert first.
  induction r as [|c' r IH]; intros first; simpl; [apply Z.min_comm|].
  rewrite IH. lia.
Qed.

Lemma lGetBestMatch_unique first rest :
  lGetBestMatch (first :: rest)
  = ret (match filter (fun c => Z.eqb (fst c) (Spec.minimum (fst first) rest))
                      (first :: rest) with
         | [only] => Some (snd only)
         | _ => None
         end).
Proof.
  unfold lGetBestMatch. rewrite minCostOf_minimum.
  set (lo := Spec.minimum (fst first) rest).
  set (scan := fix scan (l : list (Z * Symbol)) (match_ : option Symbol) :=
                 match l with
                 | [] => match_
                 | c :: r =>
                     if Z.eqb (fst c) lo then
                       match match_ with
                       | Some _ => None
                       | None => scan r (Some (snd c))
                       end
                     else scan r match_
                 end).
  f_equal.
  assert (Hsome : forall l m,
             scan l (Some m)
             = match filter (fun c => Z.eqb (fst c) lo) l with
               | [] => Some m
               | _ => None
               end).
  { induction l as [|c r IH]; intros m; [reflexivity|].
    cbn [scan filter]. destruct (Z.eqb (fst c) lo); [reflexivity|apply IH]. }
  assert (Hnone : forall l,
             scan l None
             = match filter (fun c => Z.eqb (fst c) lo) l with
               | [only] => Some (snd only)
               | _ => None
               end).
  { induction l as [|c r IH]; [reflexivity|].
    cbn [scan filter]. destruct (Z.eqb (fst c) lo).
    - rewrite Hsome. destruct (filter _ r); reflexivity.
    - apply IH. }
  exact (Hnone (first :: rest)).
Qed.

Lemma tryResolve_tier this argPos callTypes :
  answers matchFunc callTypes (candidateFunctions this) ->
  Spec.wf_candidates (candidateFunctions this) = true ->
  Spec.wf_callTypes callTypes = true ->
  tryResolve matchFunc argCouldBeNULL this argPos (map Some callTypes)
  = tier_outcome
      (Spec.tier (costOf matchFunc) argCouldBeNULL callTypes
                 (candidateFunctions this))
      this argPos (map Some callTypes).
Proof.
  intros Hans Hc Ht. unfold tryResolve, Spec.wf_candidates in *.
  destruct (candidateFunctions this) as [|front others] eqn:Ecs;
    [discriminate|].
  rewrite (candidateLoop_qualifying (front :: others))
    by (auto using incl_refl).
  rewrite bind_ret_l. cbn [app]. unfold Spec.tier.
  destruct (Spec.qualifying (costOf matchFunc) argCouldBeNULL callTypes (front :: others))
    as [|first rest] eqn:Eq; [reflexivity|].
  rewrite lGetBestMatch_unique, bind_ret_l, minCostOf_minimum.
  cbv zeta.
  destruct (filter _ (first :: rest)) as [|x [|y tied]] eqn:Ef;
    unfold tier_outcome, reportAmbiguous, bindTo, lPrintOverloadCandidates,
      emit, bind, ret;
    rewrite ?Ecs; cbn [fse_pos]; rewrite ?Ef, ?app_nil_r; reflexivity.
Qed.

End Tier.

Section Cascade.

Variable g : Globals.
Variable MoreGeneralType : Ty -> Ty -> SourcePos -> string -> M (option Ty).

Ltac split_tiers :=
  repeat match goal with
    | |- context [tryResolve ?m ?f ?t ?a ?c] =>
        let b := fresh "b" in
        let s := fresh "s" in
        let d := fresh "d" in
        destruct (tryResolve m f t a c) as [[[b s]| | |] d];
        [destruct b|..]; cbn [bind fst snd ret negb]
    end.

Lemma ResolveOverloads_tryTiers this argPos argTypes flags :
  ResolveOverloads g MoreGeneralType this argPos argTypes flags
  = bind (tryTiers
            (if exactMatchOnly this then [lExactMatch]
             else rankedPredicates g MoreGeneralType)
            flags (markTried this) argPos argTypes)
         (afterTiers (exactMatchOnly this) argPos argTypes).
Proof.
  unfold ResolveOverloads, afterTiers, markTried, exactMatchOnly, reportNoMatch.
  cbn [fse_name].
  destruct (String.eqb (substring 0 2 (fse_name this)) "__");
    unfold rankedPredicates; cbn [tryTiers negb]; split_tiers;
    rewrite ?app_nil_r; try reflexivity.
  all: repeat match goal with
         | |- context [candidateFunctions ?s] =>
             destruct (candidateFunctions s); cbn
         end; rewrite ?app_nil_r, <- ?app_assoc; try reflexivity.
Qed.

End Cascade.

Lemma tryTiers_spec_resolve flags callTypes argPos exact :
  Spec.wf_callTypes callTypes = true ->
  forall tiers this,
    Spec.wf_candidates (candidateFunctions this) = true ->
    Forall (fun m => answers m callTypes (candidateFunctions this)) tiers ->
    bind (tryTiers tiers flags this argPos (map Some callTypes))
         (afterTiers exact argPos (map Some callTypes))
    = spec_resolve (map costOf tiers) flags callTypes this argPos exact.
Proof.
  intros Hct. induction tiers as [|m rest IH]; intros this Hc Hans.
  - cbn [tryTiers map spec_resolve]. rewrite bind_ret_l.
    unfold afterTiers. cbn [fst snd].
    unfold Spec.wf_candidates in Hc.
    destruct (candidateFunctions this); [discriminate|reflexivity].
  - inversion Hans as [|? ? Hm Hrest]; subst.
    cbn [tryTiers map spec_resolve].
    rewrite tryResolve_tier by assumption.
    destruct (Spec.tier (costOf m) flags callTypes (candidateFunctions this));
      unfold tier_outcome.
    + rewrite bind_Ok. cbn [fst snd app]. rewrite <- IH by assumption.
      now destruct (tryTiers rest flags this argPos (map Some callTypes)).
    + reflexivity.
    + cbn. now rewrite !app_nil_r.
Qed.

Lemma lExactMatch_answers callTypes candidates :
  answers lExactMatch callTypes candidates.
Proof. intros a b _ _. reflexivity. Qed.

Lemma costOf_lExactMatch a b : costOf lExactMatch a b = exactCost a b.
Proof. reflexivity. Qed.

Section Resolution.

Variable g : Globals.
Variable MoreGeneralType : Ty -> Ty -> SourcePos -> string -> M (option Ty).

(** X20.  For a call on whose argument and parameter types every
    matching predicate returns an answer, overload resolution is the
    tiered resolver [spec_resolve]: the ranked predicates are tried in
    order; within a tier the per-argument costs are summed over the
    candidates of compatible arity (a null-capable argument against a
    pointer formal costing 0 where the predicate does not match), the
    unique candidate of minimum cost is bound, a tie at the minimum is
    reported as an ambiguity and ends the search, a tier without a
    qualifying candidate hands over to the next, and when all tiers are
    exhausted the failure is reported with the full candidate list. *)
Theorem resolution_follows_ranked_tiers
    (this : FunctionSymbol) (argPos : SourcePos) (callTypes : list Ty)
    (argCouldBeNULL : option (list bool)) :
  exactMatchOnly this = false ->
  Spec.wf_candidates (candidateFunctions this) = true ->
  Spec.wf_callTypes callTypes = true ->
  Forall (fun m => answers m callTypes (candidateFunctions this))
         (rankedPredicates g MoreGeneralType) ->
  ResolveOverloads g MoreGeneralType this argPos (map Some callTypes)
                   argCouldBeNULL
  = spec_resolve (map costOf (rankedPredicates g MoreGeneralType))
                 argCouldBeNULL callTypes (markTried this) argPos false.
Proof.
  intros Hname Hc Hct Hans.
  rewrite ResolveOverloads_tryTiers, Hname.
  now apply tryTiers_spec_resolve.
Qed.


(** C9 (amended).  For a name that starts with two underscores only the
    exact-match predicate is consulted: when no candidate matches
    exactly the failure is reported with the only-considering-exact-
    matches message; when exactly one does it is bound; when several tie
    the ambiguity is reported and the call answers true.  In no case is
    a later tier tried: the result is a function of the exact-match
    costs alone. *)
Theorem C9_builtin_names_exact_match_only
    (this : FunctionSymbol) (argPos : SourcePos) (callTypes : list Ty)
    (argCouldBeNULL : option (list bool)) :
  exactMatchOnly this = true ->
  Spec.wf_candidates (candidateFunctions this) = true ->
  Spec.wf_callTypes callTypes = true ->
  ResolveOverloads g MoreGeneralType this argPos (map Some callTypes)
                   argCouldBeNULL
  = match Spec.tier exactCost argCouldBeNULL callTypes
                    (candidateFunctions this) with
    | Spec.NoCandidate =>
        (Ok (false, markTried this),
         reportNoMatch (markTried this) argPos (map Some callTypes) true)
    | Spec.Bound s => (Ok (true, bindTo (markTried this) (Some s)), [])
    | Spec.Ambiguous tied =>
        (Ok (true, bindTo (markTried this) None),
         reportAmbiguous (markTried this) argPos (map Some callTypes) tied)
    end.
Proof.
  intros Hname Hc Hct.
  rewrite ResolveOverloads_tryTiers, Hname.
  rewrite tryTiers_spec_resolve; try assumption.
  - reflexivity.
  - constructor; [apply lExactMatch_answers|constructor].
Qed.

(** C2 (amended).  In the widening tier an int16 argument matches a
    float parameter of the same variability, at cost 1, as it matches
    an int64 parameter: the table turns away only bool, int8 and uint8
    for a 16-bit caller.  It forbids double to float, and permits the
    change of sign at equal width.  So for the candidates f(float) and
    f(int64) the call f((int16)3) finds a tie: no function is bound and
    the ambiguity is reported with both candidates.  The tie is at cost
    1 in the widening tier when the argument has the variability of the
    parameters; when the argument is uniform and the parameters are
    varying, as for the constant [(int16)3] passed to parameters without
    a qualifier, the widening tier matches neither candidate and the
    tie is at cost 0 in the last tier, that of any conversion. *)
Theorem C2_int16_ties_float_and_int64
    (ua ca up tried : bool) (m : option Symbol)
    (p1 p2 pos argPos : SourcePos) (argCouldBeNULL : option (list bool)) :
  (ua = false -> up = false) ->
  let arg := AtomicType TYPE_INT16 ua ca in
  let float_ := AtomicType TYPE_FLOAT up false in
  let int64_ := AtomicType TYPE_INT64 up false in
  let f1 := Example.unary "f" p1 float_ in
  let f2 := Example.unary "f" p2 int64_ in
  let this := mkFunctionSymbol "f" [f1; f2] m tried pos in
  widening TYPE_INT16 TYPE_FLOAT = ret 1
  /\ widening TYPE_INT16 TYPE_INT64 = ret 1
  /\ widening TYPE_DOUBLE TYPE_FLOAT = ret (-1)
  /\ widening TYPE_INT16 TYPE_UINT16 = ret 1
  /\ widening TYPE_INT32 TYPE_UINT32 = ret 1
  /\ (forall b : BasicType,
        widening TYPE_INT16 b = ret (-1)
        <-> b = TYPE_BOOL \/ b = TYPE_INT8 \/ b = TYPE_UINT8)
  /\ (forall b : BasicType,
        widening TYPE_INT16 b = ret 1
        <-> ~ (b = TYPE_BOOL \/ b = TYPE_INT8 \/ b = TYPE_UINT8))
  /\ (if Bool.eqb ua up then
        lMatchIgnoringReferences arg float_ = ret (-1)
        /\ lMatchIgnoringReferences arg int64_ = ret (-1)
        /\ lMatchWithTypeWidening arg float_ = ret 1
        /\ lMatchWithTypeWidening arg int64_ = ret 1
      else
        lMatchWithTypeConvSameVariability g MoreGeneralType arg float_
        = ret (-1)
        /\ lMatchWithTypeConvSameVariability g MoreGeneralType arg int64_
           = ret (-1)
        /\ lMatchWithTypeConv g MoreGeneralType arg float_ = ret 0
        /\ lMatchWithTypeConv g MoreGeneralType arg int64_ = ret 0)
  /\ ResolveOverloads g MoreGeneralType this argPos [Some arg] argCouldBeNULL
     = (Ok (true, bindTo (markTried this) None),
        reportAmbiguous this argPos [Some arg] [f1; f2]).
Proof.
  intros Hv arg float_ int64_ f1 f2 this.
  assert (up = false \/ ua = true) as Hcases
    by (destruct ua; [now right|left; now apply Hv]).
  clear Hv.
  do 5 (split; [reflexivity|]).
  split; [|split; [|split]].
  - intros b; destruct b; split; intros H;
      first [ reflexivity | discriminate H | now auto
            | destruct H as [H|[H|H]]; discriminate H ].
  - intros b; destruct b; split; intros H;
      first [ reflexivity | discriminate H
            | intros [H'|[H'|H']]; discriminate H'
            | exfalso; apply H; now auto ].
  - destruct ua, ca, up;
      first [ repeat split; reflexivity
            | exfalso; destruct Hcases; discriminate ].
  - rewrite ResolveOverloads_tryTiers.
    destruct argCouldBeNULL as [[|[] flags]|], ua, ca, up;
      first [ reflexivity | exfalso; destruct Hcases; discriminate ].
Qed.

End Resolution.

(** The call of the scenario of C2, [f((int16)3)] with the uniform
    constant as argument and varying parameters: f(int64) is not bound,
    both candidates match and the ambiguity is reported.  The same
    holds for a varying int16 argument, where both candidates match at
    cost 1 in the widening tier. *)
Lemma C2_counterexample :
  let r := ResolveOverloads Example.g64 Example.noGeneralType Example.call_f
             20%nat [Some (AtomicType TYPE_INT16 true true)] (Some [false]) in
  outcome r = Ok (true, bindTo (markTried Example.call_f) None)
  /\ matchingFunc (bindTo (markTried Example.call_f) None)
     <> Some Example.f_int64
  /\ In (Error 10%nat (MultipleOverloadsMatched "f")) (diagnostics r)
  /\ lMatchWithTypeWidening (Example.varying TYPE_INT16)
                            (Example.varying TYPE_FLOAT) = ret 1
  /\ outcome (ResolveOverloads Example.g64 Example.noGeneralType
                Example.call_f 20%nat
                [Some (Example.varying TYPE_INT16)] (Some [false]))
     = Ok (true, bindTo (markTried Example.call_f) None).
Proof.
  cbv zeta. repeat split; try reflexivity.
  - discriminate.
  - now left.
Qed.

(** The call [f((int16)3)] as the source has it, the argument a uniform
    constant and the parameters varying. *)
Lemma C2_witness :
  ResolveOverloads Example.g64 Example.noGeneralType Example.call_f 20%nat
    [Some (AtomicType TYPE_INT16 true true)] (Some [false])
  = (Ok (true, bindTo (markTried Example.call_f) None),
     reportAmbiguous Example.call_f 20%nat
       [Some (AtomicType TYPE_INT16 true true)]
       [Example.f_float; Example.f_int64]).
Proof.
  refine (proj2 (proj2 (proj2 (proj2 (proj2 (proj2 (proj2 (proj2
            (C2_int16_ties_float_and_int64 Example.g64 Example.noGeneralType
               true true false false None 1%nat 2%nat 10%nat 20%nat
               (Some [false]) _))))))))).
  intros H. discriminate H.
Defined.

(** C1.  The call [h(colour)] of a function [h(uniform int * uniform)]
    with an argument of an enum type does not end in the report that no
    overload matches.  No predicate up to the fourth matches; the fifth
    asks [CanConvertTypes] for a conversion from the enum type to the
    pointer type, and [lDoTypeConv] stops on its assertion that an enum
    converts to an atomic or a vector type. *)
Lemma C1_enum_argument_stops_resolution :
  let formal := PointerType (Example.uniform TYPE_INT32) true false in
  lMatchIgnoringUniform Example.Colour formal = ret (-1)
  /\ CanConvertTypes Example.g64 Example.noGeneralType (Some Example.Colour)
       (Some formal) None 0%nat
     = (Fatal, [])
  /\ ResolveOverloads Example.g64 Example.noGeneralType Example.call_h
       20%nat [Some Example.Colour] None
     = (Fatal, []).
Proof. cbv zeta. repeat split. Qed.

Lemma resolution_follows_ranked_tiers_witness :
  ResolveOverloads Example.g64 Example.noGeneralType Example.call_f_int
                   20%nat (map Some [Example.varying TYPE_INT32])
                   (Some [false])
  = spec_resolve
      (map costOf (rankedPredicates Example.g64 Example.noGeneralType))
      (Some [false]) [Example.varying TYPE_INT32]
      (markTried Example.call_f_int) 20%nat false.
Proof.
  apply (resolution_follows_ranked_tiers Example.g64 Example.noGeneralType
           Example.call_f_int 20%nat [Example.varying TYPE_INT32]
           (Some [false])).
  - reflexivity.
  - reflexivity.
  - reflexivity.
  - repeat constructor; intros a b [<-|[]] [<-|[<-|[]]]; reflexivity.
Defined.

Lemma C9_witness :
  ResolveOverloads Example.g64 Example.noGeneralType Example.call_clamp
                   20%nat (map Some [Example.varying TYPE_FLOAT])
                   (Some [false])
  = (Ok (false, markTried Example.call_clamp),
     reportNoMatch (markTried Example.call_clamp) 20%nat
                   (map Some [Example.varying TYPE_FLOAT]) true).
Proof.
  apply (C9_builtin_names_exact_match_only Example.g64 Example.noGeneralType
           Example.call_clamp 20%nat [Example.varying TYPE_FLOAT]
           (Some [false])); reflexivity.
Defined.

(** Two builtins tie under the exact-match predicate: the call answers
    true and reports the ambiguity, not the failure. *)
Lemma C9_counterexample :
  let r := ResolveOverloads Example.g64 Example.noGeneralType
             Example.call_clamp 20%nat [Some (Example.varying TYPE_INT32)]
             (Some [false]) in
  exactMatchOnly Example.call_clamp = true
  /\ Spec.tier exactCost (Some [false]) [Example.varying TYPE_INT32]
                [Example.clamp1; Example.clamp2]
     = Spec.Ambiguous [Example.clamp1; Example.clamp2]
  /\ outcome r = Ok (true, bindTo (markTried Example.call_clamp) None)
  /\ ~ In (Error 10%nat (UnableToFindMatchingOverload "__clamp" true))
          (diagnostics r).
Proof.
  cbv zeta. repeat split; try reflexivity.
  vm_compute. intros [H|[H|[H|[H|[]]]]]; discriminate.
Qed.

(** * Structural equality of types *)

(** Induction on a type that reaches the types nested in the member
    list of a struct and in the parameter list of a function. *)
Lemma Ty_nested_ind (P : Ty -> Prop) :
  (forall bt u c, P (AtomicType bt u c)) ->
  (forall n u c, P (EnumType n u c)) ->
  (forall b u c, P b -> P (PointerType b u c)) ->
  (forall r, P r -> P (ReferenceType r)) ->
  (forall c n, P c -> P (ArrayType c n)) ->
  (forall b n, P b -> P (VectorType b n)) ->
  (forall n els u c,
      Forall (fun m => P (snd m)) els -> P (StructType n els u c)) ->
  (forall r ps ds k,
      P r ->
      Forall (fun p => match p with Some t => P t | None => True end) ps ->
      P (FunctionType r ps ds k)) ->
  forall t, P t.
Proof.
  intros HA HE HP HR HAr HV HS HF.
  fix IH 1. intros [bt u c|n u c|b u c|r|c n|b n|n els u c|r ps ds k].
  - apply HA.
  - apply HE.
  - apply HP, IH.
  - apply HR, IH.
  - apply HAr, IH.
  - apply HV, IH.
  - apply HS. induction els as [|[m t] els IHels];
      [constructor|constructor; [apply IH|exact IHels]].
  - apply HF; [apply IH|].
    induction ps as [|[t|] ps IHps];
      [constructor|constructor; [apply IH|exact IHps]
      |constructor; [exact I|exact IHps]].
Qed.

Lemma BasicType_eqb_refl bt : BasicType_eqb bt bt = true.
Proof. now destruct bt. Qed.

Lemma BasicType_eqb_eq a b : BasicType_eqb a b = true -> a = b.
Proof. destruct a, b; simpl; congruence. Qed.

Lemma Equal_refl x : Equal x x = true.
Proof.
  induction x using Ty_nested_ind; cbn [Equal];
    rewrite ?BasicType_eqb_refl, ?String.eqb_refl, ?Bool.eqb_reflx,
      ?Nat.eqb_refl, ?IHx; cbn [andb]; try reflexivity.
  - induction H as [|[m t] els Ht _ IH]; [reflexivity|].
    cbn [snd] in Ht. rewrite String.eqb_refl, Ht. exact IH.
  - rewrite andb_true_r.
    apply andb_true_iff. split.
    + induction H as [|[t|] ps Ht _ IH]; cbn [andb]; try assumption;
        [reflexivity|]. rewrite Ht. exact IH.
    + clear. induction ds as [|[d|] ds IH]; cbn; rewrite ?Nat.eqb_refl;
        auto.
Qed.

(** Equal types have the same variability. *)
Lemma Equal_IsUniformType a : forall b,
  Equal a b = true -> IsUniformType a = IsUniformType b.
Proof.
  induction a; intros [] H; cbn [Equal] in H; try discriminate;
    cbn [IsUniformType]; try reflexivity;
    repeat match type of H with
      | (_ && _) = true => apply andb_true_iff in H as [H ?]
      end;
    try (apply Bool.eqb_prop; assumption); auto.
Qed.

Lemma varying_not_Equal_uniform a b :
  IsVaryingType a = true -> IsUniformType b = true -> Equal a b = false.
Proof.
  unfold IsVaryingType. intros Ha Hb.
  destruct (Equal a b) eqn:E; [|reflexivity].
  apply Equal_IsUniformType in E. rewrite E, Hb in Ha. discriminate.
Qed.

Lemma uniform_not_Equal_varying a b :
  IsUniformType a = true -> IsVaryingType b = true -> Equal a b = false.
Proof.
  unfold IsVaryingType. intros Ha Hb.
  destruct (Equal a b) eqn:E; [|reflexivity].
  apply Equal_IsUniformType in E. rewrite <- E, Ha in Hb. discriminate.
Qed.

Section Conversion.

Variable g : Globals.
Variable MoreGeneralType : Ty -> Ty -> SourcePos -> string -> M (option Ty).

Lemma varying_uniform_rejected (fuel : nat) (fromType toType : Ty)
    (expr : option Expr) (failureOk : bool) (what : option string)
    (pos : SourcePos) :
  IsUniformType toType = true ->
  IsVaryingType fromType = true ->
  Equal toType Atomic.Void = false ->
  isArrayType fromType && isPointerType toType = false ->
  failureOk || isSome what = true ->
  lDoTypeConv g MoreGeneralType (S fuel) (Some fromType) (Some toType) expr
              failureOk what pos
  = (Ok (false, expr),
     if failureOk then []
     else [Error pos (CantConvertVaryingToUniform fromType toType what)]).
Proof.
  intros Hto Hfrom Hvoid Harr Hmsg.
  cbn [lDoTypeConv]. unfold isSome in Hmsg. rewrite Hmsg.
  cbn [Assert]. rewrite bind_ret_l.
  rewrite (uniform_not_Equal_varying _ _ Hto Hfrom).
  rewrite (varying_not_Equal_uniform fromType Atomic.Void Hfrom eq_refl).
  rewrite Hvoid, Harr, Hto, Hfrom. cbn [andb].
  unfold error_unless. destruct failureOk; reflexivity.
Qed.



Lemma Equal_struct_variability n els c c' :
  Equal (StructType n els false c) (StructType n els true c') = false.
Proof. cbn [Equal]. now rewrite andb_false_r. Qed.

Lemma Equal_struct_atomic n els u c t :
  isStructType t = false ->
  Equal (StructType n els u c) t = false /\ Equal t (StructType n els u c) = false.
Proof. now destruct t. Qed.

Ltac conv_step :=
  rewrite ?Equal_refl, ?BasicType_eqb_refl, ?String.eqb_refl,
    ?Nat.eqb_refl, ?Bool.eqb_reflx, ?andb_false_r, ?andb_true_r,
    ?andb_false_l, ?bind_ret_l;
  cbn [andb orb negb Bool.eqb fst snd].

Lemma uniform_broadcast (fuel : nat) (T : Ty) (expr : option Expr)
    (failureOk : bool) (what : option string) (pos : SourcePos) :
  broadcastable T = true ->
  failureOk || isSome what = true ->
  lDoTypeConv g MoreGeneralType (S fuel) (Some T)
              (Some (GetAsVaryingType T)) expr failureOk what pos
  = typecast_ok (GetAsVaryingType T) expr pos.
Proof.
  intros HT Hmsg. unfold isSome in Hmsg.
  cbn [lDoTypeConv]. rewrite Hmsg. cbn [Assert]. rewrite bind_ret_l.
  destruct T as [bt [] c|n [] c|b [] c| | |[bt [] c|n [] c| | | | | | ] k
                |n els [] c| ];
    try discriminate HT.
  - destruct bt; try discriminate HT; destruct c; cbn; conv_step;
      reflexivity.
  - destruct c; cbn; repeat conv_step; reflexivity.
  - cbn. repeat conv_step.
    destruct (Equal (GetAsNonConstType b) Atomic.Void) eqn:Ev;
      [reflexivity|].
    destruct c; cbn; repeat conv_step; reflexivity.
  - destruct bt; try discriminate HT; destruct c; cbn; repeat conv_step;
      reflexivity.
  - destruct c; cbn; repeat conv_step; reflexivity.
  - cbn -[Equal].
    rewrite !Equal_struct_variability.
    rewrite !(proj1 (Equal_struct_atomic n els _ _ Atomic.Void eq_refl)).
    rewrite Equal_refl. cbn. repeat conv_step. reflexivity.
Qed.


(** C3 (amended).  When the destination is uniform and the source is
    varying, the destination is not void and the pair is not an array
    decaying to a pointer, the conversion engine answers false, leaves
    the expression as it is and, unless it runs as a dry run, emits the
    varying-to-uniform error and nothing else.  In the reverse
    direction, the uniform form of a non-void atomic, enum, pointer,
    struct or short-vector type converts to its varying form: the
    engine answers true, emits nothing and wraps the expression, when
    there is one, in a TypeCast to the varying type. *)
Theorem C3_varying_to_uniform_rejected_uniform_broadcast
    (fuel : nat) (fromType toType T : Ty) (expr : option Expr)
    (failureOk : bool) (what : option string) (pos : SourcePos) :
  IsUniformType toType = true ->
  IsVaryingType fromType = true ->
  Equal toType Atomic.Void = false ->
  isArrayType fromType && isPointerType toType = false ->
  broadcastable T = true ->
  failureOk || isSome what = true ->
  lDoTypeConv g MoreGeneralType (S fuel) (Some fromType) (Some toType) expr
              failureOk what pos
  = (Ok (false, expr),
     if failureOk then []
     else [Error pos (CantConvertVaryingToUniform fromType toType what)])
  /\ lDoTypeConv g MoreGeneralType (S fuel) (Some T)
                 (Some (GetAsVaryingType T)) expr failureOk what pos
     = (Ok (true,
            option_map
              (fun e => TypeCastExpr (Some (GetAsVaryingType T)) (Some e)
                                     false pos) expr),
        []).
Proof.
  intros Hto Hfrom Hvoid Harr HT Hmsg. split.
  - now apply varying_uniform_rejected.
  - now apply uniform_broadcast.
Qed.

End Conversion.

Lemma C3_witness :
  let e := OpaqueExpr (Some (Example.varying TYPE_INT32)) None 5%nat in
  lDoTypeConv Example.g64 Example.noGeneralType 3
              (Some (Example.varying TYPE_INT32))
              (Some (Example.uniform TYPE_INT32)) (Some e) false
              (Some "initializer") 5%nat
  = (Ok (false, Some e),
     [Error 5%nat
        (CantConvertVaryingToUniform (Example.varying TYPE_INT32)
           (Example.uniform TYPE_INT32) (Some "initializer"))])
  /\ lDoTypeConv Example.g64 Example.noGeneralType 3
                 (Some (Example.uniform TYPE_INT32))
                 (Some (GetAsVaryingType (Example.uniform TYPE_INT32)))
                 (Some e) false (Some "initializer") 5%nat
     = (Ok (true,
            Some (TypeCastExpr (Some (Example.varying TYPE_INT32)) (Some e)
                               false 5%nat)),
        []).
Proof.
  exact (C3_varying_to_uniform_rejected_uniform_broadcast Example.g64
           Example.noGeneralType 2 (Example.varying TYPE_INT32)
           (Example.uniform TYPE_INT32) (Example.uniform TYPE_INT32)
           (Some (OpaqueExpr (Some (Example.varying TYPE_INT32)) None 5%nat))
           false (Some "initializer") 5%nat
           eq_refl eq_refl eq_refl eq_refl eq_refl eq_refl).
Defined.

(** A varying value converted to void is turned away by the void test,
    which comes first; and a uniform array does not convert to the
    varying array of the same shape. *)
Lemma C3_counterexample :
  let v := Example.varying TYPE_INT32 in
  let a := ArrayType (Example.uniform TYPE_INT32) 4 in
  let a' := ArrayType (Example.varying TYPE_INT32) 4 in
  (IsUniformType Atomic.Void = true /\ IsVaryingType v = true
   /\ isArrayType v = false
   /\ TypeConvertExpr Example.g64 Example.noGeneralType
        (Some (OpaqueExpr (Some v) None 5%nat)) (Some Atomic.Void)
        (Some "return")
      = (Ok None, [Error 5%nat (CantConvertToVoid v (Some "return"))]))
  /\ (IsUniformType a = true /\ IsVaryingType a' = true
      /\ a' = GetAsVaryingType a
      /\ TypeConvertExpr Example.g64 Example.noGeneralType
           (Some (OpaqueExpr (Some a) None 5%nat)) (Some a')
           (Some "initializer")
         = (Ok None,
            [Error 5%nat (CantConvertArrayType a a' (Some "initializer"))])).
Proof. cbv zeta. repeat split. Qed.

Lemma mapM_ret {A B} (f : A -> B) (l : list A) :
  mapM (fun x => ret (f x)) l = ret (map f l).
Proof.
  induction l as [|x r IH]; [reflexivity|].
  cbn [mapM map]. now rewrite bind_ret_l, IH, bind_ret_l.
Qed.

Lemma mapM_guarded {A B} (ok : A -> bool) (f : A -> B) (h : A -> M B)
    (l : list A) :
  (forall x, h x = if ok x then ret (f x) else undefined) ->
  mapM h l = if forallb ok l then ret (map f l) else undefined.
Proof.
  intros Hh. induction l as [|x r IH]; [reflexivity|].
  cbn [mapM map forallb]. rewrite Hh.
  destruct (ok x); [|reflexivity].
  rewrite bind_ret_l, IH. cbn [andb].
  destruct (forallb ok r); [|reflexivity].
  now rewrite !bind_ret_l.
Qed.

Lemma int_div_guarded bt p :
  int_div bt (fst p) (snd p)
  = if divisor_ok bt (fst p) (snd p) then ret (Z.quot (fst p) (snd p))
    else undefined.
Proof.
  unfold int_div, divisor_ok.
  destruct (Z.eqb (snd p) 0); [reflexivity|].
  now destruct (int_signed bt && Z.eqb (fst p) (int_min bt) && Z.eqb (snd p) (-1)).
Qed.

Lemma int_mod_guarded bt p :
  int_mod bt (fst p) (snd p)
  = if divisor_ok bt (fst p) (snd p) then ret (Z.rem (fst p) (snd p))
    else undefined.
Proof.
  unfold int_mod, divisor_ok.
  destruct (Z.eqb (snd p) 0); [reflexivity|].
  now destruct (int_signed bt && Z.eqb (fst p) (int_min bt) && Z.eqb (snd p) (-1)).
Qed.

Lemma firstn_map_firstn {A B} (f : A -> B) (n : nat) (l : list A) :
  firstn n (map f (firstn n l)) = map f (firstn n l).
Proof.
  rewrite firstn_map, firstn_firstn. now rewrite Nat.min_id.
Qed.

Lemma firstn_map_firstn' {A B} (f : A -> B) (n : nat) (l : list A) :
  firstn n (map f (firstn n l)) = map f (firstn n l).
Proof. apply firstn_map_firstn. Qed.

Section Folding.

Variable g : Globals.
Variable MoreGeneralType : Ty -> Ty -> SourcePos -> string -> M (option Ty).
Variable TypeCheck : Expr -> M (option Expr).
Variable Optimize : Expr -> M (option Expr).
Variable LookupFunction : string -> list Symbol.

(** C8.  A unary expression over a constant whose basic type is int8,
    uint8, int16, uint16, int64 or uint64 is returned unchanged by the
    constant folder, whatever the operator, the variability and the
    constness. *)
Theorem C8_unary_fold_skips_small_and_wide_integers
    (bt : BasicType) (u c : bool) (op : UnaryOp.Op) (vals : ConstVals)
    (cpos pos : SourcePos) :
  In bt [TYPE_INT8; TYPE_UINT8; TYPE_INT16; TYPE_UINT16;
         TYPE_INT64; TYPE_UINT64] ->
  UnaryExpr_Optimize g op (Some (ConstExpr (AtomicType bt u c) vals cpos)) pos
  = ret (Some (UnaryExpr op (Some (ConstExpr (AtomicType bt u c) vals cpos))
                         pos)).
Proof.
  intros Hbt. cbn in Hbt.
  decompose [or] Hbt; subst; try contradiction; destruct u, c; reflexivity.
Qed.

(** C6.  The type of the difference of two pointers is int32 when the
    target is 32-bit or 32-bit addressing is forced and int64
    otherwise, varying when either operand is varying and uniform when
    both are uniform; it is not const. *)
Theorem C6_pointer_difference_type
    (a0 a1 : Expr) (type0 type1 : Ty) (d0 d1 : list Diag) (pos : SourcePos) :
  GetType g MoreGeneralType a0 = (Ok (Some type0), d0) ->
  GetType g MoreGeneralType a1 = (Ok (Some type1), d1) ->
  isPointerType type0 = true ->
  isPointerType type1 = true ->
  GetType g MoreGeneralType (BinaryExpr BinaryOp.Sub (Some a0) (Some a1) pos)
  = (Ok (Some (AtomicType
                 (if is32Bit (target g) || force32BitAddressing (opt g)
                  then TYPE_INT32 else TYPE_INT64)
                 (negb (IsVaryingType type0 || IsVaryingType type1))
                 false)),
     d0 ++ d1).
Proof.
  intros H0 H1 P0 P1. cbn [GetType]. rewrite H0, H1. cbn [bind].
  rewrite P0, P1. cbn.
  destruct (is32Bit (target g) || force32BitAddressing (opt g));
    destruct (IsVaryingType type0 || IsVaryingType type1); cbn;
    now rewrite !app_nil_r.
Qed.

Lemma fold_int_lanes (bt : BasicType) (op : BinaryOp.Op)
    (construct : Ty -> list Z -> SourcePos -> M Expr)
    (l0 l1 : list Z) (ty : Ty) (p : SourcePos)
    (next : M (option Expr)) :
  op = BinaryOp.Div \/ op = BinaryOp.Mod ->
  orElse (lConstFold g (arith_int bt) construct ty op l0 l1 ty p)
    (orElse (lConstFold g (intop_int bt) construct ty op l0 l1 ty p) next)
  = if forallb (fun q => divisor_ok bt (fst q) (snd q))
               (firstn (Count g ty) (combine l0 l1))
    then bind (construct ty
                 (map (fun q => quotOrRem op (fst q) (snd q))
                      (firstn (Count g ty) (combine l0 l1))) p)
              (fun e => ret (Some e))
    else undefined.
Proof.
  intros [-> | ->]; cbv zeta; unfold lConstFold, orElse, foldLanes;
    cbn [arith_int intop_int quotOrRem].
  - rewrite (mapM_guarded _ _ _ _ (int_div_guarded bt)).
    destruct (forallb _ _); [|reflexivity].
    rewrite bind_ret_l.
    destruct (construct ty _ p) as [[e| | |] d]; cbn; rewrite ?app_nil_r;
      reflexivity.
  - rewrite bind_ret_l.
    rewrite (mapM_guarded _ _ _ _ (int_mod_guarded bt)).
    destruct (forallb _ _); [|reflexivity].
    rewrite bind_ret_l.
    destruct (construct ty _ p) as [[e| | |] d]; cbn; rewrite ?app_nil_r;
      reflexivity.
Qed.

(** The fast-math rewrites leave a division by a constant that is not
    a float to the constant folder. *)
Lemma fast_math_skips_non_float (op : BinaryOp.Op) (a0 : Expr) (type1 : Ty)
    (vals1 : ConstVals) (p1 pos : SourcePos) :
  isFloatType4 (Some type1) = false ->
  BinaryExpr_Optimize g MoreGeneralType TypeCheck Optimize LookupFunction op
    (Some a0) (Some (ConstExpr type1 vals1 p1)) pos
  = BinaryExpr_Optimize_fold g op a0 (ConstExpr type1 vals1 p1) pos.
Proof.
  intros Hf.
  unfold BinaryExpr_Optimize, BinaryExpr_Optimize_inv,
    BinaryExpr_Optimize_rcp.
  destruct (fastMath (opt g) && isDiv op); [|reflexivity].
  rewrite Hf, bind_ret_l. cbn [GetType]. rewrite bind_ret_l, Hf.
  now rewrite bind_ret_l.
Qed.

Lemma AsInt_IntVals (to : BasicType) (t : Ty) (v : list Z) :
  intConstType t <> None ->
  AsInt g to t (IntVals v) = ret (map (wrap to) (firstn (Count g t) v)).
Proof.
  intros Ht. unfold AsInt, convertLanes.
  destruct t as [[] ? ?|? ? ?| | | | | | ]; try (now elim Ht);
    cbn [getBasicType isEnumType Assert]; rewrite ?bind_ret_l;
    apply mapM_ret.
Qed.

Lemma AsBool_BoolVals (u c : bool) (v : list bool) :
  AsBool g (AtomicType TYPE_BOOL u c) (BoolVals v)
  = ret (firstn (Count g (AtomicType TYPE_BOOL u c)) v).
Proof.
  unfold AsBool, convertLanes. cbn [getBasicType]. rewrite bind_ret_l.
  rewrite (mapM_ret (fun b : bool => b)). now rewrite map_id.
Qed.

Lemma Count_const t : Count g (GetAsConstType t) = Count g t.
Proof.
  unfold Count, IsVaryingType. f_equal. f_equal.
  induction t; cbn; auto. now destruct basicType.
Qed.

(** C10.  When both operands of a Div or Mod are int32, uint32 or enum
    constants of one type up to constness, the folder computes the
    quotient or the remainder of each pair of lanes with no test on the
    divisor.  When every divisor lane is nonzero and, for the signed
    type, no pair is INT32_MIN over -1, the result is the constant of
    the lane-wise quotients or remainders.  Otherwise the fold has no
    defined result, and no error is emitted: there is no branch for
    it. *)
Theorem C10_integer_division_fold_unguarded
    (op : BinaryOp.Op) (type0 type1 : Ty) (bt : BasicType) (v0 v1 : list Z)
    (p0 p1 pos : SourcePos) :
  intConstType type0 = Some bt ->
  EqualIgnoringConst type0 type1 = true ->
  op = BinaryOp.Div \/ op = BinaryOp.Mod ->
  let pairs := lanePairs g bt type0 type1 v0 v1 in
  BinaryExpr_Optimize g MoreGeneralType TypeCheck Optimize LookupFunction op
    (Some (ConstExpr type0 (IntVals v0) p0))
    (Some (ConstExpr type1 (IntVals v1) p1)) pos
  = if forallb (fun q => divisor_ok bt (fst q) (snd q)) pairs
    then (Ok (Some (ConstExpr (GetAsConstType type0)
                      (IntVals (map (fun q => quotOrRem op (fst q) (snd q))
                                    pairs))
                      p0)),
          [])
    else (Undefined, []).
Proof.
  intros Hbt Heq Hop pairs.
  rewrite fast_math_skips_non_float.
  2:{ unfold EqualIgnoringConst in Heq.
      destruct type0 as [[] ? ?|? ? ?| | | | | | ]; try discriminate Hbt;
        destruct type1 as [[] ? ?|? ? ?| | | | | | ]; try discriminate Heq;
        reflexivity. }
  cbn [BinaryExpr_Optimize_fold]. unfold BinaryExpr_fold. rewrite Heq.
  cbn [Assert]. rewrite bind_ret_l.
  assert (Ht1 : intConstType type1 = Some bt).
  { unfold EqualIgnoringConst in Heq.
    destruct type0 as [[] ? ?|? ? ?| | | | | | ]; try discriminate Hbt;
      destruct type1 as [[] ? ?|? ? ?| | | | | | ]; try discriminate Heq;
      exact Hbt. }
  unfold AsInt32, AsUInt32, lConstFoldBinArithOp_int, lConstFoldBinIntOp.
  subst pairs. unfold lanePairs.
  destruct type0 as [[] u0 c0|n0 u0 c0| | | | | | ]; try discriminate Hbt;
    injection Hbt as <-;
    cbn [GetAsNonConstType Equal BasicType_eqb andb orb isEnumType
         Atomic.UniformFloat Atomic.VaryingFloat Atomic.UniformDouble
         Atomic.VaryingDouble Atomic.UniformInt32 Atomic.VaryingInt32
         Atomic.UniformUInt32 Atomic.VaryingUInt32];
    rewrite ?Bool.eqb_reflx, ?orb_true_r;
    try (destruct u0; cbn [Bool.eqb andb orb]);
    rewrite !AsInt_IntVals
      by (first [rewrite Ht1; discriminate | cbn; discriminate]);
    rewrite !bind_ret_l;
    rewrite fold_int_lanes by assumption;
    (destruct (forallb _ _); [|reflexivity]);
    unfold ConstExpr_int32s, ConstExpr_uint32s;
    rewrite Count_const, firstn_map_firstn;
    try (destruct c0); cbn; reflexivity.
Qed.

Lemma not_const_returned_unchanged (op : BinaryOp.Op) (a0 a1 : Expr)
    (pos : SourcePos) :
  isConstExpr a1 = false ->
  BinaryExpr_Optimize_fold g op a0 a1 pos
  = ret (Some (BinaryExpr op (Some a0) (Some a1) pos)).
Proof.
  intros H. unfold BinaryExpr_Optimize_fold.
  destruct a0; try reflexivity; destruct a1; try reflexivity; discriminate.
Qed.

Lemma first_not_const_returned_unchanged (op : BinaryOp.Op) (a0 a1 : Expr)
    (pos : SourcePos) :
  isConstExpr a0 = false ->
  BinaryExpr_Optimize_fold g op a0 a1 pos
  = ret (Some (BinaryExpr op (Some a0) (Some a1) pos)).
Proof.
  intros H. unfold BinaryExpr_Optimize_fold.
  destruct a0; try reflexivity; discriminate.
Qed.

Lemma logicalFold_decided (op : BinaryOp.Op) (l : list (bool * bool)) :
  op = BinaryOp.LogicalAnd \/ op = BinaryOp.LogicalOr ->
  Forall (fun q => decides op (fst q) = true) l ->
  map (fun q => logicalFold op (fst q) (snd q)) l = map fst l.
Proof.
  intros Hop H. induction H as [|[a b] l Ha _ IH]; [reflexivity|].
  cbn [map fst snd]. rewrite IH. f_equal.
  destruct Hop as [-> | ->]; cbn in *; destruct a, b; auto; discriminate.
Qed.

(** C4 (amended).  A binary [&&] or [||] is folded only when both
    operands are constants: the result is then the constant of the
    lane-wise conjunction or disjunction, which is the first operand
    itself when every lane of it decides the result (false for [&&],
    true for [||]).  When one of the operands is not a constant the
    folder returns the expression unchanged, whatever the other operand
    is. *)
Theorem C4_logical_fold_needs_both_constants
    (op : BinaryOp.Op) (u c0 c1 : bool) (v0 v1 : list bool)
    (a0 a1 : Expr) (p0 p1 pos : SourcePos) :
  op = BinaryOp.LogicalAnd \/ op = BinaryOp.LogicalOr ->
  isConstExpr a0 = false \/ isConstExpr a1 = false ->
  let type0 := AtomicType TYPE_BOOL u c0 in
  let type1 := AtomicType TYPE_BOOL u c1 in
  let pairs := boolPairs g type0 type1 v0 v1 in
  BinaryExpr_Optimize g MoreGeneralType TypeCheck Optimize LookupFunction op
    (Some (ConstExpr type0 (BoolVals v0) p0))
    (Some (ConstExpr type1 (BoolVals v1) p1)) pos
  = ret (Some (ConstExpr (GetAsConstType type0)
                 (BoolVals (map (fun q => logicalFold op (fst q) (snd q))
                                pairs))
                 p0))
  /\ (Forall (fun q => decides op (fst q) = true) pairs ->
      map (fun q => logicalFold op (fst q) (snd q)) pairs = map fst pairs)
  /\ BinaryExpr_Optimize g MoreGeneralType TypeCheck Optimize LookupFunction
       op (Some a0) (Some a1) pos
     = ret (Some (BinaryExpr op (Some a0) (Some a1) pos)).
Proof.
  intros Hop Hnc type0 type1 pairs. split; [|split].
  - rewrite fast_math_skips_non_float by (destruct u, c1; reflexivity).
    subst type0 type1 pairs. unfold boolPairs.
    cbn [BinaryExpr_Optimize_fold]. unfold BinaryExpr_fold.
    replace (EqualIgnoringConst (AtomicType TYPE_BOOL u c0)
                                (AtomicType TYPE_BOOL u c1))
      with true by (now destruct u).
    cbn [Assert]. rewrite bind_ret_l.
    replace (GetAsNonConstType (AtomicType TYPE_BOOL u c0))
      with (AtomicType TYPE_BOOL u false) by reflexivity.
    replace (Equal (AtomicType TYPE_BOOL u false) Atomic.UniformFloat
             || Equal (AtomicType TYPE_BOOL u false) Atomic.VaryingFloat)
      with false by reflexivity.
    replace (Equal (AtomicType TYPE_BOOL u false) Atomic.UniformDouble
             || Equal (AtomicType TYPE_BOOL u false) Atomic.VaryingDouble)
      with false by reflexivity.
    replace (Equal (AtomicType TYPE_BOOL u false) Atomic.UniformInt32
             || Equal (AtomicType TYPE_BOOL u false) Atomic.VaryingInt32)
      with false by reflexivity.
    replace (Equal (AtomicType TYPE_BOOL u false) Atomic.UniformUInt32
             || Equal (AtomicType TYPE_BOOL u false) Atomic.VaryingUInt32
             || isEnumType (AtomicType TYPE_BOOL u false))
      with false by reflexivity.
    replace (Equal (AtomicType TYPE_BOOL u false) Atomic.UniformBool
             || Equal (AtomicType TYPE_BOOL u false) Atomic.VaryingBool)
      with true by (now destruct u).
    rewrite !AsBool_BoolVals, !bind_ret_l.
    unfold lConstFoldBoolBinOp, lConstFold, foldLanes, orElse,
      ConstExpr_bools.
    replace (Equal (GetAsConstType (AtomicType TYPE_BOOL u c0))
                   Atomic.UniformConstBool
             || Equal (GetAsConstType (AtomicType TYPE_BOOL u c0))
                      Atomic.VaryingConstBool)
      with true by (now destruct u).
    rewrite Count_const.
    destruct Hop as [-> | ->]; cbn [boolop logical_bool logical_of];
      rewrite mapM_ret, !bind_ret_l; cbn [Assert]; rewrite !bind_ret_l;
      unfold boolPairs; now rewrite firstn_map_firstn.
  - now apply logicalFold_decided.
  - unfold BinaryExpr_Optimize.
    replace (isDiv op) with false by (now destruct Hop as [-> | ->]).
    rewrite andb_false_r. destruct Hnc as [Hnc|Hnc].
    + now apply first_not_const_returned_unchanged.
    + now apply not_const_returned_unchanged.
Qed.

Lemma isFloatType4_shape (t : Ty) :
  isFloatType4 (Some t) = true -> exists u c, t = AtomicType TYPE_FLOAT u c.
Proof.
  intros H. destruct t as [[] u c| | | | | | | ]; try discriminate H.
  now exists u, c.
Qed.

Lemma AsFloat_FloatVals (u c : bool) (v : list spec_float) :
  AsFloat g (AtomicType TYPE_FLOAT u c) (FloatVals v)
  = ret (firstn (Count g (AtomicType TYPE_FLOAT u c)) v).
Proof.
  unfold AsFloat, convertLanes. cbn [getBasicType]. rewrite bind_ret_l.
  rewrite (mapM_ret (fun f : spec_float => f)). now rewrite map_id.
Qed.

(** X21.  Under fast-math a division by a float constant becomes the
    product with the constant of the lane-wise reciprocals, type checked
    and optimized.  A division by a float that is not a constant becomes
    the product with the call rcp(y), each type checked and optimized,
    when the lookup of rcp finds two functions; when it finds none the
    division is returned unchanged with the warning that rcp() was not
    found. *)
Theorem fast_math_division_rewrites
    (x y : Expr) (type1 ty : Ty) (v : list spec_float) (p1 pos : SourcePos)
    (dy : list Diag) :
  fastMath (opt g) = true ->
  isFloatType4 (Some type1) = true ->
  isConstExpr y = false ->
  GetType g MoreGeneralType y = (Ok (Some ty), dy) ->
  isFloatType4 (Some ty) = true ->
  BinaryExpr_Optimize g MoreGeneralType TypeCheck Optimize LookupFunction
    BinaryOp.Div (Some x) (Some (ConstExpr type1 (FloatVals v) p1)) pos
  = checkedThenOptimized TypeCheck Optimize
      (BinaryExpr BinaryOp.Mul (Some x)
         (Some (ConstExpr (GetAsConstType type1)
                  (FloatVals (map (Float32.div Float32.one)
                                  (firstn (Count g type1) v)))
                  p1))
         pos)
  /\ (LookupFunction "rcp" = [] ->
      BinaryExpr_Optimize g MoreGeneralType TypeCheck Optimize LookupFunction
        BinaryOp.Div (Some x) (Some y) pos
      = (Ok (Some (BinaryExpr BinaryOp.Div (Some x) (Some y) pos)),
         dy ++ [Warning pos RcpNotFound]))
  /\ (forall r1 r2 : Symbol,
        LookupFunction "rcp" = [r1; r2] ->
        BinaryExpr_Optimize g MoreGeneralType TypeCheck Optimize
          LookupFunction BinaryOp.Div (Some x) (Some y) pos
        = bind (Ok tt, dy)
            (fun _ =>
               rcpCall <- checkedThenOptimized TypeCheck Optimize
                            (rcpCallOf [r1; r2] y pos) ;;
               match rcpCall with
               | Some call =>
                   checkedThenOptimized TypeCheck Optimize
                     (BinaryExpr BinaryOp.Mul (Some x) (Some call) pos)
               | None => ret None
               end)).
Proof.
  intros Hfast Hc Hy Hty Hf. split.
  - destruct (isFloatType4_shape _ Hc) as (u & c & ->).
    unfold BinaryExpr_Optimize, BinaryExpr_Optimize_inv. rewrite Hfast.
    cbn [isDiv andb]. rewrite Hc, AsFloat_FloatVals, bind_ret_l.
    unfold ConstExpr_floats.
    replace (Equal (GetAsConstType (AtomicType TYPE_FLOAT u c))
                   Atomic.UniformConstFloat
             || Equal (GetAsConstType (AtomicType TYPE_FLOAT u c))
                      Atomic.VaryingConstFloat)
      with true by (now destruct u).
    cbn [Assert]. rewrite !bind_ret_l, Count_const, firstn_map_firstn.
    unfold checkedThenOptimized.
    destruct (TypeCheck _) as [[[e|]| | |] d]; cbn; rewrite ?app_nil_r;
      try reflexivity.
    destruct (Optimize e) as [[r| | |] d']; cbn; rewrite ?app_nil_r;
      reflexivity.
  - assert (Hinv : BinaryExpr_Optimize_inv g TypeCheck Optimize x y pos
                   = ret None)
      by (destruct y; try reflexivity; discriminate Hy).
    split; [intros Hl|intros r1 r2 Hl];
      unfold BinaryExpr_Optimize; rewrite Hfast; cbn [isDiv andb];
      rewrite Hinv, bind_ret_l; unfold BinaryExpr_Optimize_rcp;
      rewrite Hty; rewrite bind_Ok; cbn [fst snd]; rewrite Hf, Hl;
      cbn [List.length Nat.ltb Nat.leb Nat.eqb Assert].
    + rewrite (not_const_returned_unchanged _ _ _ _ Hy).
      cbn. now rewrite app_nil_r.
    + unfold checkedThenOptimized, rcpCallOf. cbn [bind fatal ret fst snd].
      destruct (TypeCheck _) as [[[e|]| | |] d]; cbn;
        rewrite ?app_nil_r, <- ?app_assoc; try reflexivity.
      destruct (Optimize e) as [[[e'|]| | |] d']; cbn;
        rewrite ?app_nil_r, <- ?app_assoc; try reflexivity.
      destruct (TypeCheck _) as [[[e2|]| | |] d2]; cbn;
        rewrite ?app_nil_r, <- ?app_assoc; try reflexivity.
      destruct (Optimize e2) as [[r| | |] d3]; cbn;
        rewrite ?app_nil_r, <- ?app_assoc; reflexivity.
Qed.

End Folding.

Lemma C8_witness :
  UnaryExpr_Optimize Example.g64 UnaryOp.Negate
    (Some (ConstExpr (AtomicType TYPE_INT16 true true) (IntVals [5]) 3%nat))
    4%nat
  = ret (Some (UnaryExpr UnaryOp.Negate
                 (Some (ConstExpr (AtomicType TYPE_INT16 true true)
                                  (IntVals [5]) 3%nat)) 4%nat)).
Proof.
  apply (C8_unary_fold_skips_small_and_wide_integers Example.g64
           TYPE_INT16 true true UnaryOp.Negate (IntVals [5]) 3%nat 4%nat).
  simpl. right. right. left. reflexivity.
Defined.

Lemma C6_witness :
  GetType Example.g64 Example.noGeneralType
    (BinaryExpr BinaryOp.Sub (Some Example.p) (Some Example.q) 71%nat)
  = (Ok (Some (Example.varying TYPE_INT64)), []).
Proof.
  exact (C6_pointer_difference_type Example.g64 Example.noGeneralType
           Example.p Example.q
           (PointerType (Example.uniform TYPE_INT32) true false)
           (PointerType (Example.uniform TYPE_INT32) false false)
           [] [] 71%nat eq_refl eq_refl eq_refl eq_refl).
Defined.

Lemma C10_witness :
  BinaryExpr_Optimize Example.g64 Example.noGeneralType Example.keep
    Example.keep Example.stdlib BinaryOp.Div
    (Some (Example.int_literal 7)) (Some (Example.int_literal 2)) 72%nat
  = (Ok (Some (Example.int_literal 3)), [])
  /\ BinaryExpr_Optimize Example.g64 Example.noGeneralType Example.keep
       Example.keep Example.stdlib BinaryOp.Mod
       (Some (Example.int_literal 7)) (Some (Example.int_literal 0)) 72%nat
     = (Undefined, []).
Proof.
  split.
  - exact (C10_integer_division_fold_unguarded Example.g64
             Example.noGeneralType Example.keep Example.keep Example.stdlib
             BinaryOp.Div Atomic.UniformConstInt32 Atomic.UniformConstInt32
             TYPE_INT32 [7] [2] 48%nat 48%nat 72%nat
             eq_refl eq_refl (or_introl eq_refl)).
  - exact (C10_integer_division_fold_unguarded Example.g64
             Example.noGeneralType Example.keep Example.keep Example.stdlib
             BinaryOp.Mod Atomic.UniformConstInt32 Atomic.UniformConstInt32
             TYPE_INT32 [7] [0] 48%nat 48%nat 72%nat
             eq_refl eq_refl (or_intror eq_refl)).
Defined.

Lemma C4_witness :
  BinaryExpr_Optimize Example.g64 Example.noGeneralType Example.keep
    Example.keep Example.stdlib BinaryOp.LogicalAnd
    (Some Example.false_literal)
    (Some (ConstExpr Atomic.UniformConstBool (BoolVals [true]) 49%nat)) 72%nat
  = ret (Some Example.false_literal)
  /\ BinaryExpr_Optimize Example.g64 Example.noGeneralType Example.keep
       Example.keep Example.stdlib BinaryOp.LogicalAnd
       (Some Example.false_literal) (Some Example.b) 72%nat
     = ret (Some (BinaryExpr BinaryOp.LogicalAnd (Some Example.false_literal)
                             (Some Example.b) 72%nat))
  /\ BinaryExpr_Optimize Example.g64 Example.noGeneralType Example.keep
       Example.keep Example.stdlib BinaryOp.LogicalAnd
       (Some Example.b) (Some Example.false_literal) 72%nat
     = ret (Some (BinaryExpr BinaryOp.LogicalAnd (Some Example.b)
                             (Some Example.false_literal) 72%nat)).
Proof.
  pose proof (C4_logical_fold_needs_both_constants Example.g64
                Example.noGeneralType Example.keep Example.keep Example.stdlib
                BinaryOp.LogicalAnd true true true [false] [true]
                Example.false_literal Example.b 46%nat 49%nat 72%nat
                (or_introl eq_refl) (or_intror eq_refl)) as H.
  pose proof (C4_logical_fold_needs_both_constants Example.g64
                Example.noGeneralType Example.keep Example.keep Example.stdlib
                BinaryOp.LogicalAnd true true true [false] [true]
                Example.b Example.false_literal 46%nat 49%nat 72%nat
                (or_introl eq_refl) (or_introl eq_refl)) as H'.
  cbv zeta in H, H'. destruct H as (H1 & _ & H3). destruct H' as (_ & _ & H4).
  split; [exact H1|split; [exact H3|exact H4]].
Defined.

(** [false && b]: the first operand alone decides the result, the
    second is not a constant, and the folder hands the expression back
    as it is. *)
Lemma C4_counterexample :
  decides BinaryOp.LogicalAnd false = true
  /\ isConstExpr Example.b = false
  /\ exists e : Expr,
       BinaryExpr_Optimize Example.g64 Example.noGeneralType Example.keep
         Example.keep Example.stdlib BinaryOp.LogicalAnd
         (Some Example.false_literal) (Some Example.b) 72%nat
       = ret (Some e)
       /\ isConstExpr e = false
       /\ e = BinaryExpr BinaryOp.LogicalAnd (Some Example.false_literal)
                         (Some Example.b) 72%nat.
Proof.
  split; [reflexivity|split; [reflexivity|]].
  eexists. split; [reflexivity|split; reflexivity].
Qed.

Lemma fast_math_division_rewrites_witness :
  BinaryExpr_Optimize Example.g64fast Example.noGeneralType Example.keep
    Example.keep Example.stdlib BinaryOp.Div
    (Some Example.x) (Some Example.two_literal) 72%nat
  = ret (Some (BinaryExpr BinaryOp.Mul (Some Example.x)
                 (Some (ConstExpr Atomic.UniformConstFloat
                                  (FloatVals [Example.half_f]) 47%nat))
                 72%nat))
  /\ BinaryExpr_Optimize Example.g64fast Example.noGeneralType Example.keep
       Example.keep Example.stdlib BinaryOp.Div
       (Some Example.x) (Some Example.y) 72%nat
     = ret (Some (BinaryExpr BinaryOp.Mul (Some Example.x)
                    (Some (rcpCallOf [Example.rcp_varying; Example.rcp_uniform]
                                     Example.y 72%nat))
                    72%nat))
  /\ BinaryExpr_Optimize Example.g64fast Example.noGeneralType Example.keep
       Example.keep Example.no_stdlib BinaryOp.Div
       (Some Example.x) (Some Example.y) 72%nat
     = (Ok (Some (BinaryExpr BinaryOp.Div (Some Example.x) (Some Example.y)
                             72%nat)),
        [Warning 72%nat RcpNotFound]).
Proof.
  pose proof (fast_math_division_rewrites Example.g64fast
                Example.noGeneralType Example.keep Example.keep
                Example.stdlib Example.x Example.y Atomic.UniformConstFloat
                (Example.varying TYPE_FLOAT) [Example.two_f] 47%nat 72%nat []
                eq_refl eq_refl eq_refl eq_refl eq_refl) as (H1 & _ & H3).
  pose proof (fast_math_division_rewrites Example.g64fast
                Example.noGeneralType Example.keep Example.keep
                Example.no_stdlib Example.x Example.y
                Atomic.UniformConstFloat
                (Example.varying TYPE_FLOAT) [Example.two_f] 47%nat 72%nat []
                eq_refl eq_refl eq_refl eq_refl eq_refl) as (_ & H2 & _).
  split; [exact H1|].
  split; [exact (H3 Example.rcp_varying Example.rcp_uniform eq_refl)|].
  exact (H2 eq_refl).
Defined.

(** C5.  With a single function named rcp in scope, [x / y] under
    fast-math neither becomes [x * rcp(y)] nor is left alone with a
    warning: the lookup finds a function, and the assertion that it
    finds two stops the compiler. *)
Lemma C5_single_rcp_stops_optimizer :
  fastMath (opt Example.g64fast) = true
  /\ Example.only_one_rcp "rcp" = [Example.rcp_varying]
  /\ BinaryExpr_Optimize Example.g64fast Example.noGeneralType Example.keep
       Example.keep Example.only_one_rcp BinaryOp.Div
       (Some Example.x) (Some Example.y) 72%nat
     = (Fatal, []).
Proof. repeat split. Qed.

(** * Structs with const members *)





Section Assignment.

Variable g : Globals.
Variable MoreGeneralType : Ty -> Ty -> SourcePos -> string -> M (option Ty).




(** The members the check reaches are members in the sense of the
    description. *)
Lemma ReachedConstMember_ConstMember (s owner : Ty) (name : string) (t : Ty) :
  ReachedConstMember s owner name t -> ConstMember s owner name t.
Proof.
  induction 1 as [n els u c name d Hin Hc|n els u c m d owner name t Hin _ IH].
  - now apply ConstMember_here.
  - now apply ConstMember_inside with m d.
Qed.

End Assignment.



(* ================================================================== *)
(** * Further properties of the code *)
(* ================================================================== *)

(** * Structural equality decides equality *)

Lemma Equal_eq a : forall b, Equal a b = true -> a = b.
Proof.
  induction a as [bt u c|n u c|x u c IH|x IH|x k IH|x k IH|n els u c IH
                 |r ps ds k IHr IHps] using Ty_nested_ind;
    intros [] H; cbn [Equal] in H; try discriminate;
    repeat match type of H with
      | (_ && _) = true => apply andb_true_iff in H as [H ?]
      end;
    repeat match goal with
      | E : Bool.eqb _ _ = true |- _ => apply Bool.eqb_prop in E; subst
      | E : BasicType_eqb _ _ = true |- _ =>
          apply BasicType_eqb_eq in E; subst
      | E : String.eqb _ _ = true |- _ => apply String.eqb_eq in E; subst
      | E : Nat.eqb _ _ = true |- _ => apply Nat.eqb_eq in E; subst
      end;
    try reflexivity;
    try (f_equal; auto; fail).
  - f_equal.
    match goal with
    | E : _ els ?l = true |- _ => revert E; generalize l
    end.
    induction IH as [|[m t] els Ht _ IHels]; intros [|[m' t'] l'] E;
      try discriminate; [reflexivity|].
    apply andb_true_iff in E as [E E3].
    apply andb_true_iff in E as [E1 E2].
    apply String.eqb_eq in E1. cbn [snd] in Ht. apply Ht in E2. subst.
    f_equal. now apply IHels.
  - f_equal.
    + now apply IHr.
    + match goal with
      | E : _ ps ?l = true |- _ => revert E; generalize l
      end.
      clear -IHps.
      induction IHps as [|[t|] ps Ht _ IH]; intros [|[t'|] l'] E;
        try discriminate; [reflexivity| |].
      * apply andb_true_iff in E as [E1 E2]. apply Ht in E1. subst.
        f_equal. now apply IH.
      * f_equal. now apply IH.
    + match goal with
      | E : list_eqb _ ds ?l = true |- _ => revert E; generalize l
      end.
      clear. induction ds as [|[d|] ds IH]; intros [|[d'|] l'] E;
        cbn in E; try discriminate; [reflexivity| |].
      * apply andb_true_iff in E as [E1 E2]. apply Nat.eqb_eq in E1.
        subst. f_equal. now apply IH.
      * f_equal. now apply IH.
Qed.

(** * The widening tier *)

Lemma widening_table_never_narrows (a b : BasicType) (k : Z) :
  b <> TYPE_VOID ->
  widening a b = ret k -> k = -1 \/ (k = 1 /\ bitWidth a <= bitWidth b).
Proof.
  intros Hb.
  destruct a, b; try (now elim Hb); cbn; intros H; inversion H; subst; cbn;
    first [now left | right; split; [reflexivity|lia]].
Qed.

(** X2.  Where the widening predicate adds a match of its own, the argument
    and the parameter are atomic types of the same variability and the
    parameter's basic type is at least as wide in bits as the
    argument's, signed and unsigned types counted alike: the tier never
    goes to a narrower type and changes no variability.  (A change of
    sign at equal width is among what it accepts.) *)
Theorem widening_never_narrows (callType funcArgType : Ty) (k : Z) :
  isVoidType funcArgType = false ->
  lMatchIgnoringReferences callType funcArgType = ret (-1) ->
  lMatchWithTypeWidening callType funcArgType = ret k ->
  k = -1
  \/ (k = 1
      /\ exists (bt bt' : BasicType) (u c c' : bool),
           callType = AtomicType bt u c
           /\ funcArgType = AtomicType bt' u c'
           /\ bitWidth bt <= bitWidth bt').
Proof.
  intros Hvoid Hprev H. unfold lMatchWithTypeWidening in H.
  rewrite Hprev, bind_ret_l in H. cbn [Z.eqb negb] in H.
  destruct callType as [bt u c| | | | | | | ];
    try (inversion H; now left).
  destruct funcArgType as [bt' u' c'| | | | | | | ];
    try (inversion H; now left).
  destruct (Bool.eqb u u') eqn:Eu; cbn [negb] in H;
    [|inversion H; now left].
  apply Bool.eqb_prop in Eu. subst u'.
  assert (Hb : bt' <> TYPE_VOID) by (intros ->; discriminate Hvoid).
  destruct (widening_table_never_narrows bt bt' k Hb H) as [->|[-> Hs]];
    [now left|right].
  split; [reflexivity|]. now exists bt, bt', u, c, c'.
Qed.

Lemma widening_never_narrows_witness :
  1 = -1
  \/ (1 = 1
      /\ exists (bt bt' : BasicType) (u c c' : bool),
           Example.varying TYPE_INT16 = AtomicType bt u c
           /\ Example.varying TYPE_FLOAT = AtomicType bt' u c'
           /\ bitWidth bt <= bitWidth bt').
Proof.
  apply (widening_never_narrows (Example.varying TYPE_INT16)
           (Example.varying TYPE_FLOAT) 1); reflexivity.
Defined.

(** * The conversion engine as a whole *)

Lemma bind_silent {A B} (m : M A) (k : A -> M B) :
  diagnostics m = [] -> (forall a, diagnostics (k a) = []) ->
  diagnostics (bind m k) = [].
Proof.
  destruct m as [[a| | |] d]; cbn; intros -> Hk; try reflexivity.
  specialize (Hk a). destruct (k a) as [o d']. exact Hk.
Qed.

Section Engine.

Variable g : Globals.
Variable MoreGeneralType : Ty -> Ty -> SourcePos -> string -> M (option Ty).

Ltac split_ifs :=
  repeat match goal with
    | |- context [if ?c then _ else _] => destruct c
    end.

Lemma lDoTypeConv_dry_run_silent (fuel : nat) :
  forall (fromType toType : option Ty) (what : option string)
         (pos : SourcePos),
    diagnostics (lDoTypeConv g MoreGeneralType fuel fromType toType None
                             true what pos) = [].
Proof.
  induction fuel as [|fuel IH]; intros fromType toType what pos;
    [reflexivity|].
  cbn [lDoTypeConv orb Assert]. rewrite bind_ret_l.
  destruct toType as [toType|], fromType as [fromType|]; try reflexivity.
  cbn [error_unless]. rewrite !bind_ret_l.
  unfold typecast_ok. cbn [option_map].
  split_ifs; rewrite ?bind_ret_l; cbn iota; try reflexivity; try apply IH;
    try (unfold Assert; now split_ifs).
Qed.

(** X3.  The dry run of the conversion engine reports nothing: asking
    whether a conversion exists, without a message to report a failure
    with, never emits a diagnostic. *)
Theorem CanConvertTypes_is_silent (fromType toType : option Ty)
    (pos : SourcePos) :
  diagnostics (CanConvertTypes g MoreGeneralType fromType toType None pos)
  = [].
Proof.
  unfold CanConvertTypes. apply bind_silent.
  - apply lDoTypeConv_dry_run_silent.
  - reflexivity.
Qed.

Lemma bind_Ok_ret {A B} (a : A) (d : list Diag) (k : A -> M B) (b : B) :
  k a = ret b -> bind (Ok a, d) k = (Ok b, d).
Proof. intros H. cbn. rewrite H. cbn. now rewrite app_nil_r. Qed.

(** X4.  Converting an expression to the type it has leaves it as it is: no
    cast is inserted and nothing is reported. *)
Theorem TypeConvertExpr_to_own_type (e : Expr) (t : Ty) (what : string)
    (d : list Diag) :
  GetType g MoreGeneralType e = (Ok (Some t), d) ->
  TypeConvertExpr g MoreGeneralType (Some e) (Some t) (Some what)
  = (Ok (Some e), d).
Proof.
  intros H. unfold TypeConvertExpr. rewrite H.
  apply bind_Ok_ret. unfold conv_fuel. rewrite Nat.add_comm.
  cbn [Nat.add lDoTypeConv orb Assert]. rewrite bind_ret_l, Equal_refl.
  now rewrite bind_ret_l.
Qed.

(** The null pointer converted to the pointer type [toType]. *)
Lemma null_to_pointer (fuel : nat) (b : Ty) (u c : bool)
    (failureOk : bool) (what : option string) (pos : SourcePos) :
  failureOk || isSome what = true ->
  lDoTypeConv g MoreGeneralType (S fuel) (Some PointerType_Void)
    (Some (PointerType b u c)) (Some (NullPointerExpr pos)) failureOk what
    pos
  = ret (true, Some (nullPointerAs (PointerType b u c) pos)).
Proof.
  intros Hmsg. unfold isSome in Hmsg. unfold nullPointerAs.
  cbn [lDoTypeConv]. rewrite Hmsg. cbn [Assert]. rewrite bind_ret_l.
  destruct (Equal (PointerType b u c) PointerType_Void) eqn:E;
    [reflexivity|].
  cbn [Equal PointerType_Void Atomic.Void isArrayType isPointerType
       IsVaryingType IsUniformType negb andb isAtomicType
       isNullPointerExpr IsVoidPointer GetAsNonConstType].
  rewrite andb_false_r. cbn [andb negb BasicType_eqb Bool.eqb].
  now destruct (Equal (GetAsNonConstType b) Atomic.Void).
Qed.

(** X5.  The null pointer literal converts implicitly to every pointer
    type: it is returned as it is for [void *], and under a cast to the
    pointer type otherwise. *)
Theorem null_literal_converts_to_every_pointer (b : Ty) (u c : bool)
    (what : string) (pos : SourcePos) :
  TypeConvertExpr g MoreGeneralType (Some (NullPointerExpr pos))
    (Some (PointerType b u c)) (Some what)
  = ret (Some (nullPointerAs (PointerType b u c) pos)).
Proof.
  unfold TypeConvertExpr. cbn [GetType]. rewrite bind_ret_l.
  cbn [conv_fuel PointerType_Void refDepth Nat.add Expr_pos].
  now rewrite null_to_pointer, bind_ret_l.
Qed.

(** A zero constant is handed on as the null pointer. *)
Lemma zero_constant_step (fuel : nat) (bt : BasicType) (k : bool)
    (rest : list Z) (b : Ty) (u c : bool) (what : string)
    (pos : SourcePos) :
  BasicType_isInt bt = true ->
  let e := ConstExpr (AtomicType bt true k) (IntVals (0 :: rest)) pos in
  lDoTypeConv g MoreGeneralType (S fuel) (Some (AtomicType bt true k))
    (Some (PointerType b u c)) (Some e) false (Some what) pos
  = r <- lDoTypeConv g MoreGeneralType fuel (Some PointerType_Void)
           (Some (PointerType b u c)) (Some (NullPointerExpr pos)) false
           (Some what) pos ;;
    if fst r then ret (true, snd r) else ret (false, Some e).
Proof.
  intros Hint e.
  assert (Hzero : lIsAllIntZeros g MoreGeneralType e = ret true).
  { unfold lIsAllIntZeros, e. cbn [GetType]. rewrite bind_ret_l.
    cbn [IsIntType]. rewrite Hint. cbn [negb].
    unfold AsUInt64, AsInt, convertLanes, Count. cbn [getBasicType].
    rewrite bind_ret_l. cbn [IsVaryingType IsUniformType negb firstn].
    destruct bt; try discriminate Hint; reflexivity. }
  assert (Hnv : Equal (AtomicType bt true k) Atomic.Void = false)
    by (destruct bt; try discriminate Hint; reflexivity).
  cbn [lDoTypeConv orb Assert]. rewrite bind_ret_l.
  rewrite Hnv.
  cbn [Equal isArrayType isPointerType IsVaryingType IsUniformType negb
       andb isAtomicType IsIntType].
  rewrite andb_false_r. fold e. now rewrite Hint, Hzero, bind_ret_l.
Qed.

(** X6.  A uniform integer constant whose value is zero converts implicitly
    to every pointer type, and what it becomes is the null pointer. *)
Theorem zero_constant_converts_to_null_pointer (bt : BasicType) (k : bool)
    (rest : list Z) (b : Ty) (u c : bool) (what : string)
    (pos : SourcePos) :
  BasicType_isInt bt = true ->
  TypeConvertExpr g MoreGeneralType
    (Some (ConstExpr (AtomicType bt true k) (IntVals (0 :: rest)) pos))
    (Some (PointerType b u c)) (Some what)
  = ret (Some (nullPointerAs (PointerType b u c) pos)).
Proof.
  intros Hint. unfold TypeConvertExpr. cbn [GetType]. rewrite bind_ret_l.
  cbn [conv_fuel refDepth Nat.add Expr_pos].
  rewrite (zero_constant_step 2 bt k rest b u c what pos Hint).
  rewrite (null_to_pointer 1) by reflexivity.
  now rewrite !bind_ret_l.
Qed.

End Engine.

Lemma TypeConvertExpr_to_own_type_witness :
  TypeConvertExpr Example.g64 Example.noGeneralType (Some Example.x)
    (Some (Example.varying TYPE_FLOAT)) (Some "initializer")
  = (Ok (Some Example.x), []).
Proof.
  apply (TypeConvertExpr_to_own_type Example.g64 Example.noGeneralType
           Example.x (Example.varying TYPE_FLOAT) "initializer" []).
  reflexivity.
Defined.

Lemma zero_constant_converts_to_null_pointer_witness :
  TypeConvertExpr Example.g64 Example.noGeneralType
    (Some (Example.int_literal 0))
    (Some (PointerType (Example.uniform TYPE_INT32) true false))
    (Some "initializer")
  = ret (Some (TypeCastExpr
                 (Some (PointerType (Example.uniform TYPE_INT32) true false))
                 (Some (NullPointerExpr 48%nat)) false 48%nat)).
Proof.
  apply (zero_constant_converts_to_null_pointer Example.g64
           Example.noGeneralType TYPE_INT32 true [] 
           (Example.uniform TYPE_INT32) true false "initializer" 48%nat).
  reflexivity.
Defined.

Lemma mapM_silent {A B} (f : A -> M B) (l : list A) :
  (forall x, diagnostics (f x) = []) -> diagnostics (mapM f l) = [].
Proof.
  intros Hf. induction l as [|x r IH]; [reflexivity|].
  cbn [mapM]. apply bind_silent; [apply Hf|]. intros y.
  apply bind_silent; [exact IH|reflexivity].
Qed.

Lemma float_to_int_silent bt f : diagnostics (float_to_int bt f) = [].
Proof.
  unfold float_to_int. destruct (SFtrunc f); [|reflexivity].
  now destruct (_ && _).
Qed.

Section Verdict.

Variable g : Globals.
Variable MoreGeneralType : Ty -> Ty -> SourcePos -> string -> M (option Ty).

Lemma AsInt_silent to t vals : diagnostics (AsInt g to t vals) = [].
Proof.
  unfold AsInt, convertLanes. apply bind_silent.
  - destruct t; try reflexivity.
  - intros bt.
    destruct bt, vals; try reflexivity; apply mapM_silent; intros;
      try reflexivity; apply float_to_int_silent.
Qed.

Lemma lIsAllIntZeros_silent (e : Expr) (t : Ty) :
  GetType g MoreGeneralType e = ret (Some t) ->
  diagnostics (lIsAllIntZeros g MoreGeneralType e) = [].
Proof.
  intros H. unfold lIsAllIntZeros. rewrite H, bind_ret_l.
  destruct (negb (IsIntType t)); [reflexivity|].
  destruct e; try reflexivity.
  apply bind_silent; [apply AsInt_silent|reflexivity].
Qed.

Lemma GetType_Dereference (e : Expr) (t : Ty) (pos : SourcePos) :
  GetType g MoreGeneralType e = ret (Some (ReferenceType t)) ->
  GetType g MoreGeneralType (DereferenceExpr (Some e) pos) = ret (Some t).
Proof. intros H. cbn [GetType]. now rewrite H, bind_ret_l. Qed.

Lemma GetType_Reference (e : Expr) (t : Ty) (pos : SourcePos) :
  GetType g MoreGeneralType e = ret (Some t) ->
  GetType g MoreGeneralType (ReferenceExpr (Some e) pos)
  = ret (Some (ReferenceType t)).
Proof. intros H. cbn [GetType]. now rewrite H, bind_ret_l. Qed.

Lemma fail_leaf (failureOk : bool) (pos : SourcePos) (m : Message)
    (x : option Expr) (ok : bool) (e' : option Expr) (d : list Diag) :
  (error_unless failureOk pos m ;; ret (false, x)) = (Ok (ok, e'), d) ->
  ok = false /\ e' = x /\ d = if failureOk then [] else [Error pos m].
Proof. destruct failureOk; intros H; inversion H; auto. Qed.

Ltac walk H :=
  repeat first
    [ rewrite bind_ret_l in H
    | match type of H with
      | (if ?c then _ else _) = _ =>
          let E := fresh "E" in destruct c eqn:E
      | bind (if ?c then _ else _) _ = _ =>
          let E := fresh "E" in destruct c eqn:E
      | bind (Assert ?c) _ = _ =>
          let E := fresh "E" in
          destruct c eqn:E; [cbn [Assert] in H|discriminate H]
      end ].

Lemma bind_Ok_nil {A B} (a : A) (k : A -> M B) : bind (Ok a, []) k = k a.
Proof. exact (bind_ret_l a k). Qed.

Lemma GetReferenceTarget_id (t : Ty) :
  isReferenceType t = false -> GetReferenceTarget t = t.
Proof. now destruct t. Qed.

Lemma pointer_kept_is_compatible (fromType toType : Ty) :
  isPointerType fromType = true ->
  negb (isPointerType toType) = false ->
  IsUniformType toType && IsVaryingType fromType = false ->
  IsVaryingType toType && IsUniformType fromType = false ->
  negb (Equal (GetBaseType fromType) (GetBaseType toType))
  && negb (Equal (GetAsConstType (GetBaseType fromType))
                 (GetBaseType toType)) = false ->
  pointerCompatible fromType toType = true.
Proof.
  unfold pointerCompatible, IsVaryingType.
  destruct (isPointerType fromType), (isPointerType toType),
    (IsUniformType fromType), (IsUniformType toType),
    (Equal (GetBaseType fromType) (GetBaseType toType)),
    (Equal (GetAsConstType (GetBaseType fromType)) (GetBaseType toType));
    cbn; congruence.
Qed.

Lemma verdict_of_recursion (toType : Ty) (e x : Expr) (failureOk : bool)
    (pos : SourcePos) (inner : M (bool * option Expr))
    (ok : bool) (e' : option Expr) (d : list Diag) :
  (forall ok0 e0 d0, inner = (Ok (ok0, e0), d0) ->
                     conversionVerdict g MoreGeneralType toType x failureOk pos ok0 e0 d0) ->
  (r <- inner ;; if fst r then ret (true, snd r) else ret (false, Some e))
  = (Ok (ok, e'), d) ->
  conversionVerdict g MoreGeneralType toType e failureOk pos ok e' d.
Proof.
  intros Hin H. destruct inner as [[[ok0 e0]| | |] d0]; try discriminate H.
  specialize (Hin ok0 e0 d0 eq_refl). unfold conversionVerdict in *.
  cbn in H. destruct ok0; cbn in H; inversion H; subst; clear H;
    rewrite app_nil_r.
  - exact Hin.
  - destruct Hin as [_ Hd]. split; [reflexivity|exact Hd].
Qed.

Ltac finish :=
  match goal with
  | H : _ = (Ok (_, _), _), Hty : GetType _ _ ?e = ret (Some ?fromType),
    Hfail : _, Hcast : _, Hrec : _ |- _ =>
      walk H;
      first
        [ solve [eapply Hfail; [exact H|reflexivity]]
        | solve [inversion H; subst; apply Hcast;
                 first [reflexivity|now apply GetReferenceTarget_id]]
        | match type of H with
          | bind (GetType _ _ (DereferenceExpr _ ?pos)) _ = _ =>
              match goal with
              | E : isReferenceType fromType = true |- _ =>
                  destruct fromType as [| | |tgt| | | |];
                  try discriminate E;
                  rewrite (GetType_Dereference e tgt pos Hty),
                    bind_ret_l in H;
                  apply (Hrec _ _ (GetType_Dereference e tgt pos Hty) H)
              end
          | bind (GetType _ _ (ReferenceExpr _ ?pos)) _ = _ =>
              rewrite (GetType_Reference e fromType pos Hty),
                bind_ret_l in H;
              apply (Hrec _ _ (GetType_Reference e fromType pos Hty) H)
          end ]
  end.

Lemma conversion_verdict (fuel : nat) :
  forall (fromType toType : Ty) (e : Expr) (failureOk : bool)
         (what : option string) (pos : SourcePos)
         (ok : bool) (e' : option Expr) (d : list Diag),
    GetType g MoreGeneralType e = ret (Some fromType) ->
    lDoTypeConv g MoreGeneralType fuel (Some fromType) (Some toType)
      (Some e) failureOk what pos = (Ok (ok, e'), d) ->
    conversionVerdict g MoreGeneralType toType e failureOk pos ok e' d.
Proof.
  induction fuel as [|fuel IH];
    intros fromType toType e failureOk what pos ok e' d Hty H;
    [discriminate H|].
  cbn [lDoTypeConv] in H. unfold Assert in H.
  destruct (failureOk || _) eqn:Emsg; [|discriminate H].
  rewrite bind_ret_l in H.
  unfold typecast_ok in H. cbn [option_map] in H.
  assert (Hcast : forall t, t = toType ->
            conversionVerdict g MoreGeneralType toType e failureOk pos true
              (Some (TypeCastExpr (Some t) (Some e) false pos)) []).
  { intros t ->. split; [reflexivity|].
    eexists; eexists; split; [reflexivity|]. split; [reflexivity|now left]. }
  assert (Hfail : forall m x,
            (error_unless failureOk pos m ;; ret (false, x))
            = (Ok (ok, e'), d) -> x = Some e ->
            conversionVerdict g MoreGeneralType toType e failureOk pos ok e' d).
  { intros m x Hm ->. apply fail_leaf in Hm as (-> & -> & ->).
    split; [reflexivity|].
    destruct failureOk; [reflexivity|eexists; reflexivity]. }
  destruct (Equal toType fromType) eqn:Eeq.
  { inversion H; subst. split; [reflexivity|].
    exists e, fromType. apply Equal_eq in Eeq. subst. auto. }
  assert (Hrec : forall x t,
            GetType g MoreGeneralType x = ret (Some t) ->
            (r <- lDoTypeConv g MoreGeneralType fuel (Some t) (Some toType)
                    (Some x) failureOk what pos ;;
             if fst r then ret (true, snd r) else ret (false, Some e))
            = (Ok (ok, e'), d) ->
            conversionVerdict g MoreGeneralType toType e failureOk pos ok
                              e' d).
  { intros x t Hx Hr. eapply verdict_of_recursion; [|exact Hr].
    intros ok0 e0 d0 Hin. eapply IH; [exact Hx|exact Hin]. }
  walk H.
  all: try (solve [eapply Hfail; [exact H|reflexivity]]).
  all: try (solve [inversion H; subst; now apply Hcast]).
  1: { (* pointer to pointer, nothing to do *)
    inversion H; subst. split; [reflexivity|].
    exists e, fromType. split; [reflexivity|]. split; [exact Hty|].
    right. now apply pointer_kept_is_compatible. }
  1: { (* a zero constant, or not *)
    destruct (lIsAllIntZeros g MoreGeneralType e) as [[z| | |] dz] eqn:Ez;
      try discriminate H.
    pose proof (lIsAllIntZeros_silent e fromType Hty) as Hs.
    rewrite Ez in Hs. cbn in Hs. subst dz. rewrite bind_Ok_nil in H.
    destruct z.
    - apply (Hrec (NullPointerExpr pos) PointerType_Void eq_refl H).
    - finish. }
  all: finish.
Qed.

Lemma conversion_diagnostics (e : Expr) (fromType toType : Ty)
    (what : option string) (r : option Expr) (d : list Diag) :
  GetType g MoreGeneralType e = ret (Some fromType) ->
  TypeConvertExpr g MoreGeneralType (Some e) (Some toType) what = (Ok r, d) ->
  match r with
  | Some _ => d = []
  | None => exists m : Message, d = [Error (Expr_pos e) m]
  end.
Proof.
  intros Hty H. unfold TypeConvertExpr in H. rewrite Hty, bind_ret_l in H.
  destruct (lDoTypeConv _ _ _ _ _ _ _ _ _) as [[[ok e']| | |] d'] eqn:Er;
    try discriminate H.
  apply (conversion_verdict _ _ _ _ _ _ _ _ _ _ Hty) in Er.
  unfold conversionVerdict in Er. cbn in H.
  destruct ok; cbn in H; inversion H; subst; clear H.
  - destruct Er as (-> & x' & t & Hx & _). now subst.
  - destruct Er as (_ & m & ->). now exists m.
Qed.

(** X7.  An implicit conversion that succeeds reports nothing and yields an
    expression of the destination type; the one exception is a pointer
    converted to a pointer type of the same variability and of the same
    pointee type up to constness, which is returned as it is. *)
Theorem converted_expression_has_destination_type (e x : Expr)
    (fromType toType : Ty) (what : option string) (d : list Diag) :
  GetType g MoreGeneralType e = ret (Some fromType) ->
  TypeConvertExpr g MoreGeneralType (Some e) (Some toType) what
  = (Ok (Some x), d) ->
  d = []
  /\ exists t : Ty,
       GetType g MoreGeneralType x = ret (Some t)
       /\ (t = toType \/ pointerCompatible t toType = true).
Proof.
  intros Hty H. unfold TypeConvertExpr in H. rewrite Hty, bind_ret_l in H.
  destruct (lDoTypeConv _ _ _ _ _ _ _ _ _) as [[[ok e']| | |] d'] eqn:Er;
    try discriminate H.
  apply (conversion_verdict _ _ _ _ _ _ _ _ _ _ Hty) in Er.
  unfold conversionVerdict in Er. cbn in H.
  destruct ok; cbn in H; inversion H; subst; clear H.
  destruct Er as (-> & x' & t & Hx & Ht & Hc). inversion Hx; subst.
  split; [reflexivity|]. now exists t.
Qed.

(** X8.  An implicit conversion that fails reports exactly one error, at the
    position of the expression: it never fails silently and never
    reports twice. *)
Theorem failed_conversion_reports_one_error (e : Expr)
    (fromType toType : Ty) (what : option string) (d : list Diag) :
  GetType g MoreGeneralType e = ret (Some fromType) ->
  TypeConvertExpr g MoreGeneralType (Some e) (Some toType) what
  = (Ok None, d) ->
  exists m : Message, d = [Error (Expr_pos e) m].
Proof.
  intros Hty H. unfold TypeConvertExpr in H. rewrite Hty, bind_ret_l in H.
  destruct (lDoTypeConv _ _ _ _ _ _ _ _ _) as [[[ok e']| | |] d'] eqn:Er;
    try discriminate H.
  apply (conversion_verdict _ _ _ _ _ _ _ _ _ _ Hty) in Er.
  unfold conversionVerdict in Er. cbn in H.
  destruct ok; cbn in H; inversion H; subst; clear H.
  - destruct Er as (_ & x' & t & Hx & _). now subst.
  - destruct Er as (_ & m & ->). now exists m.
Qed.

End Verdict.

Lemma converted_expression_has_destination_type_witness :
  [] = ([] : list Diag)
  /\ exists t : Ty,
       GetType Example.g64 Example.noGeneralType
         (TypeCastExpr (Some (Example.varying TYPE_FLOAT)) (Some Example.b)
                       false 45%nat)
       = ret (Some t)
       /\ (t = Example.varying TYPE_FLOAT
           \/ pointerCompatible t (Example.varying TYPE_FLOAT) = true).
Proof.
  apply (converted_expression_has_destination_type Example.g64
           Example.noGeneralType Example.b _ (Example.uniform TYPE_BOOL)
           (Example.varying TYPE_FLOAT) (Some "initializer") []);
    reflexivity.
Defined.

Lemma failed_conversion_reports_one_error_witness :
  exists m : Message,
    [Error 57%nat
       (CantConvertVaryingToUniform (Example.varying TYPE_INT32)
          (Example.uniform TYPE_INT32) (Some "initializer"))]
    = [Error (Expr_pos Example.v) m].
Proof.
  apply (failed_conversion_reports_one_error Example.g64
           Example.noGeneralType Example.v (Example.varying TYPE_INT32)
           (Example.uniform TYPE_INT32) (Some "initializer"));
    reflexivity.
Defined.

(** * The recursion of the conversion engine is bounded *)

Lemma bind_returns {A B} (m : M A) (k : A -> M B) :
  returns m -> (forall a, returns (k a)) -> returns (bind m k).
Proof.
  unfold returns, outcome. destruct m as [[a| | |] d]; cbn; intros Hm Hk;
    try discriminate; [|now elim Hm].
  specialize (Hk a). destruct (k a). exact Hk.
Qed.

Lemma mapM_returns {A B} (f : A -> M B) (l : list A) :
  (forall x, returns (f x)) -> returns (mapM f l).
Proof.
  intros Hf. induction l as [|x r IH]; [discriminate|].
  cbn [mapM]. apply bind_returns; [apply Hf|]. intros y.
  apply bind_returns; [exact IH|discriminate].
Qed.

Section Bounded.

Variable g : Globals.
Variable MoreGeneralType : Ty -> Ty -> SourcePos -> string -> M (option Ty).

Lemma lIsAllIntZeros_returns (e : Expr) (t : option Ty) (d : list Diag) :
  GetType g MoreGeneralType e = (Ok t, d) ->
  returns (lIsAllIntZeros g MoreGeneralType e).
Proof.
  intros H. unfold lIsAllIntZeros. rewrite H.
  unfold returns, outcome. rewrite bind_Ok. cbn [fst].
  destruct t as [t|]; [|discriminate].
  destruct (negb (IsIntType t)); [discriminate|].
  destruct e; try discriminate.
  apply bind_returns; [|discriminate].
  unfold AsUInt64, AsInt, convertLanes. apply bind_returns.
  - destruct type; try discriminate; cbn [getBasicType];
      (apply bind_returns; [|discriminate]); unfold Assert;
      now destruct (isEnumType _).
  - intros bt. destruct bt, vals; try discriminate; apply mapM_returns;
      intros x; try discriminate; unfold float_to_int;
      destruct (SFtrunc x); try discriminate; now destruct (_ && _).
Qed.

Ltac step :=
  first
    [ rewrite bind_ret_l
    | discriminate
    | match goal with
      | |- returns (if ?c then _ else _) => destruct c eqn:?
      | |- returns (bind (if ?c then _ else _) _) => destruct c eqn:?
      | |- returns (bind (Assert _) _) =>
          apply bind_returns; [unfold Assert|intros _]
      | |- returns (bind (error_unless ?f _ _) _) =>
          apply bind_returns; [now destruct f|intros _]
      | |- returns (typecast_ok _ _ _) => discriminate
      | |- returns (ret _) => discriminate
      end ].

(** A source of pointer type is settled without a further call. *)
Lemma pointer_source_returns (fuel : nat) (fromType toType : Ty)
    (expr : option Expr) (failureOk : bool) (what : option string)
    (pos : SourcePos) :
  isPointerType fromType = true ->
  returns (lDoTypeConv g MoreGeneralType (S fuel) (Some fromType)
             (Some toType) expr failureOk what pos).
Proof.
  intros Hp. cbn [lDoTypeConv]. rewrite Hp. repeat step.
Qed.

(** So is a reference converted to a reference. *)
Lemma reference_pair_returns (fuel : nat) (a b : Ty)
    (expr : option Expr) (failureOk : bool) (what : option string)
    (pos : SourcePos) :
  returns (lDoTypeConv g MoreGeneralType (S fuel) (Some (ReferenceType a))
             (Some (ReferenceType b)) expr failureOk what pos).
Proof.
  cbn [lDoTypeConv isPointerType isReferenceType isArrayType andb
       isAtomicType]. repeat step.
Qed.

Lemma bind_returns_Ok {A B} (m : M A) (k : A -> M B) (a : A) :
  outcome m = Ok a -> returns (k a) -> returns (bind m k).
Proof.
  unfold returns, outcome. destruct m as [o d]. cbn [fst]. intros ->.
  rewrite bind_Ok. now destruct (k a).
Qed.

Lemma outcome_Dereference (e : Expr) (t : Ty) (pos : SourcePos) :
  outcome (GetType g MoreGeneralType e) = Ok (Some (ReferenceType t)) ->
  outcome (GetType g MoreGeneralType (DereferenceExpr (Some e) pos))
  = Ok (Some t).
Proof.
  intros H. cbn [GetType]. destruct (GetType g MoreGeneralType e) as [o d].
  cbn [outcome fst] in H. subst o. now rewrite bind_Ok.
Qed.

Lemma outcome_Reference (e : Expr) (t : Ty) (pos : SourcePos) :
  outcome (GetType g MoreGeneralType e) = Ok (Some t) ->
  outcome (GetType g MoreGeneralType (ReferenceExpr (Some e) pos))
  = Ok (Some (ReferenceType t)).
Proof.
  intros H. cbn [GetType]. destruct (GetType g MoreGeneralType e) as [o d].
  cbn [outcome fst] in H. subst o. now rewrite bind_Ok.
Qed.

Lemma recursion_returns (r : M (bool * option Expr)) (expr : option Expr) :
  returns r ->
  returns (x <- r ;; if fst x then ret (true, snd x) else ret (false, expr)).
Proof.
  intros H. apply bind_returns; [exact H|]. intros x. now destruct (fst x).
Qed.

(** One call for each reference layer of the source type, one for the
    type under them and one for a zero constant are enough. *)
Lemma lDoTypeConv_returns (fuel : nat) :
  forall (fromType toType : Ty) (expr : option Expr) (failureOk : bool)
         (what : option string) (pos : SourcePos),
    (refDepth fromType + 2 <= fuel)%nat ->
    match expr with
    | Some e => outcome (GetType g MoreGeneralType e) = Ok (Some fromType)
    | None => True
    end ->
    returns (lDoTypeConv g MoreGeneralType fuel (Some fromType)
               (Some toType) expr failureOk what pos).
Proof.
  induction fuel as [|fuel IH]; intros fromType toType expr failureOk what
    pos Hfuel He; [lia|].
  destruct (isPointerType fromType) eqn:Hp;
    [now apply pointer_source_returns|].
  cbn [lDoTypeConv]. rewrite Hp.
  repeat first
    [ step
    | match goal with
      | |- returns (bind (match ?x with Some _ => _ | None => _ end) _) =>
          destruct x as [e|];
          [ apply bind_returns;
            [ unfold outcome in He;
              destruct (GetType g MoreGeneralType e) as [o de] eqn:Hg;
              cbn [fst] in He; subst o;
              eapply lIsAllIntZeros_returns; exact Hg
            | intros [|] ]
          | ]
      | |- returns (bind (lDoTypeConv _ _ ?f (Some PointerType_Void)
                            _ _ _ _ _) _) =>
          destruct f; [lia|];
          apply recursion_returns, pointer_source_returns; reflexivity
      | |- returns (match ?x with Some _ => _ | None => _ end) =>
          destruct x as [e|]
      | H : isReferenceType ?from = true
        |- returns (bind (GetType _ _ (DereferenceExpr (Some _) _)) _) =>
          destruct from; try discriminate H;
          cbn [refDepth] in Hfuel;
          eapply bind_returns_Ok;
          [ apply outcome_Dereference; exact He | ];
          apply recursion_returns, IH;
          [ lia | apply outcome_Dereference; exact He ]
      | H : isReferenceType ?from = true
        |- returns (lDoTypeConv _ _ _ (Some (GetReferenceTarget ?from))
                      _ _ _ _ _) =>
          destruct from; try discriminate H;
          cbn [refDepth] in Hfuel;
          cbn [GetReferenceTarget]; apply IH; [lia | exact I]
      | H : isReferenceType ?to = true
        |- returns (bind (GetType _ _ (ReferenceExpr (Some _) _)) _) =>
          destruct to; try discriminate H;
          destruct fuel; [lia|];
          eapply bind_returns_Ok;
          [ apply outcome_Reference; exact He | ];
          apply recursion_returns, reference_pair_returns
      | H : isReferenceType ?to = true
        |- returns (lDoTypeConv _ _ ?f (Some (ReferenceType _)) (Some ?to)
                      _ _ _ _) =>
          destruct to; try discriminate H;
          destruct f; [lia|];
          apply reference_pair_returns
      end ].
Qed.

(** X9.  The recursion of the implicit conversion is bounded by the
    reference layers of the source type: with the bound the callers pass,
    [CanConvertTypes] returns for every pair of types, and
    [TypeConvertExpr] returns for every expression whose type is
    computed. *)
Theorem conversion_recursion_is_bounded (e : Expr)
    (fromType toType : option Ty) (what what' : option string)
    (pos : SourcePos) :
  returns (GetType g MoreGeneralType e) ->
  returns (CanConvertTypes g MoreGeneralType fromType toType what pos)
  /\ returns (TypeConvertExpr g MoreGeneralType (Some e) toType what').
Proof.
  intros He. split.
  - unfold CanConvertTypes. apply bind_returns; [|discriminate].
    destruct fromType as [f|], toType as [t|]; cbn [conv_fuel];
      try (cbn [lDoTypeConv]; apply bind_returns;
           [unfold Assert; now destruct (_ || _)|discriminate]).
    + apply lDoTypeConv_returns; [lia|exact I].
    + replace (refDepth f + 3)%nat with (S (refDepth f + 2)) by lia.
      cbn [lDoTypeConv]. apply bind_returns;
        [unfold Assert; now destruct (_ || _)|discriminate].
  - cbn [TypeConvertExpr].
    destruct (GetType g MoreGeneralType e) as [[[f|]| | |] d] eqn:Hg;
      try discriminate; [| |now elim He].
    + rewrite bind_Ok. cbn [conv_fuel].
      assert (returns (lDoTypeConv g MoreGeneralType (refDepth f + 3)
                         (Some f) toType (Some e) false what' (Expr_pos e)))
        as Hr.
      { destruct toType as [t|].
        - apply lDoTypeConv_returns; [lia|]. unfold outcome. now rewrite Hg.
        - replace (refDepth f + 3)%nat with (S (refDepth f + 2)) by lia.
          cbn [lDoTypeConv]. apply bind_returns;
            [unfold Assert; now destruct (_ || _)|discriminate]. }
      unfold returns, outcome in *.
      destruct (lDoTypeConv _ _ _ _ _ _ _ _ _) as [[r| | |] dr];
        cbn [bind fst] in *; try discriminate; [|now elim Hr].
      now destruct (fst r).
    + rewrite bind_Ok. cbn [conv_fuel lDoTypeConv].
      unfold returns, outcome.
      destruct (Assert _) as [[r| | |] dr] eqn:Ha; cbn; try discriminate.
      * now destruct toType.
      * unfold Assert in Ha. now destruct (_ || _).
Qed.

End Bounded.

Lemma conversion_recursion_is_bounded_witness :
  returns (GetType Example.g64 Example.noGeneralType Example.x)
  /\ returns (CanConvertTypes Example.g64 Example.noGeneralType
                (Some (ReferenceType (ReferenceType (Example.varying TYPE_FLOAT))))
                (Some (Example.varying TYPE_DOUBLE)) None 0%nat)
  /\ returns (TypeConvertExpr Example.g64 Example.noGeneralType
                (Some Example.x) (Some (Example.varying TYPE_DOUBLE)) (Some "here")).
Proof.
  assert (returns (GetType Example.g64 Example.noGeneralType Example.x))
    as H by (vm_compute; discriminate).
  split; [exact H|].
  exact (conversion_recursion_is_bounded Example.g64 Example.noGeneralType
           Example.x (Some (ReferenceType (ReferenceType (Example.varying TYPE_FLOAT))))
           (Some (Example.varying TYPE_DOUBLE)) None (Some "here") 0%nat H).
Defined.

(** * Folding of casts and of unary operators *)

Lemma wrap_in_range (bt : BasicType) (z : Z) :
  int_min bt <= wrap bt z <= int_max bt.
Proof.
  unfold wrap, int_min, int_max.
  destruct bt; cbn [int_signed int_bits];
    match goal with
    | |- context [(?a mod ?w)] =>
        let w' := eval cbv in w in
        change w with w'; pose proof (Z.mod_pos_bound a w' eq_refl)
    end; cbv [Z.pow Z.pow_pos Pos.iter Z.mul Pos.mul Z.div Z.div_eucl
              Z.pos_div_eucl] in *; cbn in *; lia.
Qed.

Lemma wrap_of_in_range (bt : BasicType) (z : Z) :
  int_min bt <= z <= int_max bt -> wrap bt z = z.
Proof.
  unfold wrap, int_min, int_max.
  destruct bt; cbn [int_signed int_bits]; intros H;
    match goal with
    | |- context [(?a mod ?w)] =>
        let w' := eval cbv in w in
        change w with w' in *
    end;
    match goal with
    | |- context [?w / 2] =>
        let h := eval cbv in (w / 2) in change (w / 2) with h in *
    | _ => idtac
    end;
    cbn in H |- *; rewrite Z.mod_small; lia.
Qed.

Lemma mapM_Forall {A B} (P : B -> Prop) (f : A -> M B) (l : list A) :
  (forall x y d, f x = (Ok y, d) -> P y) ->
  forall ys d, mapM f l = (Ok ys, d) -> Forall P ys.
Proof.
  intros Hf. induction l as [|x r IH]; intros ys d H.
  - inversion H. constructor.
  - cbn [mapM] in H. destruct (f x) as [[y| | |] d1] eqn:Ex;
      try discriminate H.
    rewrite bind_Ok in H.
    destruct (mapM f r) as [[ys'| | |] d2] eqn:Er; try discriminate H.
    cbn in H. inversion H; subst. constructor.
    + exact (Hf _ _ _ Ex).
    + exact (IH _ _ eq_refl).
Qed.

Lemma firstn_repeat_width {X} (x : X) (w : nat) :
  firstn w (x :: repeat x (pred w)) = repeat x w.
Proof.
  destruct w as [|w]; [reflexivity|]. cbn [pred firstn repeat]. f_equal.
  rewrite <- (repeat_length x w) at 1. apply firstn_all.
Qed.

Section CastFolding.

Variable g : Globals.

Lemma AsInt_in_range (to : BasicType) (t : Ty) (vals : ConstVals)
    (l : list Z) (d : list Diag) :
  BasicType_isInt to = true ->
  AsInt g to t vals = (Ok l, d) -> Forall (in_range to) l.
Proof.
  intros Hint H. unfold AsInt, convertLanes in H.
  destruct (getBasicType t) as [[bt| | |] d0]; try discriminate H.
  rewrite bind_Ok in H.
  assert (Hbool : forall (x : bool) y d', ret (if x then 1 else 0) = (Ok y, d')
                                          -> in_range to y).
  { intros x y d' E. inversion E; subst.
    unfold in_range, int_min, int_max.
    destruct to; try discriminate Hint; destruct x; cbn; lia. }
  assert (Hwrap : forall x y d', ret (wrap to x) = (Ok y, d') ->
                                 in_range to y).
  { intros x y d' E. inversion E; subst. apply wrap_in_range. }
  assert (Hfl : forall x y d', float_to_int to x = (Ok y, d') ->
                               in_range to y).
  { intros x y d' E. unfold float_to_int in E.
    destruct (SFtrunc x) as [z|]; [|discriminate E].
    destruct (_ && _) eqn:Er; inversion E; subst.
    apply andb_true_iff in Er as [E1 E2].
    apply Z.leb_le in E1, E2. split; assumption. }
  destruct bt, vals; cbn in H;
    try discriminate H;
    match type of H with
    | (fst ?m, _) = _ =>
        destruct m as [[ys| | |] d1] eqn:Em; cbn in H; inversion H; subst;
        eapply mapM_Forall; [|exact Em]; eauto
    end.
Qed.

Lemma forceVaryingLanes_Forall {X} (P : X -> Prop) (fv : bool) (n : nat)
    (l : list X) :
  Forall P l -> Forall P (forceVaryingLanes g fv n l).
Proof.
  intros H. unfold forceVaryingLanes. destruct (fv && _); [|exact H].
  destruct H as [|x r Hx _]; constructor; [exact Hx|].
  apply Forall_forall. intros y Hy. apply repeat_spec in Hy. now subst.
Qed.

Lemma Forall_firstn {X} (P : X -> Prop) (n : nat) (l : list X) :
  Forall P l -> Forall P (firstn n l).
Proof.
  intros H. revert n. induction H; intros [|n]; cbn; constructor; auto.
Qed.

(** X10.  Folding a cast of a constant to an integer type never leaves a
    lane outside the range of that type: integer lanes are reduced into
    it, and a floating-point lane that does not fit stops the fold. *)
Theorem folded_integer_cast_is_in_range (bt : BasicType) (u c : bool)
    (ctype : Ty) (vals : ConstVals) (cpos pos : SourcePos)
    (preserveUniformity : bool) (e : Expr) (d : list Diag) :
  BasicType_isInt bt = true ->
  TypeCastExpr_Optimize g (Some (AtomicType bt u c))
    (Some (ConstExpr ctype vals cpos)) preserveUniformity pos
  = (Ok (Some e), d) ->
  exists lanes : list Z,
    e = ConstExpr (AtomicType bt u true) (IntVals lanes) pos
    /\ Forall (in_range bt) lanes
    /\ (List.length lanes <= Count g (AtomicType bt u c))%nat.
Proof.
  intros Hint H. unfold TypeCastExpr_Optimize in H.
  cbn [isAtomicType negb andb] in H.
  assert (Hgen : forall construct,
    (forall v, construct (AtomicType bt u c) v pos
               = ret (ConstExpr (AtomicType bt u true)
                        (IntVals (firstn (Count g (AtomicType bt u true)) v))
                        pos)) ->
    (v <- withForceVarying g (AsInt g bt) ctype vals
            (IsVaryingType (AtomicType bt u c)) ;;
     e0 <- construct (AtomicType bt u c) v pos ;; ret (Some e0))
    = (Ok (Some e), d) ->
    exists lanes : list Z,
      e = ConstExpr (AtomicType bt u true) (IntVals lanes) pos
      /\ Forall (in_range bt) lanes
      /\ (List.length lanes <= Count g (AtomicType bt u c))%nat).
  { intros construct Hc Hr. unfold withForceVarying in Hr.
    destruct (AsInt g bt ctype vals) as [[l| | |] d0] eqn:El;
      try discriminate Hr.
    cbn [bind ret] in Hr. rewrite Hc in Hr. cbn [bind ret] in Hr.
    inversion Hr; subst. eexists. split; [reflexivity|]. split.
    - apply Forall_firstn, forceVaryingLanes_Forall.
      exact (AsInt_in_range bt ctype vals l d0 Hint El).
    - apply firstn_le_length. }
  destruct bt; try discriminate Hint; apply Hgen in H; try exact H;
    intros v; unfold ConstExpr_ints, ConstExpr_int32s, ConstExpr_uint32s;
    destruct u, c; reflexivity.
Qed.

Lemma AsInt_of_int (to bt0 : BasicType) (u c : bool) (v : list Z) :
  BasicType_isInt bt0 = true ->
  AsInt g to (AtomicType bt0 u c) (IntVals v)
  = ret (map (wrap to) (firstn (Count g (AtomicType bt0 u c)) v)).
Proof.
  intros H. unfold AsInt, convertLanes. cbn [getBasicType].
  rewrite bind_ret_l. destruct bt0; try discriminate H; apply mapM_ret.
Qed.

(** X11.  Casting a uniform integer constant to a varying integer type
    gives the varying constant whose lanes all hold the value of the
    uniform one, converted to the new type. *)
Theorem cast_of_uniform_constant_smears (bt bt0 : BasicType) (c c0 : bool)
    (z : Z) (rest : list Z) (cpos pos : SourcePos)
    (preserveUniformity : bool) :
  BasicType_isInt bt = true ->
  BasicType_isInt bt0 = true ->
  TypeCastExpr_Optimize g (Some (AtomicType bt false c))
    (Some (ConstExpr (AtomicType bt0 true c0) (IntVals (z :: rest)) cpos))
    preserveUniformity pos
  = ret (Some (ConstExpr (AtomicType bt false true)
                 (IntVals (repeat (wrap bt z) (vectorWidth (target g))))
                 pos)).
Proof.
  intros Hint Hint0. unfold TypeCastExpr_Optimize.
  cbn [isAtomicType negb andb IsVaryingType IsUniformType].
  assert (Has : withForceVarying g (AsInt g bt) (AtomicType bt0 true c0)
                  (IntVals (z :: rest)) true
                = ret (wrap bt z
                       :: repeat (wrap bt z) (pred (vectorWidth (target g))))).
  { unfold withForceVarying. rewrite (AsInt_of_int _ _ _ _ _ Hint0).
    rewrite bind_ret_l. unfold Count, forceVaryingLanes.
    cbn [IsVaryingType IsUniformType negb firstn map andb Nat.eqb].
    reflexivity. }
  destruct bt; try discriminate Hint; rewrite Has, bind_ret_l;
    unfold ConstExpr_ints, ConstExpr_int32s, ConstExpr_uint32s;
    destruct c; cbn [GetAsConstType Equal BasicType_eqb Bool.eqb andb orb
                     Assert Atomic.UniformConstInt32 Atomic.VaryingConstInt32
                     Atomic.UniformConstUInt32 Atomic.VaryingConstUInt32];
    rewrite !bind_ret_l; unfold Count;
    cbn [IsVaryingType IsUniformType negb];
    now rewrite firstn_repeat_width.
Qed.

Lemma force_same_variability {X} (t : Ty) (v : list X) :
  forceVaryingLanes g (IsVaryingType t) (Count g t) (firstn (Count g t) v)
  = firstn (Count g t) v.
Proof.
  unfold forceVaryingLanes, Count.
  destruct (IsVaryingType t); [|reflexivity].
  destruct (Nat.eqb (vectorWidth (target g)) 1) eqn:Ew; [|reflexivity].
  apply Nat.eqb_eq in Ew. rewrite Ew. cbn [andb pred repeat].
  destruct v; reflexivity.
Qed.

Lemma nonzero_of_bool (b : bool) : negb (Z.eqb (if b then 1 else 0) 0) = b.
Proof. now destruct b. Qed.

Lemma SFnonzero_of_bool32 (b : bool) :
  SFnonzero (Float32.ofZ (if b then 1 else 0)) = b.
Proof. now destruct b. Qed.

Lemma SFnonzero_of_bool64 (b : bool) :
  SFnonzero (Float64.ofZ (if b then 1 else 0)) = b.
Proof. now destruct b. Qed.

Lemma firstn_idem {X} (n : nat) (l : list X) :
  firstn n (firstn n l) = firstn n l.
Proof. now rewrite firstn_firstn, Nat.min_id. Qed.

Ltac count_is n :=
  repeat match goal with
    | |- context [Count g (AtomicType ?b ?u ?c)] =>
        progress change (Count g (AtomicType b u c)) with n
    end.

Lemma cast_of_bool_constant (bt : BasicType) (u k k1 pu : bool)
    (v : list bool) (cpos pos : SourcePos) :
  bt <> TYPE_VOID ->
  TypeCastExpr_Optimize g (Some (AtomicType bt u k1))
    (Some (ConstExpr (AtomicType TYPE_BOOL u k) (BoolVals v) cpos)) pu pos
  = ret (Some (ConstExpr (AtomicType bt u true)
                 (lanesOfBools bt
                    (firstn (Count g (AtomicType TYPE_BOOL u true)) v))
                 pos)).
Proof.
  intros Hbt. set (n := Count g (AtomicType TYPE_BOOL u true)).
  assert (Hforce : forall X (l : list X),
            forceVaryingLanes g (IsVaryingType (AtomicType bt u k1)) n
                              (firstn n l) = firstn n l)
    by (intros; apply (force_same_variability (AtomicType TYPE_BOOL u true))).
  unfold TypeCastExpr_Optimize. cbn [isAtomicType negb andb].
  unfold withForceVarying, AsInt, AsBool, AsFloat, AsDouble, convertLanes.
  cbn [getBasicType]. rewrite !bind_ret_l. count_is n.
  destruct bt; try (now elim Hbt);
    rewrite mapM_ret, bind_ret_l, <- firstn_map, Hforce, bind_ret_l;
    unfold ConstExpr_bools, ConstExpr_ints, ConstExpr_int32s,
      ConstExpr_uint32s, ConstExpr_floats, ConstExpr_doubles;
    count_is n;
    match goal with
    | |- context [GetAsConstType (AtomicType ?b u k1)] =>
        change (GetAsConstType (AtomicType b u k1)) with (AtomicType b u true)
    end;
    count_is n; rewrite firstn_idem;
    destruct u;
    cbn [Equal BasicType_eqb Bool.eqb andb orb Assert
         Atomic.UniformConstBool Atomic.VaryingConstBool
         Atomic.UniformConstInt32 Atomic.VaryingConstInt32
         Atomic.UniformConstUInt32 Atomic.VaryingConstUInt32
         Atomic.UniformConstFloat Atomic.VaryingConstFloat];
    rewrite !bind_ret_l; unfold lanesOfBools;
    rewrite ?firstn_map, ?map_id; reflexivity.
Qed.

Lemma cast_to_bool_constant (bt : BasicType) (u k2 pu : bool)
    (l : list bool) (cpos pos : SourcePos) :
  bt <> TYPE_VOID ->
  TypeCastExpr_Optimize g (Some (AtomicType TYPE_BOOL u k2))
    (Some (ConstExpr (AtomicType bt u true) (lanesOfBools bt l) cpos))
    pu pos
  = ret (Some (ConstExpr (AtomicType TYPE_BOOL u true)
                 (BoolVals
                    (firstn (Count g (AtomicType TYPE_BOOL u true)) l))
                 pos)).
Proof.
  intros Hbt. set (n := Count g (AtomicType TYPE_BOOL u true)).
  assert (Hforce : forall X (l : list X),
            forceVaryingLanes g (IsVaryingType (AtomicType TYPE_BOOL u k2))
                              n (firstn n l) = firstn n l)
    by (intros; apply (force_same_variability (AtomicType TYPE_BOOL u true))).
  unfold TypeCastExpr_Optimize. cbn [isAtomicType negb andb].
  unfold withForceVarying, AsBool, convertLanes.
  cbn [getBasicType]. rewrite !bind_ret_l. count_is n.
  destruct bt; try (now elim Hbt); unfold lanesOfBools;
    rewrite mapM_ret, bind_ret_l, <- firstn_map, Hforce, bind_ret_l;
    unfold ConstExpr_bools;
    change (GetAsConstType (AtomicType TYPE_BOOL u k2))
      with (AtomicType TYPE_BOOL u true);
    count_is n; rewrite firstn_idem;
    destruct u; cbn [Equal BasicType_eqb Bool.eqb andb orb Assert
                     Atomic.UniformConstBool Atomic.VaryingConstBool];
    rewrite !bind_ret_l, ?map_map;
    repeat f_equal;
    first [ apply map_id
          | rewrite <- (map_id l) at 2; apply map_ext; intros b;
            first [apply nonzero_of_bool | apply SFnonzero_of_bool32
                  | apply SFnonzero_of_bool64] ].
Qed.

(** X12.  A bool constant cast to a numeric type has lanes one and zero, and
    cast back to bool it is the constant it was. *)
Theorem bool_constant_survives_a_round_trip (bt : BasicType)
    (u k k1 k2 pu1 pu2 : bool) (v : list bool) (cpos p1 p2 : SourcePos) :
  bt <> TYPE_VOID ->
  let lanes := firstn (Count g (AtomicType TYPE_BOOL u true)) v in
  let mid := ConstExpr (AtomicType bt u true) (lanesOfBools bt lanes) p1 in
  TypeCastExpr_Optimize g (Some (AtomicType bt u k1))
    (Some (ConstExpr (AtomicType TYPE_BOOL u k) (BoolVals v) cpos)) pu1 p1
  = ret (Some mid)
  /\ TypeCastExpr_Optimize g (Some (AtomicType TYPE_BOOL u k2)) (Some mid)
       pu2 p2
     = ret (Some (ConstExpr (AtomicType TYPE_BOOL u true) (BoolVals lanes)
                            p2)).
Proof.
  intros Hbt lanes mid. split.
  - now apply cast_of_bool_constant.
  - unfold mid. rewrite cast_to_bool_constant by assumption.
    unfold lanes. now rewrite firstn_idem.
Qed.

Lemma fold_logical_not (u c : bool) (v : list bool) (cpos pos : SourcePos) :
  UnaryExpr_Optimize g UnaryOp.LogicalNot
    (Some (ConstExpr (AtomicType TYPE_BOOL u c) (BoolVals v) cpos)) pos
  = ret (Some (ConstExpr (AtomicType TYPE_BOOL u true)
                 (BoolVals
                    (map negb
                       (firstn (Count g (AtomicType TYPE_BOOL u true)) v)))
                 pos)).
Proof.
  set (n := Count g (AtomicType TYPE_BOOL u true)).
  unfold UnaryExpr_Optimize.
  replace (Equal (GetAsUniformType (GetAsNonConstType
                                      (AtomicType TYPE_BOOL u c))) _ || _
           || _ || _ || _ || _) with false by reflexivity.
  replace (Equal (AtomicType TYPE_BOOL u c) Atomic.UniformBool || _ || _ || _)
    with true by (destruct u, c; reflexivity).
  cbn [Assert]. rewrite bind_ret_l, AsBool_BoolVals, bind_ret_l.
  unfold ConstExpr_bools.
  change (GetAsConstType (AtomicType TYPE_BOOL u c))
    with (AtomicType TYPE_BOOL u true).
  count_is n.
  replace (Equal (AtomicType TYPE_BOOL u true) Atomic.UniformConstBool
           || Equal (AtomicType TYPE_BOOL u true) Atomic.VaryingConstBool)
    with true by (destruct u; reflexivity).
  cbn [Assert]. rewrite bind_ret_l, bind_ret_l.
  now rewrite firstn_map, firstn_idem.
Qed.

Lemma fold_bit_not (u c : bool) (v : list Z) (cpos pos : SourcePos) :
  UnaryExpr_Optimize g UnaryOp.BitNot
    (Some (ConstExpr (AtomicType TYPE_INT32 u c) (IntVals v) cpos)) pos
  = ret (Some (ConstExpr (AtomicType TYPE_INT32 u true)
                 (IntVals
                    (map (fun z => Z.lnot (wrap TYPE_INT32 z))
                       (firstn (Count g (AtomicType TYPE_INT32 u true)) v)))
                 pos)).
Proof.
  set (n := Count g (AtomicType TYPE_INT32 u true)).
  unfold UnaryExpr_Optimize.
  replace (Equal (GetAsUniformType (GetAsNonConstType
                                      (AtomicType TYPE_INT32 u c))) _ || _
           || _ || _ || _ || _) with false by reflexivity.
  replace (Equal (AtomicType TYPE_INT32 u c) Atomic.UniformInt32 || _ || _
           || _)
    with true by (destruct u, c; reflexivity).
  unfold AsInt32. rewrite AsInt_of_int by reflexivity.
  rewrite bind_ret_l. unfold ConstExpr_int32s.
  change (GetAsConstType (AtomicType TYPE_INT32 u c))
    with (AtomicType TYPE_INT32 u true).
  count_is n.
  replace (Equal (AtomicType TYPE_INT32 u true) Atomic.UniformConstInt32
           || Equal (AtomicType TYPE_INT32 u true) Atomic.VaryingConstInt32)
    with true by (destruct u; reflexivity).
  cbn [Assert]. rewrite bind_ret_l, bind_ret_l, map_map.
  now rewrite firstn_map, firstn_idem.
Qed.

Lemma lnot_in_range (bt : BasicType) (z : Z) :
  int_signed bt = true -> in_range bt z -> in_range bt (Z.lnot z).
Proof.
  unfold in_range, int_min, int_max, Z.lnot. intros ->. lia.
Qed.

(** X13.  The folds of [!] and of [~] are involutions: folding the operator
    over a bool constant, or over an int32 constant, and folding it
    again over the result gives back the lanes of the constant. *)
Theorem folding_not_twice_gives_the_constant_back (u c : bool)
    (bools : list bool) (ints : list Z) (cpos cpos' p1 p2 : SourcePos) :
  Forall (in_range TYPE_INT32) ints ->
  let n := Count g (AtomicType TYPE_BOOL u true) in
  (exists once : Expr,
      UnaryExpr_Optimize g UnaryOp.LogicalNot
        (Some (ConstExpr (AtomicType TYPE_BOOL u c) (BoolVals bools) cpos))
        p1 = ret (Some once)
      /\ UnaryExpr_Optimize g UnaryOp.LogicalNot (Some once) p2
         = ret (Some (ConstExpr (AtomicType TYPE_BOOL u true)
                        (BoolVals (firstn n bools)) p2)))
  /\ (exists once : Expr,
         UnaryExpr_Optimize g UnaryOp.BitNot
           (Some (ConstExpr (AtomicType TYPE_INT32 u c) (IntVals ints) cpos'))
           p1 = ret (Some once)
         /\ UnaryExpr_Optimize g UnaryOp.BitNot (Some once) p2
            = ret (Some (ConstExpr (AtomicType TYPE_INT32 u true)
                           (IntVals (firstn n ints)) p2))).
Proof.
  intros Hr n. split; eexists; split;
    first [apply fold_logical_not | apply fold_bit_not | idtac].
  - rewrite fold_logical_not. fold n.
    rewrite firstn_map, firstn_idem, map_map.
    do 4 f_equal. rewrite <- (map_id (firstn n bools)) at 2.
    apply map_ext. intros b. apply negb_involutive.
  - rewrite fold_bit_not.
    change (Count g (AtomicType TYPE_INT32 u true)) with n.
    rewrite firstn_map, firstn_idem, map_map.
    do 4 f_equal. rewrite <- (map_id (firstn n ints)) at 2.
    apply map_ext_in. intros z Hz.
    assert (Hzr : in_range TYPE_INT32 z).
    { apply (Forall_firstn _ n) in Hr.
      rewrite Forall_forall in Hr. now apply Hr. }
    rewrite (wrap_of_in_range TYPE_INT32 z Hzr).
    rewrite (wrap_of_in_range TYPE_INT32 (Z.lnot z))
      by (now apply lnot_in_range).
    apply Z.lnot_involutive.
Qed.

End CastFolding.

Lemma folded_integer_cast_is_in_range_witness :
  exists lanes : list Z,
    ConstExpr (AtomicType TYPE_INT8 true true) (IntVals [44]) 9%nat
    = ConstExpr (AtomicType TYPE_INT8 true true) (IntVals lanes) 9%nat
    /\ Forall (in_range TYPE_INT8) lanes
    /\ (List.length lanes
        <= Count Example.g64 (AtomicType TYPE_INT8 true false))%nat.
Proof.
  apply (folded_integer_cast_is_in_range Example.g64 TYPE_INT8 true false
           Atomic.UniformConstInt32 (IntVals [300]) 48%nat 9%nat false
           _ []);
    reflexivity.
Defined.

Lemma bool_constant_survives_a_round_trip_witness :
  TypeCastExpr_Optimize Example.g64 (Some (Example.uniform TYPE_INT32))
    (Some Example.false_literal) false 9%nat
  = ret (Some (ConstExpr Atomic.UniformConstInt32 (IntVals [0]) 9%nat))
  /\ TypeCastExpr_Optimize Example.g64 (Some (Example.uniform TYPE_BOOL))
       (Some (ConstExpr Atomic.UniformConstInt32 (IntVals [0]) 9%nat)) false 10%nat
     = ret (Some (ConstExpr Atomic.UniformConstBool (BoolVals [false])
                            10%nat)).
Proof.
  apply (bool_constant_survives_a_round_trip Example.g64 TYPE_INT32 true
           true false false false false [false] 46%nat 9%nat 10%nat).
  discriminate.
Defined.

Lemma folding_not_twice_gives_the_constant_back_witness :
  (exists once : Expr,
      UnaryExpr_Optimize Example.g64 UnaryOp.LogicalNot
        (Some Example.false_literal) 9%nat = ret (Some once)
      /\ UnaryExpr_Optimize Example.g64 UnaryOp.LogicalNot (Some once) 10%nat
         = ret (Some (ConstExpr Atomic.UniformConstBool (BoolVals [false])
                                10%nat)))
  /\ (exists once : Expr,
         UnaryExpr_Optimize Example.g64 UnaryOp.BitNot
           (Some (Example.int_literal 7)) 9%nat = ret (Some once)
         /\ UnaryExpr_Optimize Example.g64 UnaryOp.BitNot (Some once) 10%nat
            = ret (Some (ConstExpr Atomic.UniformConstInt32 (IntVals [7])
                                   10%nat))).
Proof.
  apply (folding_not_twice_gives_the_constant_back Example.g64 true true
           [false] [7] 46%nat 48%nat 9%nat 10%nat).
  apply Forall_cons; [|apply Forall_nil].
  split; apply Z.leb_le; reflexivity.
Defined.

Lemma cast_of_uniform_constant_smears_witness :
  BasicType_isInt TYPE_INT64 = true /\ BasicType_isInt TYPE_INT32 = true
  /\ TypeCastExpr_Optimize Example.g64
       (Some (Example.varying TYPE_INT64)) (Some (Example.int_literal 7))
       false 60%nat
     = ret (Some (ConstExpr (AtomicType TYPE_INT64 false true)
                    (IntVals (repeat (wrap TYPE_INT64 7)
                                (vectorWidth (target Example.g64))))
                    60%nat)).
Proof.
  split; [reflexivity|]. split; [reflexivity|].
  exact (cast_of_uniform_constant_smears Example.g64 TYPE_INT64 TYPE_INT32
           false true 7 [] 48%nat 60%nat false eq_refl eq_refl).
Defined.

(** * What an accepted assignment guarantees *)

Section Accepted.

Variable g : Globals.
Variable MoreGeneralType : Ty -> Ty -> SourcePos -> string -> M (option Ty).




End Accepted.


(** * What overload resolution binds *)

Section Bound.

Variable g : Globals.
Variable MoreGeneralType : Ty -> Ty -> SourcePos -> string -> M (option Ty).
Variable matchFunc : Ty -> Ty -> M Z.
Variable argCouldBeNULL : option (list bool).

Lemma argLoop_Matched (ft : Ty) (callTypes : list (option Ty)) :
  forall (i : nat) (cost c : Z) (d : list Diag),
    argLoop matchFunc argCouldBeNULL ft callTypes i cost = (Ok (Matched c), d) ->
    forallb knownArgument callTypes = true.
Proof.
  induction callTypes as [|t rest IH]; intros i cost c d H; [reflexivity|].
  cbn [argLoop] in H. cbn [forallb].
  destruct t as [ty|]; [|discriminate H].
  destruct (GetParameterType ft i) as [pt|]; [|discriminate H].
  cbn [knownArgument].
  destruct (isFunctionType ty); [discriminate H|]. cbn [negb andb].
  apply bind_Ok_inv in H. destruct H as (a & d1 & d2 & _ & H & _).
  destruct (Z.eqb a (-1)).
  - destruct (_ && _); [|discriminate H]. exact (IH _ _ _ _ H).
  - exact (IH _ _ _ _ H).
Qed.

Lemma candidateLoop_fits (callTypes : list (option Ty))
    (candidates : list Symbol) :
  forall (acc ms : list (Z * Symbol)) (d : list Diag),
    candidateLoop matchFunc argCouldBeNULL candidates callTypes acc
    = (Ok (Some ms), d) ->
    forall c, In c ms ->
      In c acc
      \/ (In (snd c) candidates
          /\ isFunctionType (sym_type (snd c)) = true
          /\ fitsCall (snd c) (List.length callTypes) = true
          /\ forallb knownArgument callTypes = true).
Proof.
  induction candidates as [|f rest IH]; intros acc ms d H c Hc.
  - inversion H; subst. now left.
  - cbn [candidateLoop] in H.
    apply bind_Ok_inv in H. destruct H as (u & d1 & d2 & Hfun & H & _).
    assert (isFunctionType (sym_type f) = true) as Hft.
    { unfold Assert in Hfun. now destruct (isFunctionType (sym_type f)). }
    assert (forall acc' d', candidateLoop matchFunc argCouldBeNULL rest
                           callTypes acc' = (Ok (Some ms), d') ->
                         (forall x, In x acc' ->
                            In x acc
                            \/ (In (snd x) (f :: rest)
                                /\ isFunctionType (sym_type (snd x)) = true
                                /\ fitsCall (snd x) (List.length callTypes)
                                   = true
                                /\ forallb knownArgument callTypes = true)) ->
                         In c acc
                         \/ (In (snd c) (f :: rest)
                             /\ isFunctionType (sym_type (snd c)) = true
                             /\ fitsCall (snd c) (List.length callTypes) = true
                             /\ forallb knownArgument callTypes = true))
      as Hrest.
    { intros acc' d' H' Hacc.
      destruct (IH _ _ _ H' c Hc) as [Hin|(Hin & Hf & Hfit & Hk)].
      - now apply Hacc.
      - right. split; [now right|now repeat split]. }
    destruct (Nat.ltb _ _) eqn:Hlt.
    + apply (Hrest acc _ H). intros x Hx. now left.
    + apply bind_Ok_inv in H. destruct H as (r & d3 & d4 & Ha & H & _).
      assert (forall cost acc',
                acc' = acc ++ [(cost, f)] ->
                fitsCall f (List.length callTypes) = true ->
                forallb knownArgument callTypes = true ->
                forall x, In x acc' ->
                  In x acc
                  \/ (In (snd x) (f :: rest)
                      /\ isFunctionType (sym_type (snd x)) = true
                      /\ fitsCall (snd x) (List.length callTypes) = true
                      /\ forallb knownArgument callTypes = true)) as Hnew.
      { intros cost acc' -> Hfit Hk x Hx. apply in_app_or in Hx.
        destruct Hx as [Hx|[<-|[]]]; [now left|right].
        split; [now left|now repeat split]. }
      destruct r as [| |cost]; [discriminate H| |].
      * apply (Hrest acc _ H). intros x Hx. now left.
      * pose proof (argLoop_Matched _ _ _ _ _ _ Ha) as Hk.
        destruct (Nat.eqb _ _) eqn:Heq.
        -- apply (Hrest _ _ H). apply (Hnew cost); [reflexivity| |exact Hk].
           unfold fitsCall. now rewrite Heq.
        -- destruct (_ && _) eqn:Hdef.
           ++ apply (Hrest _ _ H). apply (Hnew cost); [reflexivity| |exact Hk].
              unfold fitsCall. rewrite Hdef. apply orb_true_r.
           ++ apply (Hrest acc _ H). intros x Hx. now left.
Qed.

Lemma scan_member (minCost : Z) (l : list (Z * Symbol)) :
  forall (m : option Symbol) (f : Symbol),
    (fix scan (l : list (Z * Symbol)) (match_ : option Symbol)
       : option Symbol :=
       match l with
       | [] => match_
       | c :: r =>
           if Z.eqb (fst c) minCost then
             match match_ with
             | Some _ => None
             | None => scan r (Some (snd c))
             end
           else scan r match_
       end) l m = Some f ->
    m = Some f \/ exists c, In c l /\ snd c = f.
Proof.
  induction l as [|c r IH]; intros m f H; [now left|].
  destruct (Z.eqb (fst c) minCost).
  - destruct m; [discriminate H|].
    destruct (IH _ _ H) as [Hm|(x & Hx & Hs)].
    + inversion Hm. right. exists c. split; [now left|reflexivity].
    + right. exists x. split; [now right|exact Hs].
  - destruct (IH _ _ H) as [Hm|(x & Hx & Hs)]; [now left|].
    right. exists x. split; [now right|exact Hs].
Qed.

Lemma lGetBestMatch_member (matches : list (Z * Symbol))
    (best : option Symbol) (d : list Diag) (f : Symbol) :
  lGetBestMatch matches = (Ok best, d) ->
  best = Some f ->
  exists c, In c matches /\ snd c = f.
Proof.
  unfold lGetBestMatch. destruct matches as [|first rest];
    [discriminate|]. intros H ->. inversion H as [Hs].
  destruct (scan_member (minCostOf (fst first) rest) (first :: rest) None f
              Hs) as [Hm|Hm]; [discriminate Hm|exact Hm].
Qed.

Lemma tryResolve_answers (this : FunctionSymbol) (argPos : SourcePos)
    (argTypes : list (option Ty)) (ok : bool) (this' : FunctionSymbol)
    (d : list Diag) :
  tryResolve matchFunc argCouldBeNULL this argPos argTypes
  = (Ok (ok, this'), d) ->
  if ok then boundTo this argTypes this' d else this' = this.
Proof.
  unfold tryResolve. destruct (candidateFunctions this) as [|front more] eqn:Hc;
    [discriminate|]. intros H.
  apply bind_Ok_inv in H. destruct H as (r & d1 & d2 & Hl & H & ->).
  destruct r as [[|first rest]|]; try (inversion H; subst; reflexivity).
  apply bind_Ok_inv in H. destruct H as (best & d3 & d4 & Hb & H & ->).
  destruct best as [f|].
  - inversion H; subst. unfold boundTo. cbn. rewrite ?Hc.
    split; [reflexivity|]. split; [reflexivity|].
    destruct (lGetBestMatch_member _ _ _ f Hb eq_refl) as (c & Hin & <-).
    destruct (candidateLoop_fits _ _ _ _ _ Hl c Hin) as [[]|Hfit].
    exact Hfit.
  - cbn [bind emit] in H. unfold lPrintOverloadCandidates in H.
    cbn in H. inversion H; subst. unfold boundTo. cbn. rewrite ?Hc.
    split; [reflexivity|]. split; [reflexivity|].
    exists (sym_name front). apply in_or_app. right. apply in_or_app. right.
    now left.
Qed.

End Bound.

Lemma boundTo_later (this : FunctionSymbol) (argTypes : list (option Ty))
    (this' : FunctionSymbol) (d1 d2 d3 : list Diag) :
  boundTo this argTypes this' d2 -> boundTo this argTypes this' (d1 ++ d2 ++ d3).
Proof.
  unfold boundTo. intros (Hc & Hp & Hm). split; [exact Hc|].
  split; [exact Hp|]. destruct (matchingFunc this'); [exact Hm|].
  destruct Hm as (name & Hin). exists name.
  apply in_or_app. right. apply in_or_app. now left.
Qed.

Lemma tryTiers_answers (argCouldBeNULL : option (list bool))
    (argPos : SourcePos) (argTypes : list (option Ty))
    (tiers : list (Ty -> Ty -> M Z)) :
  forall (this : FunctionSymbol) (ok : bool) (this' : FunctionSymbol)
         (d : list Diag),
    tryTiers tiers argCouldBeNULL this argPos argTypes = (Ok (ok, this'), d) ->
    if ok then boundTo this argTypes this' d else this' = this.
Proof.
  induction tiers as [|m rest IH]; intros this ok this' d H.
  - inversion H; subst. reflexivity.
  - cbn [tryTiers] in H.
    apply bind_Ok_inv in H. destruct H as ([b s] & d1 & d2 & Hr & H & ->).
    apply tryResolve_answers in Hr. cbn [fst snd] in H.
    destruct b.
    + inversion H; subst.
      apply (boundTo_later _ _ _ [] d1 []). exact Hr.
    + subst s. specialize (IH _ _ _ _ H). destruct ok; [|exact IH].
      rewrite <- (app_nil_r d2). now apply boundTo_later.
Qed.

Section Binding.

Variable g : Globals.
Variable MoreGeneralType : Ty -> Ty -> SourcePos -> string -> M (option Ty).

Lemma ResolveOverloads_answers (this : FunctionSymbol)
    (argPos : SourcePos) (argTypes : list (option Ty))
    (argCouldBeNULL : option (list bool)) (this' : FunctionSymbol)
    (d : list Diag) :
  ResolveOverloads g MoreGeneralType this argPos argTypes argCouldBeNULL
  = (Ok (true, this'), d) ->
  boundTo this argTypes this' d.
Proof.
  rewrite ResolveOverloads_tryTiers. intros H.
  apply bind_Ok_inv in H. destruct H as ([b s] & d1 & d2 & Hr & H & ->).
  apply tryTiers_answers in Hr. unfold afterTiers in H. cbn [fst snd] in H.
  destruct b.
  - inversion H; subst. apply (boundTo_later _ _ _ [] d1 []) in Hr.
    exact Hr.
  - destruct (candidateFunctions s); discriminate H.
Qed.

(** X15.  When [ResolveOverloads] answers true and has bound a function, the
    function is one of the candidates, its type is a function type, it
    has as many parameters as the call has arguments, or more with a
    default value for the first one not given, and the type of every
    argument is known and is not a function type.  When it answers true
    without a function, it has reported that several overloads
    matched. *)
Theorem bound_function_fits_the_call (this : FunctionSymbol)
    (argPos : SourcePos) (argTypes : list (option Ty))
    (argCouldBeNULL : option (list bool)) (this' : FunctionSymbol)
    (d : list Diag) :
  ResolveOverloads g MoreGeneralType this argPos argTypes argCouldBeNULL
  = (Ok (true, this'), d) ->
  candidateFunctions this' = candidateFunctions this
  /\ match matchingFunc this' with
     | Some f =>
         In f (candidateFunctions this)
         /\ isFunctionType (sym_type f) = true
         /\ fitsCall f (List.length argTypes) = true
         /\ forallb knownArgument argTypes = true
     | None =>
         exists name,
           In (Error (fse_pos this) (MultipleOverloadsMatched name)) d
     end.
Proof.
  intros H. apply ResolveOverloads_answers in H.
  destruct H as (Hc & _ & Hm). split; [exact Hc|exact Hm].
Qed.

(** X16.  A call through a function that [ResolveOverloads] has bound has the
    return type of that function, and asking for it reports nothing. *)
Theorem resolved_call_has_the_return_type (this : FunctionSymbol)
    (argPos : SourcePos) (argTypes : list (option Ty))
    (argCouldBeNULL : option (list bool)) (this' : FunctionSymbol)
    (d : list Diag) (f : Symbol) (args : option Expr) (isLaunch : bool)
    (launchCountExpr : option Expr) (pos : SourcePos) :
  ResolveOverloads g MoreGeneralType this argPos argTypes argCouldBeNULL
  = (Ok (true, this'), d) ->
  matchingFunc this' = Some f ->
  (exists r, GetReturnType (sym_type f) = Some r
             /\ GetType g MoreGeneralType
                  (FunctionCallExpr (Some (FunctionSymbolExpr this')) args
                     isLaunch launchCountExpr pos)
                = ret (Some r)).
Proof.
  intros H Hf. apply ResolveOverloads_answers in H.
  destruct H as (_ & _ & Hm). rewrite Hf in Hm.
  destruct Hm as (_ & Hft & _).
  destruct (sym_type f) as [| | | | | | |r ps ds t] eqn:Hty;
    try discriminate Hft.
  exists r. split; [reflexivity|].
  cbn [GetType]. rewrite Hf.
  destruct (triedToResolve this'); rewrite bind_ret_l;
    cbn [lGetFunctionType isFunctionType isPointerType GetBaseType];
    rewrite Hty; reflexivity.
Qed.

End Binding.

Lemma bound_function_fits_the_call_witness :
  ResolveOverloads Example.g64 Example.noGeneralType Example.call_f_int
    20%nat [Some (Example.varying TYPE_INT32)] (Some [false])
  = (Ok (true, bindTo (markTried Example.call_f_int) (Some Example.f_int)),
     [])
  /\ In Example.f_int (candidateFunctions Example.call_f_int)
  /\ fitsCall Example.f_int 1 = true.
Proof.
  assert (ResolveOverloads Example.g64 Example.noGeneralType
            Example.call_f_int 20%nat [Some (Example.varying TYPE_INT32)]
            (Some [false])
          = (Ok (true, bindTo (markTried Example.call_f_int)
                         (Some Example.f_int)), [])) as H
    by reflexivity.
  split; [exact H|].
  destruct (bound_function_fits_the_call Example.g64 Example.noGeneralType
              _ _ _ _ _ _ H) as (_ & Hin & _ & Hfit & _).
  split; [exact Hin|exact Hfit].
Defined.

Lemma resolved_call_has_the_return_type_witness :
  exists r,
    GetReturnType (sym_type Example.f_int) = Some r
    /\ GetType Example.g64 Example.noGeneralType
         (FunctionCallExpr
            (Some (FunctionSymbolExpr
                     (bindTo (markTried Example.call_f_int)
                             (Some Example.f_int))))
            None false None 21%nat)
       = ret (Some r).
Proof.
  apply (resolved_call_has_the_return_type Example.g64
           Example.noGeneralType Example.call_f_int 20%nat
           [Some (Example.varying TYPE_INT32)] (Some [false]) _ []);
    reflexivity.
Defined.

(** * A type-checked unary expression folds without an abort *)

Lemma bindC_Ok_inv {A B} (m : MC A) (k : A -> MC B) (b : B)
    (d : list CheckDiag) :
  bindC m k = (Ok b, d) ->
  exists a d1 d2, m = (Ok a, d1) /\ k a = (Ok b, d2) /\ d = d1 ++ d2.
Proof.
  destruct m as [[a| | |] d1]; cbn; intros H; try discriminate H.
  destruct (k a) as [o d2] eqn:Ek. inversion H; subst.
  now exists a, d1, d2.
Qed.

Lemma lift_Ok_inv {A} (m : M A) (a : A) (d : list CheckDiag) :
  lift m = (Ok a, d) -> exists d0, m = (Ok a, d0).
Proof.
  destruct m as [o d0]. unfold lift. cbn. intros H. inversion H; subst.
  now exists d0.
Qed.

Lemma bind_not_fatal {A B} (m : M A) (k : A -> M B) :
  outcome m <> Fatal -> (forall a, outcome (k a) <> Fatal) ->
  outcome (bind m k) <> Fatal.
Proof.
  unfold outcome. destruct m as [[a| | |] d]; cbn; intros Hm Hk;
    try discriminate; [|now elim Hm].
  specialize (Hk a). destruct (k a). exact Hk.
Qed.

Lemma mapM_not_fatal {A B} (f : A -> M B) (l : list A) :
  (forall x, outcome (f x) <> Fatal) -> outcome (mapM f l) <> Fatal.
Proof.
  intros Hf. induction l as [|x r IH]; [discriminate|].
  cbn [mapM]. apply bind_not_fatal; [apply Hf|]. intros y.
  apply bind_not_fatal; [exact IH|discriminate].
Qed.

Lemma float_to_int_not_fatal (bt : BasicType) (f : spec_float) :
  outcome (float_to_int bt f) <> Fatal.
Proof.
  unfold float_to_int. destruct (SFtrunc f); [|discriminate].
  now destruct (_ && _).
Qed.

Section Checked.

Variable g : Globals.
Variable MoreGeneralType : Ty -> Ty -> SourcePos -> string -> M (option Ty).
Variable IsNumericType : Ty -> bool.

Lemma getBasicType_constant (type : Ty) :
  (isAtomicType type && negb (isVoidType type)) || isEnumType type = true ->
  exists bt, getBasicType type = ret bt /\ bt <> TYPE_VOID.
Proof.
  destruct type as [bt u c| | | | | | |]; try discriminate.
  - cbn. rewrite orb_false_r. intros H. exists bt. split; [reflexivity|].
    intros ->. discriminate H.
  - intros _. exists TYPE_UINT32. split; [reflexivity|discriminate].
Qed.

Lemma convertLanes_not_fatal {X} (fb : bool -> M X)
    (fi : BasicType -> Z -> M X) (ff fd : spec_float -> M X) (type : Ty)
    (vals : ConstVals) :
  (isAtomicType type && negb (isVoidType type)) || isEnumType type = true ->
  (forall b, outcome (fb b) <> Fatal) ->
  (forall bt z, outcome (fi bt z) <> Fatal) ->
  (forall f, outcome (ff f) <> Fatal) ->
  (forall f, outcome (fd f) <> Fatal) ->
  outcome (convertLanes g fb fi ff fd type vals) <> Fatal.
Proof.
  intros Hwf Hb Hi Hf Hd. unfold convertLanes.
  destruct (getBasicType_constant _ Hwf) as (bt & -> & Hbt).
  rewrite bind_ret_l.
  destruct bt, vals; try discriminate; try (now elim Hbt);
    now apply mapM_not_fatal.
Qed.

Lemma As_not_fatal (type : Ty) (vals : ConstVals) :
  (isAtomicType type && negb (isVoidType type)) || isEnumType type = true ->
  outcome (AsDouble g type vals) <> Fatal
  /\ outcome (AsBool g type vals) <> Fatal
  /\ (forall bt, outcome (AsInt g bt type vals) <> Fatal).
Proof.
  intros Hwf. repeat split; intros;
    apply convertLanes_not_fatal; try exact Hwf; intros;
    try discriminate; apply float_to_int_not_fatal.
Qed.

Lemma increment_not_folded (op : UnaryOp.Op) (x : option Expr)
    (pos : SourcePos) :
  isIncrement op = true ->
  outcome (UnaryExpr_Optimize g op x pos) <> Fatal.
Proof.
  intros Hop. unfold UnaryExpr_Optimize.
  destruct x as [[]|]; try discriminate. cbv zeta.
  match goal with
  | |- outcome (if ?c then _ else _) <> _ => destruct c
  end; [discriminate|].
  destruct op; try discriminate Hop; discriminate.
Qed.

Lemma operand_not_constant (op : UnaryOp.Op) (x : Expr) (pos : SourcePos) :
  isConstExpr x = false ->
  UnaryExpr_Optimize g op (Some x) pos
  = ret (Some (UnaryExpr op (Some x) pos)).
Proof. now destruct x. Qed.

Lemma fromDoubles_not_fatal (type : Ty) (p : SourcePos)
    (v : list spec_float) (bt : BasicType) :
  getBasicType type = ret bt ->
  bt <> TYPE_VOID -> bt <> TYPE_INT64 -> bt <> TYPE_UINT64 ->
  outcome (ConstExpr_fromDoubles g type p v) <> Fatal.
Proof.
  intros Hbt Hv H64 Hu64. unfold ConstExpr_fromDoubles.
  rewrite Hbt, bind_ret_l.
  destruct bt; try discriminate; try (now elim Hv); try (now elim H64);
    try (now elim Hu64);
    (apply bind_not_fatal; [|discriminate]);
    apply mapM_not_fatal; intros x;
    (apply bind_not_fatal; [apply float_to_int_not_fatal|discriminate]).
Qed.

Lemma negate_folds (type : Ty) (vals : ConstVals) (cpos pos : SourcePos) :
  (isAtomicType type && negb (isVoidType type)) || isEnumType type = true ->
  outcome (UnaryExpr_Optimize g UnaryOp.Negate
             (Some (ConstExpr type vals cpos)) pos) <> Fatal.
Proof.
  intros Hwf. unfold UnaryExpr_Optimize. cbv zeta.
  match goal with
  | |- outcome (if ?c then _ else _) <> _ => destruct c eqn:Hearly
  end; [discriminate|].
  apply bind_not_fatal; [now apply As_not_fatal|]. intros v.
  apply bind_not_fatal; [|discriminate].
  destruct (getBasicType_constant _ Hwf) as (bt & Hbt & Hv).
  apply (fromDoubles_not_fatal _ _ _ bt Hbt Hv).
  - intros ->. destruct type as [b u c| | | | | | |]; try discriminate Hbt.
    inversion Hbt; subst. now destruct u, c.
  - intros ->. destruct type as [b u c| | | | | | |]; try discriminate Hbt.
    inversion Hbt; subst. now destruct u, c.
Qed.

Ltac decide_if :=
  repeat match goal with
         | |- outcome (if ?c then _ else _) <> _ =>
             let v := eval vm_compute in c in
             change c with v; cbv iota
         | |- outcome (bind (Assert ?c) _) <> _ =>
             let v := eval vm_compute in c in
             change c with v; cbv iota; unfold Assert; rewrite bind_ret_l
         end.

Ltac folded vals :=
  first
    [ discriminate
    | apply bind_not_fatal; [now apply (As_not_fatal _ vals)|];
      intros ?v; apply bind_not_fatal; [|discriminate];
      unfold ConstExpr_int32s, ConstExpr_uint32s, ConstExpr_bools;
      cbv zeta;
      match goal with
      | |- outcome (bind (Assert ?c) _) <> _ =>
          let v := eval vm_compute in c in
          change c with v; discriminate
      end ].

Lemma bit_not_folds (type : Ty) (vals : ConstVals) (cpos pos : SourcePos) :
  (isAtomicType type && negb (isVoidType type)) || isEnumType type = true ->
  IsIntType type = true ->
  outcome (UnaryExpr_Optimize g UnaryOp.BitNot
             (Some (ConstExpr type vals cpos)) pos) <> Fatal.
Proof.
  intros Hwf Hint. unfold UnaryExpr_Optimize. cbv zeta.
  destruct type as [bt u c|n u c| | | | | |]; try discriminate Hwf.
  - destruct bt; try discriminate Hint; destruct u, c; decide_if;
      folded vals.
  - decide_if. folded vals.
Qed.

Lemma logical_not_folds (u : bool) (vals : ConstVals) (cpos pos : SourcePos) :
  outcome (UnaryExpr_Optimize g UnaryOp.LogicalNot
             (Some (ConstExpr (AtomicType TYPE_BOOL u false) vals cpos)) pos)
  <> Fatal.
Proof.
  unfold UnaryExpr_Optimize. cbv zeta. destruct u; decide_if; folded vals.
Qed.

Ltac walk_in H :=
  repeat first
    [ rewrite bind_ret_l in H
    | match type of H with
      | (if ?c then _ else _) = _ =>
          let E := fresh "E" in destruct c eqn:E
      | bind (if ?c then _ else _) _ = _ =>
          let E := fresh "E" in destruct c eqn:E
      | bind (Assert ?c) _ = _ =>
          let E := fresh "E" in
          destruct c eqn:E; [cbn [Assert] in H|discriminate H]
      | bind (error_unless ?f _ _) _ = (Ok (true, _), _) =>
          destruct f; discriminate H
      end ].

(** The expression an implicit conversion hands back is the one it was
    given, or one that is not a constant. *)
Lemma converted_shape (fuel : nat) :
  forall (fromType toType : option Ty) (e : Expr) (failureOk : bool)
         (what : option string) (pos : SourcePos) (x' : option Expr)
         (d : list Diag),
    lDoTypeConv g MoreGeneralType fuel fromType toType (Some e) failureOk
      what pos = (Ok (true, x'), d) ->
    exists x, x' = Some x
      /\ ((x = e
           /\ match fromType, toType with
              | Some f, Some t => Equal t f = true \/ isPointerType f = true
              | _, _ => False
              end)
          \/ isConstExpr x = false).
Proof.
  induction fuel as [|fuel IH];
    intros fromType toType e failureOk what pos x' d H; [discriminate H|].
  cbn [lDoTypeConv] in H. unfold typecast_ok in H. cbn [option_map] in H.
  assert (Hrec : forall t x d',
            isConstExpr x = false ->
            (r <- lDoTypeConv g MoreGeneralType fuel t toType (Some x)
                    failureOk what pos ;;
             if fst r then ret (true, snd r) else ret (false, Some e))
            = (Ok (true, x'), d') ->
            exists y, x' = Some y
              /\ ((y = e
                   /\ match fromType, toType with
                      | Some f, Some t => Equal t f = true \/ isPointerType f = true
                      | _, _ => False
                      end)
                  \/ isConstExpr y = false)).
  { intros t x d' Hx Hr. apply bind_Ok_inv in Hr.
    destruct Hr as ([b y'] & d1 & d2 & Hin & Hr & _). cbn [fst snd] in Hr.
    destruct b; [|discriminate Hr]. inversion Hr; subst.
    destruct (IH _ _ _ _ _ _ _ _ Hin) as (y & Hy' & Hc).
    exists y. split; [exact Hy'|]. right.
    destruct Hc as [(Hy & _)|Hy]; [now rewrite Hy|exact Hy]. }
  walk_in H. 
  all: destruct toType as [toType|], fromType as [fromType|];
    try discriminate H.
  all: walk_in H.
  all: try (inversion H; subst; eexists; split; [reflexivity|];
            first [now right | left; split; [reflexivity|]; auto]; fail).
  all: try match type of H with
           | bind (lIsAllIntZeros _ _ _) _ = _ =>
               apply bind_Ok_inv in H;
               destruct H as ([|] & ?da & ?db & _ & H & _);
               cbv beta iota in H
           end.
  all: walk_in H.
  all: try (inversion H; subst; eexists; split; [reflexivity|];
            first [now right | left; split; [reflexivity|]; auto]; fail).
  all: match type of H with
       | bind (lDoTypeConv _ _ _ _ _ _ _ _ _) _ = _ =>
           eapply Hrec; [|exact H]; reflexivity
       | bind (GetType _ _ _) _ = _ =>
           apply bind_Ok_inv in H;
           destruct H as (?t & ?da & ?db & _ & H & _);
           eapply Hrec; [|exact H]; reflexivity
       end.
Qed.

Lemma TypeConvertExpr_shape (e : Expr) (toType : Ty)
    (what : option string) (x : Expr) (d : list Diag) :
  TypeConvertExpr g MoreGeneralType (Some e) (Some toType) what
  = (Ok (Some x), d) ->
  (x = e
   /\ exists fromType dt,
        GetType g MoreGeneralType e = (Ok (Some fromType), dt)
        /\ (Equal toType fromType = true \/ isPointerType fromType = true))
  \/ isConstExpr x = false.
Proof.
  unfold TypeConvertExpr. intros H.
  apply bind_Ok_inv in H. destruct H as (from & dt & d2 & Hty & H & _).
  apply bind_Ok_inv in H. destruct H as ([b x'] & d3 & d4 & Hc & H & _).
  cbn [fst snd] in H. destruct b; [|discriminate H].
  inversion H; subst.
  destruct (converted_shape _ _ _ _ _ _ _ _ _ Hc) as (y & Hy & Hs).
  inversion Hy; subst.
  destruct Hs as [(-> & Hs)|Hs]; [left|now right].
  split; [reflexivity|]. destruct from as [from|]; [|contradiction].
  now exists from, dt.
Qed.

(** X18.  A unary expression that [UnaryExpr::TypeCheck] accepts is folded by
    [UnaryExpr::Optimize] without an abort of the compiler, whatever its
    operand, as long as a constant operand has a type [ConstExpr] is
    built with: the check has rejected the operands on which the
    folding of [~] and of [!] would stop in [FATAL] or [Assert], or has
    wrapped them in a type cast. *)
Theorem checked_unary_folds_without_abort (op : UnaryOp.Op) (e u : Expr)
    (pos : SourcePos) (d : list CheckDiag) :
  constantTyped e = true ->
  UnaryExpr_TypeCheck g MoreGeneralType IsNumericType op (Some e) pos
  = (Ok (Some u), d) ->
  exists e' : Expr,
    u = UnaryExpr op (Some e') pos
    /\ outcome (UnaryExpr_Optimize g op (Some e') pos) <> Fatal.
Proof.
  intros Hwf H. unfold UnaryExpr_TypeCheck in H.
  apply bindC_Ok_inv in H. destruct H as (ty & d1 & d2 & Hty & H & _).
  apply lift_Ok_inv in Hty. destruct Hty as (dt & Hty).
  destruct ty as [ty|]; [|discriminate H].
  destruct (isIncrement op) eqn:Hinc.
  { exists e.
    split; [|now apply increment_not_folded].
    destruct (IsConstType ty); [discriminate H|].
    destruct (IsNumericType ty); [now inversion H|].
    destruct (negb (isPointerType ty)); [discriminate H|].
    destruct (IsVoidPointer ty); [discriminate H|]. now inversion H. }
  apply bindC_Ok_inv in H. destruct H as ([e1 t1] & d3 & d4 & Hd & H & _).
  cbn [fst snd] in H. destruct t1 as [t1|]; [|discriminate H].
  assert (Hkept : isConstExpr e1 = true -> e1 = e /\ t1 = ty).
  { destruct (isReferenceType ty).
    - apply bindC_Ok_inv in Hd.
      destruct Hd as (t & d5 & d6 & _ & Hd & _). inversion Hd; subst.
      discriminate.
    - inversion Hd; subst. auto. }
  assert (Hconst : forall type vals cpos,
            e = ConstExpr type vals cpos ->
            ty = type
            /\ (isAtomicType type && negb (isVoidType type))
               || isEnumType type = true).
  { intros type vals cpos ->. cbn in Hty. inversion Hty; subst.
    split; [reflexivity|exact Hwf]. }
  destruct op; try discriminate Hinc.
  - (* Negate *)
    destruct (negb (IsNumericType t1)); [discriminate H|].
    inversion H; subst. exists e1. split; [reflexivity|].
    destruct (isConstExpr e1) eqn:Hc;
      [|rewrite operand_not_constant by exact Hc; discriminate].
    destruct (Hkept eq_refl) as (-> & ->).
    destruct e; try discriminate Hc.
    destruct (Hconst _ _ _ eq_refl) as (_ & Hw). now apply negate_folds.
  - (* LogicalNot *)
    apply bindC_Ok_inv in H. destruct H as (bt & d5 & d6 & Hb & H & _).
    apply lift_Ok_inv in Hb. destruct Hb as (db & Hb).
    apply bindC_Ok_inv in H. destruct H as (c & d7 & d8 & Hc & H & _).
    apply lift_Ok_inv in Hc. destruct Hc as (dc & Hc).
    destruct c as [x|]; [|discriminate H]. inversion H; subst.
    exists x. split; [reflexivity|].
    destruct (TypeConvertExpr_shape _ _ _ _ _ Hc)
      as [(-> & from & dt' & Hfrom & Hs)|Hx];
      [|rewrite operand_not_constant by exact Hx; discriminate].
    destruct (isConstExpr e1) eqn:Hc1;
      [|rewrite operand_not_constant by exact Hc1; discriminate].
    destruct (Hkept eq_refl) as (-> & ->).
    destruct e as [type vals cpos| | | | | | | | | | | |];
      try discriminate Hc1.
    destruct (Hconst _ _ _ eq_refl) as (-> & Hw).
    cbn in Hfrom. inversion Hfrom; subst from dt'.
    destruct type as [b k c| | | | | | |]; try discriminate Hw.
    + cbn in Hb. inversion Hb; subst bt.
      destruct Hs as [Hs|Hs]; [|discriminate Hs].
      destruct k; apply Equal_eq in Hs; inversion Hs; subst;
        apply logical_not_folds.
    + cbn in Hb. discriminate Hb.
  - (* BitNot *)
    destruct (negb (IsIntType t1)) eqn:Hint; [discriminate H|].
    inversion H; subst. exists e1. split; [reflexivity|].
    destruct (isConstExpr e1) eqn:Hc;
      [|rewrite operand_not_constant by exact Hc; discriminate].
    destruct (Hkept eq_refl) as (-> & ->).
    destruct e; try discriminate Hc.
    destruct (Hconst _ _ _ eq_refl) as (-> & Hw).
    apply bit_not_folds; [exact Hw|].
    now destruct (IsIntType type).
Qed.

Lemma lift_ret_inv {A} (m : M A) (a b : A) (d : list CheckDiag) :
  m = ret a -> lift m = (Ok b, d) -> b = a /\ d = [].
Proof. intros -> H. inversion H. auto. Qed.

(** [!] on an operand of enum type: the type check does not return. *)
Lemma logical_not_of_enum_stops (e : Expr) (n : string) (u c : bool)
    (pos : SourcePos) :
  GetType g MoreGeneralType e = ret (Some (EnumType n u c)) ->
  UnaryExpr_TypeCheck g MoreGeneralType IsNumericType UnaryOp.LogicalNot
    (Some e) pos
  = (Fatal, []).
Proof.
  intros H. unfold UnaryExpr_TypeCheck. rewrite H. reflexivity.
Qed.

(** X19.  Whenever [UnaryExpr::TypeCheck] returns, for an operand whose
    type is computed without a report: if it returns the expression it
    has reported nothing, and if it returns the error sentinel it has
    reported exactly one error.  (It does not always return: [!] on an
    operand of enum or struct type stops on the assertion of
    [lMatchingBoolType].) *)
Theorem unary_check_reports_once (op : UnaryOp.Op) (e : Expr) (ty : Ty)
    (pos : SourcePos) (r : option Expr) (d : list CheckDiag) :
  GetType g MoreGeneralType e = ret (Some ty) ->
  UnaryExpr_TypeCheck g MoreGeneralType IsNumericType op (Some e) pos
  = (Ok r, d) ->
  match r with
  | Some _ => d = []
  | None =>
      (exists p m, d = [Reported (Error p m)])
      \/ (exists p m, d = [UnaryError p m])
  end.
Proof.
  intros Hty H. unfold UnaryExpr_TypeCheck in H. rewrite Hty in H.
  change (lift (ret (Some ty))) with (retC (Some ty)) in H.
  cbn [bindC retC] in H.
  match type of H with
  | (let (o, d') := ?c in _) = _ => destruct c as [o d'] eqn:Hc
  end.
  cbn [app] in H. inversion H; subst o d'. clear H. rename Hc into H.
  destruct (isIncrement op) eqn:Hinc.
  { destruct (IsConstType ty);
      [inversion H; subst; left; eauto|].
    destruct (IsNumericType ty); [now inversion H|].
    destruct (negb (isPointerType ty));
      [inversion H; subst; right; eauto|].
    destruct (IsVoidPointer ty);
      [inversion H; subst; right; eauto|]. now inversion H. }
  assert (exists e1 t1,
            GetType g MoreGeneralType e1 = ret (Some t1)
            /\ (if isReferenceType ty then
                  bindC (lift (GetType g MoreGeneralType
                                 (DereferenceExpr (Some e) pos)))
                        (fun t => retC (DereferenceExpr (Some e) pos, t))
                else retC (e, Some ty))
               = retC (e1, Some t1)) as (e1 & t1 & Ht1 & Hd).
  { destruct ty; cbn [isReferenceType];
      try (exists e; eexists; split; [exact Hty|reflexivity]).
    eexists; eexists. split; [apply GetType_Dereference; exact Hty|].
    rewrite (GetType_Dereference _ _ e _ pos Hty). reflexivity. }
  rewrite Hd in H. cbn [bindC retC fst snd] in H.
  match type of H with
  | (let (o, d') := ?c in _) = _ => destruct c as [o d'] eqn:Hc
  end.
  cbn [app] in H. inversion H; subst o d'. clear H. rename Hc into H.
  destruct op; try discriminate Hinc.
  - destruct (negb (IsNumericType t1));
      inversion H; subst; [right; eauto|reflexivity].
  - apply bindC_Ok_inv in H. destruct H as (bt & d5 & d6 & Hb & H & ->).
    assert (d5 = []) as ->.
    { unfold lMatchingBoolType in Hb. destruct t1; cbn in Hb;
        try (inversion Hb; reflexivity);
        try discriminate Hb. }
    apply bindC_Ok_inv in H. destruct H as (c & d7 & d8 & Hc & H & ->).
    destruct (TypeConvertExpr g MoreGeneralType (Some e1) (Some bt)
                (Some "logical not")) as [oc dc] eqn:Hconv.
    unfold lift in Hc. cbn [fst snd] in Hc. inversion Hc; subst oc d7.
    pose proof (conversion_diagnostics g MoreGeneralType _ _ _ _ _ _ Ht1
                  Hconv) as Hdiag.
    destruct c as [x|].
    + inversion H; subst. reflexivity.
    + destruct Hdiag as (m & Hm). inversion H; subst. left. cbn. eauto.
  - destruct (negb (IsIntType t1));
      inversion H; subst; [right; eauto|reflexivity].
Qed.

End Checked.

Lemma checked_unary_folds_without_abort_witness :
  constantTyped (Example.int_literal 7) = true
  /\ exists e' : Expr,
       UnaryExpr UnaryOp.BitNot (Some (Example.int_literal 7)) 70%nat
       = UnaryExpr UnaryOp.BitNot (Some e') 70%nat
       /\ outcome (UnaryExpr_Optimize Example.g64 UnaryOp.BitNot (Some e')
                     70%nat) <> Fatal.
Proof.
  split; [reflexivity|].
  apply (checked_unary_folds_without_abort Example.g64
           Example.noGeneralType IsIntType UnaryOp.BitNot
           (Example.int_literal 7) _ 70%nat []);
    reflexivity.
Defined.

Lemma unary_check_reports_once_witness :
  (exists p m,
     [Reported (Error 80%nat (CantAssignToConst Atomic.UniformConstInt32))]
     = [Reported (Error p m)])
  \/ (exists p m,
        [Reported (Error 80%nat (CantAssignToConst Atomic.UniformConstInt32))]
        = [UnaryError p m]).
Proof.
  apply (unary_check_reports_once Example.g64 Example.noGeneralType
           IsIntType UnaryOp.PreInc Example.c Atomic.UniformConstInt32
           80%nat None);
    reflexivity.
Defined.
